(** * Anima SDK: the streaming job-session client

    A shallow embedding of the parts of the Anima SDK that consume a job's
    event stream:

    - [Job]: [sdk-react/src/job.ts] (the module the provider imports as
      [./job]; its text is the second document of
      [sdk-react/src/useFigmaFile.ts]) -- [subscribeToJobStream],
      [createJob] and [attachJob], the listeners that fold the named events
      of an [EventSource] into a [CodegenState];
    - [Sdk]: [sdk/src/anima.ts] -- [#processGenerationRequest], the reader
      loop that splits the response body into lines and dispatches frames;
    - [Provider]: [sdk-react/src/AnimaSdkProvider.tsx] (first document of
      [unnamed/part_002]) -- the facade's [createJob] and [attachJob].

    JavaScript objects used as maps are [gmap]s, [undefined]/[null] is
    [None], numbers are [Z], and every listener is a state transformer.
    Events are handled one at a time, in the order of arrival: a listener,
    the continuation after its [await] included, has finished before the
    next event is dispatched. *)

From Stdlib Require Import ZArith Ascii String.
From stdpp Require Import base option list strings gmap.

Local Open Scope Z_scope.
Local Open Scope string_scope.

(** ** Shared types ([sdk/src/types.ts], [sdk/src/errors.ts]) *)

(** [AnimaFiles = Record<string, { content: string; isBinary: boolean }>]. *)
Record AnimaFile := mkAnimaFile {
  content : string;
  isBinary : bool;
}.

Record Asset := mkAsset {
  asset_name : string;
  asset_url : string;
}.

Record ProgressMessage := mkProgressMessage {
  pm_id : string;
  pm_title : string;
  pm_body : string;
}.

(** [class CodegenError extends Error]: the constructor stores [reason] in
    [message]. *)
Module CodegenError.
Record t := mk {
  name : string;
  message : string;
  status : option Z;
  detail : option string;
}.

Definition new (name reason : string)
    (status : option Z) (detail : option string) : t :=
  {| name := name; message := reason; status := status; detail := detail |}.
End CodegenError.

(** [Partial<AnimaSDKResult>]: every field may still be missing. *)
Record AnimaSDKResult := mkResult {
  sessionId : option string;
  figmaFileName : option string;
  figmaSelectedFrameName : option string;
  tokenUsage : option Z;
  files : option (gmap string AnimaFile);
  assets : option (list Asset);
}.

Definition empty_result : AnimaSDKResult :=
  {| sessionId := None; figmaFileName := None; figmaSelectedFrameName := None;
     tokenUsage := None; files := None; assets := None |}.

(** [result.x = v] on a partial result. *)
Definition set_sessionId (v : option string) (r : AnimaSDKResult) :=
  mkResult v (figmaFileName r) (figmaSelectedFrameName r) (tokenUsage r)
    (files r) (assets r).
Definition set_figma (n f : option string) (r : AnimaSDKResult) :=
  mkResult (sessionId r) n f (tokenUsage r) (files r) (assets r).
Definition set_tokenUsage (v : option Z) (r : AnimaSDKResult) :=
  mkResult (sessionId r) (figmaFileName r) (figmaSelectedFrameName r) v
    (files r) (assets r).
Definition set_files (v : option (gmap string AnimaFile)) (r : AnimaSDKResult) :=
  mkResult (sessionId r) (figmaFileName r) (figmaSelectedFrameName r)
    (tokenUsage r) v (assets r).
Definition set_assets (v : option (list Asset)) (r : AnimaSDKResult) :=
  mkResult (sessionId r) (figmaFileName r) (figmaSelectedFrameName r)
    (tokenUsage r) (files r) v.

Inductive GeneratingStatus := gen_success | gen_running | gen_failure.

(** The double quote character, as a string. *)
Definition dquote : string := String (ascii_of_nat 34) EmptyString.

(** [x ?? d]. *)
Definition nullish {A} (x : option A) (d : A) : A :=
  match x with Some a => a | None => d end.

(** ** [sdk-react/src/job.ts] *)

Module Job.

Module Status.
Inductive t := idle | pending | success | aborted | error.

Definition eqb (a b : t) : bool :=
  match a, b with
  | idle, idle | pending, pending | success, success
  | aborted, aborted | error, error => true
  | _, _ => false
  end.

Definition terminal (s : t) : bool :=
  match s with
  | success | aborted | error => true
  | idle | pending => false
  end.
End Status.

Module TaskStatus.
Inductive t := pending | running | finished.

Definition rank (s : t) : nat :=
  match s with pending => 0 | running => 1 | finished => 2 end.

(** [a] is not later than [b] on [pending -> running -> finished]. *)
Definition le (a b : t) : Prop := (rank a <= rank b)%nat.
End TaskStatus.

(** [tasks.fetchDesign.status], [tasks.codeGeneration.{status,progress}]
    and [tasks.uploadAssets.status], flattened. *)
Record Tasks := mkTasks {
  fetchDesign : TaskStatus.t;
  codeGeneration : TaskStatus.t;
  progress : Z;
  uploadAssets : TaskStatus.t;
}.

Record CodegenState := mkState {
  status : Status.t;
  error : option CodegenError.t;
  result : option AnimaSDKResult;
  progressMessages : list ProgressMessage;
  tasks : Tasks;
  jobSessionId : option string;
  jobStatus : gmap string string;
}.

Definition initialProgress : CodegenState :=
  {| status := Status.idle;
     error := None;
     result := None;
     progressMessages := [];
     tasks := {| fetchDesign := TaskStatus.pending;
                 codeGeneration := TaskStatus.pending;
                 progress := 0;
                 uploadAssets := TaskStatus.pending |};
     jobSessionId := None;
     jobStatus := ∅ |}.

(** How many transient errors are tolerated before the request is
    terminated. *)
Definition MAX_RETRIES_AFTER_ERROR : nat := 10.

(** *** What the listeners receive *)

(** The [payload] of an [error] message as the listener reads it:
    [payload.name], [payload.message], [payload.status], [payload.detail]. *)
Record ErrorPayload := mkErrorPayload {
  payload_name : option string;
  payload_message : option string;
  payload_status : option Z;
  payload_detail : option string;
}.

(** The local [errorPayload] after [try { JSON.parse(error.data) } catch {}]:
    still [undefined] when parsing threw, [null], a value without a
    [payload] property, or a message with a [payload]. *)
Inductive ParsedError :=
| undefined_payload
| null_payload
| without_payload
| with_payload (p : ErrorPayload).

(** The argument of the [error] listener: [ErrorEvent | MessageEvent]. *)
Inductive ErrorEventArg :=
| ErrorEvent
| MessageEvent (data : ParsedError).

(** The named events of the source, with [event.data] already decoded by
    the listener's [JSON.parse]; [Ev_other] is a name without listener. *)
Inductive StreamEvent :=
| Ev_start (sessionId : string)
| Ev_queueing (sessionId : string)
| Ev_pre_codegen (message : string)
| Ev_figma_metadata (figmaFileName figmaSelectedFrameName : string)
| Ev_aborted
| Ev_generating_code (st : GeneratingStatus) (progress : Z)
    (files : option (gmap string AnimaFile))
| Ev_progress_messages_updated (progressMessages : list ProgressMessage)
| Ev_job_status_updated (jobStatus : gmap string string)
| Ev_codegen_completed
| Ev_generation_completed
| Ev_assets_uploaded
| Ev_assets_list (assets : list Asset)
| Ev_error (e : ErrorEventArg)
| Ev_done (tokenUsage : Z) (sessionId : string)
| Ev_other (name : string).

(** The response of the request behind the [EventSource]. [body] is
    [await response.text()] ([None] when it rejects) and
    [body_payload_message] is [JSON.parse(body)?.payload?.message] when
    the body parses and the property is truthy. *)
Record Response := mkResponse {
  ok : bool;
  http_status : Z;
  body : option string;
  body_payload_message : option string;
}.

(** [lastFetchResponse: ReturnType<typeof fetch> | undefined]. *)
Inductive FetchPromise :=
| fetch_rejected
| fetch_fulfilled (response : Response).

(** How the promise of [subscribeToJobStream] settled. *)
Inductive Settlement :=
| Resolved (result : option AnimaSDKResult) (error : option CodegenError.t)
| Rejected (reason : CodegenError.t).

(** The variables the listeners close over: [state], [result],
    [errorCount], the promise, the event source, and the calls of
    [stateUpdated] made so far (oldest first). *)
Record Subscription := mkSub {
  state : CodegenState;
  partial : AnimaSDKResult;
  errorCount : nat;
  settled : option Settlement;
  closed : nat;
  emitted : list CodegenState;
}.

(** *** Field updates *)

Definition set_status (v : Status.t) (c : CodegenState) : CodegenState :=
  mkState v (error c) (result c) (progressMessages c) (tasks c)
    (jobSessionId c) (jobStatus c).
Definition set_error (v : option CodegenError.t) (c : CodegenState) :=
  mkState (status c) v (result c) (progressMessages c) (tasks c)
    (jobSessionId c) (jobStatus c).
Definition set_result (v : option AnimaSDKResult) (c : CodegenState) :=
  mkState (status c) (error c) v (progressMessages c) (tasks c)
    (jobSessionId c) (jobStatus c).
Definition set_progressMessages (v : list ProgressMessage) (c : CodegenState) :=
  mkState (status c) (error c) (result c) v (tasks c)
    (jobSessionId c) (jobStatus c).
Definition set_tasks (v : Tasks) (c : CodegenState) :=
  mkState (status c) (error c) (result c) (progressMessages c) v
    (jobSessionId c) (jobStatus c).
Definition set_jobSessionId (v : option string) (c : CodegenState) :=
  mkState (status c) (error c) (result c) (progressMessages c) (tasks c)
    v (jobStatus c).
Definition set_jobStatus (v : gmap string string) (c : CodegenState) :=
  mkState (status c) (error c) (result c) (progressMessages c) (tasks c)
    (jobSessionId c) v.

Definition set_fetchDesign (v : TaskStatus.t) (t : Tasks) : Tasks :=
  mkTasks v (codeGeneration t) (progress t) (uploadAssets t).
Definition set_codeGeneration (v : TaskStatus.t) (t : Tasks) : Tasks :=
  mkTasks (fetchDesign t) v (progress t) (uploadAssets t).
Definition set_progress (v : Z) (t : Tasks) : Tasks :=
  mkTasks (fetchDesign t) (codeGeneration t) v (uploadAssets t).
Definition set_uploadAssets (v : TaskStatus.t) (t : Tasks) : Tasks :=
  mkTasks (fetchDesign t) (codeGeneration t) (progress t) v.

(** [state.x = ...]: a write to the shared [state] object. *)
Definition on_state (f : CodegenState -> CodegenState) (s : Subscription) :=
  mkSub (f (state s)) (partial s) (errorCount s) (settled s) (closed s)
    (emitted s).

(** [result.x = ...]: a write to the shared [result] object. After [done]
    ran, [state.result] is that same object, so the write shows there
    too. *)
Definition on_result (f : AnimaSDKResult -> AnimaSDKResult) (s : Subscription) :=
  let r := f (partial s) in
  let c := match result (state s) with
           | Some _ => set_result (Some r) (state s)
           | None => state s
           end in
  mkSub c r (errorCount s) (settled s) (closed s) (emitted s).

(** [stateUpdated({ ...state })]: the callback receives the state as it
    is now. *)
Definition stateUpdated (s : Subscription) : Subscription :=
  mkSub (state s) (partial s) (errorCount s) (settled s) (closed s)
    (emitted s ++ [state s]).

(** [resolve(v)] and [reject(e)]: only the first call settles the
    promise. What is kept is [v] as it is at the call. [done] resolves
    with the [result] object itself and not with a copy: what the caller
    finds in it is [received], below. *)
Definition settle (v : Settlement) (s : Subscription) : Subscription :=
  mkSub (state s) (partial s) (errorCount s)
    (match settled s with Some old => Some old | None => Some v end)
    (closed s) (emitted s).

(** [es.close()] *)
Definition es_close (s : Subscription) : Subscription :=
  mkSub (state s) (partial s) (errorCount s) (settled s) (S (closed s))
    (emitted s).

Definition incr_errorCount (s : Subscription) : Subscription :=
  mkSub (state s) (partial s) (S (errorCount s)) (settled s) (closed s)
    (emitted s).

(** *** The listeners of [subscribeToJobStream] *)

Definition on_tasks (f : Tasks -> Tasks) : Subscription -> Subscription :=
  on_state (fun c => set_tasks (f (tasks c)) c).

Definition on_start (sid : string) (s : Subscription) : Subscription :=
  let s := on_result (set_sessionId (Some sid)) s in
  let s := on_tasks (set_fetchDesign TaskStatus.running) s in
  let s := on_state (set_jobSessionId (Some sid)) s in
  stateUpdated s.

Definition on_queueing (sid : string) (s : Subscription) : Subscription :=
  stateUpdated (on_state (set_jobSessionId (Some sid)) s).

Definition on_pre_codegen (msg : string) (s : Subscription) : Subscription :=
  if String.eqb msg "Anima model built" then
    let s := on_tasks (set_fetchDesign TaskStatus.finished) s in
    let s := on_tasks (set_codeGeneration TaskStatus.running) s in
    let s := on_tasks (set_uploadAssets TaskStatus.running) s in
    stateUpdated s
  else s.

Definition on_figma_metadata (n f : string) (s : Subscription) : Subscription :=
  on_result (set_figma (Some n) (Some f)) s.

Definition on_aborted (s : Subscription) : Subscription :=
  let error := CodegenError.new "Aborted" "Unknown" None None in
  let s := on_state (set_status Status.aborted) s in
  let s := on_state (set_result None) s in
  let s := on_state (set_error (Some error)) s in
  let s := stateUpdated s in
  settle (Resolved None (Some error)) s.

Definition on_generating_code (st : GeneratingStatus) (pr : Z)
    (fs : option (gmap string AnimaFile)) (s : Subscription) : Subscription :=
  let s := match st with
           | gen_success => on_result (set_files fs) s
           | _ => s
           end in
  let s := on_tasks (set_progress pr) s in
  let s := on_tasks (set_codeGeneration TaskStatus.running) s in
  stateUpdated s.

Definition on_progress_messages_updated (ms : list ProgressMessage)
    (s : Subscription) : Subscription :=
  stateUpdated (on_state (set_progressMessages ms) s).

Definition on_job_status_updated (js : gmap string string)
    (s : Subscription) : Subscription :=
  stateUpdated (on_state (set_jobStatus js) s).

Definition on_codegen_completed (s : Subscription) : Subscription :=
  stateUpdated (on_tasks (set_codeGeneration TaskStatus.finished) s).

Definition on_generation_completed (s : Subscription) : Subscription :=
  stateUpdated (on_tasks (set_codeGeneration TaskStatus.finished) s).

Definition on_assets_uploaded (s : Subscription) : Subscription :=
  stateUpdated (on_tasks (set_uploadAssets TaskStatus.finished) s).

Definition on_assets_list (a : list Asset) (s : Subscription) : Subscription :=
  on_result (set_assets (Some a)) s.

(** [errorPayload?.payload?.name] *)
Definition reported_name (errorPayload : ParsedError) : option string :=
  match errorPayload with
  | with_payload p => payload_name p
  | _ => None
  end.

(** The names after which there is no point in waiting for retries. *)
Definition isUnrecoverableError (errorPayload : ParsedError) : bool :=
  match reported_name errorPayload with
  | Some n =>
      String.eqb n "Task Crashed" || String.eqb n "TimeoutError"
      || String.eqb n "Error" || String.eqb n "Unknown error"
  | None => false
  end.

(** [new CodegenError({ name: errorPayload?.payload.name ?? "Unknown error",
    ... })]. Reading [.name] of a missing [payload] throws a [TypeError]:
    [None]. *)
Definition codegenError_of (errorPayload : ParsedError) : option CodegenError.t :=
  match errorPayload with
  | undefined_payload | null_payload =>
      Some (CodegenError.new "Unknown error" "Unknown" None None)
  | without_payload => None
  | with_payload p =>
      Some (CodegenError.new (nullish (payload_name p) "Unknown error")
              (nullish (payload_message p) "Unknown")
              (payload_status p) (payload_detail p))
  end.

(** The message of a failed request: the body text, or its
    [payload.message]; empty when the body cannot be read. *)
Definition errorMessage_of (response : Response) : string :=
  match body response with
  | None => ""
  | Some text => nullish (body_payload_message response) text
  end.

(** The [error] listener. Without a [lastFetchResponse] it returns at once;
    when awaiting it throws, the listener ends there. A response that is
    not [ok] rejects the promise and closes the source. Otherwise the
    event is classified, counted, and ends the job when the count exceeds
    the ceiling or the name is unrecoverable.

    The listener is [async]: it stops at [await lastFetchResponse] and
    goes on in a microtask. Before the [await] it writes nothing, so
    [on_error] is the listener run from the moment it goes on; [dispatch]
    and [deliver] say when that is. *)
Definition on_error (lastFetchResponse : option FetchPromise)
    (error : ErrorEventArg) (s : Subscription) : Subscription :=
  match lastFetchResponse with
  | None => s
  | Some fetch_rejected => s
  | Some (fetch_fulfilled response) =>
      if negb (ok response) then
        let s := settle (Rejected (CodegenError.new "Request failed"
                           (errorMessage_of response)
                           (Some (http_status response)) None)) s in
        es_close s
      else
        let errorPayload :=
          match error with
          | MessageEvent data => data
          | ErrorEvent => undefined_payload
          end in
        let isUnrecoverable := isUnrecoverableError errorPayload in
        match codegenError_of errorPayload with
        | None => s
        | Some codegenError =>
            let s := incr_errorCount s in
            let shouldTerminateRequest :=
              if (MAX_RETRIES_AFTER_ERROR <? errorCount s)%nat then true
              else if isUnrecoverable then true
              else false in
            if shouldTerminateRequest then
              let s := on_state (set_status Status.error) s in
              let s := on_state (set_error (Some codegenError)) s in
              let s := stateUpdated s in
              settle (Resolved None (Some codegenError)) s
            else s
        end
  end.

Definition on_done (tu : Z) (sid : string) (s : Subscription) : Subscription :=
  let s := on_result (set_tokenUsage (Some tu)) s in
  let s := on_result (set_sessionId (Some sid)) s in
  let s := on_state (set_status Status.success) s in
  let s := on_state (set_result (Some (partial s))) s in
  let s := stateUpdated s in
  settle (Resolved (Some (partial s)) None) s.

(** The dispatch of one event to its listener, for an event that is alone
    in its chunk: the [error] listener goes on before the next event is
    dispatched. *)
Definition dispatch (lastFetchResponse : option FetchPromise)
    (s : Subscription) (ev : StreamEvent) : Subscription :=
  match ev with
  | Ev_start sid => on_start sid s
  | Ev_queueing sid => on_queueing sid s
  | Ev_pre_codegen m => on_pre_codegen m s
  | Ev_figma_metadata n f => on_figma_metadata n f s
  | Ev_aborted => on_aborted s
  | Ev_generating_code st pr fs => on_generating_code st pr fs s
  | Ev_progress_messages_updated ms => on_progress_messages_updated ms s
  | Ev_job_status_updated js => on_job_status_updated js s
  | Ev_codegen_completed => on_codegen_completed s
  | Ev_generation_completed => on_generation_completed s
  | Ev_assets_uploaded => on_assets_uploaded s
  | Ev_assets_list a => on_assets_list a s
  | Ev_error e => on_error lastFetchResponse e s
  | Ev_done tu sid => on_done tu sid s
  | Ev_other _ => s
  end.

(** The state before the first event: a clone of [initialProgress] set to
    [pending] and reported once. *)
Definition subscribed : Subscription :=
  stateUpdated
    (mkSub (set_status Status.pending initialProgress) empty_result 0%nat
       None 0%nat []).

(** [subscribeToJobStream({ es, lastFetchResponse, stateUpdated })] after
    the source dispatched [events], in order, each in a chunk of its own
    (the general case is [subscribeToJobChunks]). *)
Definition subscribeToJobStream (lastFetchResponse : option FetchPromise)
    (events : list StreamEvent) : Subscription :=
  fold_left (dispatch lastFetchResponse) events subscribed.

(** The [status] of every snapshot handed to [stateUpdated]. *)
Definition statuses (s : Subscription) : list Status.t :=
  map status (emitted s).

(** *** Events that arrive together *)

(** The [eventsource] package parses a chunk of the response and
    dispatches the events it holds one after the other, without yielding.
    A listener that is not [async] runs to its end when its event is
    dispatched. The [error] listener stops at [await lastFetchResponse];
    the listeners that wait there go on, oldest first, when the last
    event of the chunk has been dispatched. *)
Record Task := mkTask {
  dispatched : Subscription;
  awaiting : list ErrorEventArg;
}.

Definition listen (lastFetchResponse : option FetchPromise)
    (t : Task) (ev : StreamEvent) : Task :=
  match ev with
  | Ev_error e => mkTask (dispatched t) (awaiting t ++ [e])
  | _ => mkTask (dispatch lastFetchResponse (dispatched t) ev) (awaiting t)
  end.

(** The microtasks at the end of the chunk. For a response that is not
    [ok] the package dispatches one [error] event and nothing else; its
    body is taken to be read before anything else happens. *)
Definition resume (lastFetchResponse : option FetchPromise)
    (t : Task) : Subscription :=
  fold_left (fun s e => on_error lastFetchResponse e s) (awaiting t)
    (dispatched t).

(** The promise as its settlement reaches the caller: [done] resolved it
    with the [result] object, which holds what the listeners have
    written into it by now. *)
Definition handed_out (s : Subscription) (v : Settlement) : Settlement :=
  match v with
  | Resolved (Some _) error => Resolved (Some (partial s)) error
  | _ => v
  end.

(** The listeners and the caller of [subscribeToJobStream]: [received]
    is what [await subscribeToJobStream(..)] gave the caller, [None]
    while it waits. The caller goes on in a microtask of the chunk in
    which the promise settled, and clones the result at once. *)
Record Listening := mkListening {
  subscription : Subscription;
  received : option Settlement;
}.

Definition deliver (lastFetchResponse : option FetchPromise)
    (l : Listening) (chunk : list StreamEvent) : Listening :=
  let s :=
    resume lastFetchResponse
      (fold_left (listen lastFetchResponse) chunk
         (mkTask (subscription l) [])) in
  mkListening s
    (match received l with
     | Some v => Some v
     | None =>
         match settled s with
         | Some v => Some (handed_out s v)
         | None => None
         end
     end).

Definition listening : Listening := mkListening subscribed None.

(** [subscribeToJobStream] after the chunks of the response, in order. *)
Definition subscribeToJobChunks (lastFetchResponse : option FetchPromise)
    (chunks : list (list StreamEvent)) : Listening :=
  fold_left (deliver lastFetchResponse) chunks listening.

(** *** [createJob] and [attachJob] *)

Inductive LocalAssetsStorage :=
| local_path (path : string)
| local_paths (filePath referencePath : string).

(** [params.assetsStorage]: the SDK's strategies and the local one. *)
Inductive AssetsStorage :=
| host
| external (url : string)
| local (storage : LocalAssetsStorage).

(** [s.replace(/^\//, "")] *)
Definition strip_leading_slash (s : string) : string :=
  match s with
  | String "/"%char rest => rest
  | _ => s
  end.

(** Returns [(filePath, referencePath)]. *)
Definition getAssetsLocalStrategyParams (l : LocalAssetsStorage)
    : string * string :=
  match l with
  | local_path path =>
      (strip_leading_slash path, if String.eqb path "/" then "" else path)
  | local_paths filePath referencePath =>
      (strip_leading_slash filePath,
       if String.eqb referencePath "/" then "" else referencePath)
  end.

(** What [await fetch(asset.url)] followed by [await
    response.arrayBuffer()] can do: [fetch] rejects (the request could
    not be made), or it fulfils with a response of any HTTP status whose
    body is read ([None] when reading rejects). The status is never
    looked at. *)
Inductive Download :=
| download_rejected
| download_response (http_status : Z) (buffer : option string).

(** How a call of [createJob] or [attachJob] ends. [StillWaiting]: the
    promise of [subscribeToJobStream] has not settled. *)
Inductive Outcome :=
| Returns (result : option AnimaSDKResult) (error : option CodegenError.t)
| Throws (reason : CodegenError.t)
| ThrowsTypeError
| StillWaiting.

(** A call with what it did: the [assetsStorage] serialized into the
    request, the snapshots reported, and how often the source was
    closed. *)
Record Call := mkCall {
  outcome : Outcome;
  sent_assetsStorage : option AssetsStorage;
  snapshots : list CodegenState;
  closes : nat;
}.

Section Downloads.
(** [arrayBufferToBase64] of [./utils] and the network behind [fetch]. *)
Variable arrayBufferToBase64 : string -> string.
Variable fetch : string -> Download.

(** One element of [downloadAssetsPromises] after [Promise.allSettled]:
    [Some (assetName, base64)] when fulfilled, [None] when rejected. *)
Definition downloadAsset (asset : Asset) : option (string * string) :=
  match fetch (asset_url asset) with
  | download_rejected => None
  | download_response _ None => None
  | download_response _ (Some buffer) =>
      Some (asset_name asset, arrayBufferToBase64 buffer)
  end.

(** The [for (const assetPromise of assets)] loop over the settled
    downloads; [None] when [result.files] is [undefined] at a write. *)
Fixpoint spliceAssets (filePath : string)
    (settledAssets : list (option (string * string)))
    (fs : option (gmap string AnimaFile))
    : option (option (gmap string AnimaFile)) :=
  match settledAssets with
  | [] => Some fs
  | None :: rest => spliceAssets filePath rest fs
  | Some (assetName, base64) :: rest =>
      let assetPath :=
        if String.eqb filePath "" then assetName
        else filePath ++ "/" ++ assetName in
      match fs with
      | None => None
      | Some m =>
          spliceAssets filePath rest
            (Some (<[assetPath := mkAnimaFile base64 true]> m))
      end
  end.

(** The part of [createJob] after the promise resolved without error. *)
Definition finalize (initial : option AssetsStorage)
    (r : option AnimaSDKResult) : Outcome :=
  match initial, r with
  | Some (local storage), Some result =>
      match assets result with
      | Some (a :: l) =>
          let '(filePath, _) := getAssetsLocalStrategyParams storage in
          match spliceAssets filePath (map downloadAsset (a :: l))
                  (files result) with
          | Some fs => Returns (Some (set_files fs result)) None
          | None => ThrowsTypeError
          end
      | _ => Returns r None
      end
  | _, _ => Returns r None
  end.

Definition createJob (assetsStorage : option AssetsStorage)
    (lastFetchResponse : option FetchPromise)
    (events : list StreamEvent) : Call :=
  let initialParams := assetsStorage in
  let sent :=
    match assetsStorage with
    | Some (local storage) =>
        Some (external (snd (getAssetsLocalStrategyParams storage)))
    | other => other
    end in
  let s := subscribeToJobStream lastFetchResponse events in
  match settled s with
  | None => mkCall StillWaiting sent (emitted s) (closed s)
  | Some (Rejected e) => mkCall (Throws e) sent (emitted s) (S (closed s))
  | Some (Resolved r (Some error)) =>
      mkCall (Returns None (Some error)) sent (emitted s) (S (closed s))
  | Some (Resolved r None) =>
      mkCall (finalize initialParams r) sent (emitted s) (S (closed s))
  end.

(** [createJob] on a response that arrives in [chunks]. *)
Definition createJob_by_chunk (assetsStorage : option AssetsStorage)
    (lastFetchResponse : option FetchPromise)
    (chunks : list (list StreamEvent)) : Call :=
  let initialParams := assetsStorage in
  let sent :=
    match assetsStorage with
    | Some (local storage) =>
        Some (external (snd (getAssetsLocalStrategyParams storage)))
    | other => other
    end in
  let l := subscribeToJobChunks lastFetchResponse chunks in
  let s := subscription l in
  match received l with
  | None => mkCall StillWaiting sent (emitted s) (closed s)
  | Some (Rejected e) => mkCall (Throws e) sent (emitted s) (S (closed s))
  | Some (Resolved r (Some error)) =>
      mkCall (Returns None (Some error)) sent (emitted s) (S (closed s))
  | Some (Resolved r None) =>
      mkCall (finalize initialParams r) sent (emitted s) (S (closed s))
  end.
End Downloads.

Definition attachJob (assetsStorage : option AssetsStorage)
    (lastFetchResponse : option FetchPromise)
    (events : list StreamEvent) : Call :=
  let s := subscribeToJobStream lastFetchResponse events in
  match settled s with
  | None => mkCall StillWaiting assetsStorage (emitted s) (closed s)
  | Some (Rejected e) =>
      mkCall (Throws e) assetsStorage (emitted s) (S (closed s))
  | Some (Resolved r (Some error)) =>
      mkCall (Returns None (Some error)) assetsStorage (emitted s)
        (S (closed s))
  | Some (Resolved r None) =>
      mkCall (Returns r None) assetsStorage (emitted s) (S (closed s))
  end.

(** [attachJob] on a response that arrives in [chunks]. *)
Definition attachJob_by_chunk (assetsStorage : option AssetsStorage)
    (lastFetchResponse : option FetchPromise)
    (chunks : list (list StreamEvent)) : Call :=
  let l := subscribeToJobChunks lastFetchResponse chunks in
  let s := subscription l in
  match received l with
  | None => mkCall StillWaiting assetsStorage (emitted s) (closed s)
  | Some (Rejected e) =>
      mkCall (Throws e) assetsStorage (emitted s) (S (closed s))
  | Some (Resolved r (Some error)) =>
      mkCall (Returns None (Some error)) assetsStorage (emitted s)
        (S (closed s))
  | Some (Resolved r None) =>
      mkCall (Returns r None) assetsStorage (emitted s) (S (closed s))
  end.
End Job.

(** ** [sdk/src/anima.ts] *)

Module Sdk.

(** The values [JSON.parse] can produce for a [data:] line, as far as the
    [switch (data.type)] tells them apart: [null], whose [.type] cannot be
    read, or a value with a [type]. [msg_other] is every [type] without a
    [case], the missing [type] of a primitive included. *)
Inductive Message :=
| msg_queueing (sessionId : option string)
| msg_start (sessionId : string)
| msg_pre_codegen (message : string)
| msg_assets_uploaded
| msg_assets_list (assets : list Asset)
| msg_figma_metadata (figmaFileName figmaSelectedFrameName : string)
| msg_generating_code (st : GeneratingStatus) (progress : Z)
    (files : option (gmap string AnimaFile))
| msg_progress_messages_updated (progressMessages : list ProgressMessage)
| msg_job_status_updated (jobStatus : gmap string string)
| msg_codegen_completed
| msg_generation_completed
| msg_error (errorName reason : string)
| msg_done (tokenUsage : Z) (sessionId : string)
| msg_other (type : option string).

Inductive Json :=
| json_null
| json_message (data : Message).

Inductive MessageType := codegen | l2c | p2c.

(** The [jobType] added to the two update messages: the text of the
    [x-anima-job-type] header or what [JOB_TYPE_CONVERSION_MAP] holds
    for it, which for a name that every object inherits is that member
    of [Object.prototype]. *)
Inductive JobTypeValue :=
| jobType_text (t : string)
| Object_prototype_member (key : string).

(** What the handler was called with. A handler that is a function gets
    the message (with [payload.jobType] added for the two update
    messages); a handler object gets the call of its property, which
    [?.] skips when the property is missing. *)
Inductive HandlerCall :=
| handler (data : Message)
| handler_with_jobType (data : Message) (jobType : option JobTypeValue)
| onQueueing (sessionId : option string)
| onStart (sessionId : string)
| onPreCodegen (message : string)
| onAssetsUploaded
| onAssetsList (assets : list Asset)
| onFigmaMetadata (figmaFileName figmaSelectedFrameName : string)
| onGeneratingCode (st : GeneratingStatus) (progress : Z)
    (files : option (gmap string AnimaFile))
| onProgressMessagesUpdated (progressMessages : list ProgressMessage)
| onJobStatusUpdated (jobStatus : gmap string string)
| onCodegenCompleted.

Inductive Thrown :=
| thrown_CodegenError (e : CodegenError.t)
| thrown_Error (message : string)
| thrown_TypeError
| thrown_by_fetch
| thrown_by_read.

(** The body of a response that is not [ok], as the code classifies it:
    [errorObj?.error?.name === "ZodError"] (with the issues), any other
    value with [typeof errorObj === "object"] (with its rendering in a
    template string), or anything else. *)
Inductive ErrorBody :=
| body_ZodError (issues : string)
| body_object (rendering : string)
| body_text.

(** One [await reader.read()] that is not [done]. *)
Inductive Read :=
| read_value (text : string)
| read_rejects.

Record HttpResponse := mkHttpResponse {
  ok : bool;
  status : Z;
  errorText : string;
  errorBody : ErrorBody;
  jobTypeHeader : option string;
  body : option (list Read);
}.

(** The variables of the reading loop. *)
Record Loop := mkLoop {
  result : AnimaSDKResult;
  calls : list HandlerCall;
}.

(** How a piece of the loop body ends: [continue]/[break] out of the
    [switch], [return], or [throw]. *)
Inductive Step :=
| Next (l : Loop)
| Return (l : Loop)
| Throw (e : Thrown) (l : Loop).

(** *** Strings *)

Definition newline : ascii := ascii_of_nat 10.

(** [s.split("\n")] *)
Fixpoint split (s : string) : list string :=
  match s with
  | EmptyString => [""]
  | String c rest =>
      if Ascii.eqb c newline then "" :: split rest
      else match split rest with
           | [] => [String c ""]
           | l :: ls => String c l :: ls
           end
  end.

(** White space as [trim] removes it, within ASCII. *)
Definition is_space (c : ascii) : bool :=
  let n := nat_of_ascii c in
  ((9 <=? n) && (n <=? 13) || (n =? 32))%nat.

(** [!line.trim()] *)
Fixpoint blank (line : string) : bool :=
  match line with
  | EmptyString => true
  | String c rest => is_space c && blank rest
  end.

(** [line.startsWith(p)] *)
Definition startsWith (p line : string) : bool := String.prefix p line.

(** [line.slice(n)] *)
Fixpoint slice (n : nat) (line : string) : string :=
  match n, line with
  | O, _ => line
  | S n', String _ rest => slice n' rest
  | S _, EmptyString => EmptyString
  end.

(** *** [#processGenerationRequest] *)

Definition on_result (f : AnimaSDKResult -> AnimaSDKResult) (l : Loop) : Loop :=
  mkLoop (f (result l)) (calls l).

Section Request.
(** [JSON.parse], [None] when it throws; whether [typeof handler ===
    "function"]; the [messageType] argument; and the job type of the
    [x-anima-job-type] header after [JOB_TYPE_CONVERSION_MAP]. *)
Variable JSON_parse : string -> option Json.
Variable handlerIsFunction : bool.
Variable messageType : option MessageType.
Variable normalizedJobType : option JobTypeValue.

(** [typeof handler === "function" ? handler(..) : handler.on..?.(..)] *)
Definition call (asFunction asObject : HandlerCall) (l : Loop) : Loop :=
  mkLoop (result l)
    (calls l ++ [if handlerIsFunction then asFunction else asObject]).

Definition isCodegen : bool :=
  match messageType with
  | Some codegen => true
  | _ => false
  end.

(** [switch (data.type)] *)
Definition onMessage (data : Message) (l : Loop) : Step :=
  match data with
  | msg_queueing sid => Next (call (handler data) (onQueueing sid) l)
  | msg_start sid =>
      let l := on_result (set_sessionId (Some sid)) l in
      Next (call (handler data) (onStart sid) l)
  | msg_pre_codegen m =>
      if isCodegen then Next (call (handler data) (onPreCodegen m) l)
      else Next l
  | msg_assets_uploaded => Next (call (handler data) onAssetsUploaded l)
  | msg_assets_list a =>
      let l := on_result (set_assets (Some a)) l in
      Next (call (handler data) (onAssetsList a) l)
  | msg_figma_metadata n f =>
      if isCodegen then
        let l := on_result (set_figma (Some n) (Some f)) l in
        Next (call (handler data) (onFigmaMetadata n f) l)
      else Next l
  | msg_generating_code st pr fs =>
      let l := match st with
               | gen_success => on_result (set_files fs) l
               | _ => l
               end in
      Next (call (handler data) (onGeneratingCode st pr fs) l)
  | msg_progress_messages_updated ms =>
      Next (call (handler_with_jobType data normalizedJobType)
              (onProgressMessagesUpdated ms) l)
  | msg_job_status_updated js =>
      Next (call (handler_with_jobType data normalizedJobType)
              (onJobStatusUpdated js) l)
  | msg_codegen_completed | msg_generation_completed =>
      Next (call (handler data) onCodegenCompleted l)
  | msg_error errorName reason =>
      Throw (thrown_CodegenError (CodegenError.new errorName reason None None)) l
  | msg_done tu sid =>
      let l := on_result (set_tokenUsage (Some tu)) l in
      let l := on_result (set_sessionId (Some sid)) l in
      Return l
  | msg_other _ => Next l
  end.

(** The body of [for (const line of lines)]. *)
Definition onLine (line : string) (l : Loop) : Step :=
  if blank line || startsWith ":" line then Next l
  else if startsWith "data: " line then
    match JSON_parse (slice 6 line) with
    | None => Next l
    | Some json_null => Throw thrown_TypeError l
    | Some (json_message data) => onMessage data l
    end
  else Next l.

Fixpoint onLines (lines : list string) (l : Loop) : Step :=
  match lines with
  | [] => Next l
  | line :: rest =>
      match onLine line l with
      | Next l' => onLines rest l'
      | stop => stop
      end
  end.

(** [while (true)]: [reads] are the reads before the one that reports
    [done]. The last piece of [split] stays in [buffer]. *)
Fixpoint readLoop (reads : list Read) (buffer : string) (l : Loop) : Step :=
  match reads with
  | [] => Next l
  | read_rejects :: _ => Throw thrown_by_read l
  | read_value value :: rest =>
      let lines := split (buffer ++ value) in
      match onLines (removelast lines) l with
      | Next l' => readLoop rest (List.last lines "") l'
      | stop => stop
      end
  end.

End Request.

(** How the request ends, with the handler calls made and the number of
    [reader.cancel()] calls. *)
Inductive Outcome :=
| Resolves (r : AnimaSDKResult)
| Rejects (e : Thrown).

Record Run := mkRun {
  outcome : Outcome;
  handled : list HandlerCall;
  cancels : nat;
}.

Definition connection_closed : CodegenError.t :=
  CodegenError.new "Connection"
    "Connection closed before the 'done' message" (Some 500) None.

(** The error thrown for a response that is not [ok]. *)
Definition http_error (response : HttpResponse) : CodegenError.t :=
  match errorBody response with
  | body_ZodError issues =>
      CodegenError.new "HTTP error from Anima API" "Invalid body payload"
        (Some (status response)) (Some issues)
  | body_object rendering =>
      CodegenError.new ("Error " ++ dquote ++ rendering ++ dquote) "Unknown"
        (Some (status response)) None
  | body_text =>
      CodegenError.new "HTTP error from Anima API" (errorText response)
        (Some (status response)) None
  end.

(** The names that [JOB_TYPE_CONVERSION_MAP], an object literal, inherits
    from [Object.prototype]; each of them is an object or a function,
    and so truthy. *)
Definition Object_prototype_keys : list string :=
  ["constructor"; "hasOwnProperty"; "isPrototypeOf"; "propertyIsEnumerable";
   "toLocaleString"; "toString"; "valueOf"; "__proto__";
   "__defineGetter__"; "__defineSetter__"; "__lookupGetter__";
   "__lookupSetter__"].

(** [jobType && JOB_TYPE_CONVERSION_MAP[jobType]
       ? JOB_TYPE_CONVERSION_MAP[jobType] : jobType] *)
Definition normalizeJobType (jobType : option string)
    : option JobTypeValue :=
  match jobType with
  | Some t =>
      if String.eqb t "codegen" then Some (jobType_text "f2c")
      else if existsb (String.eqb t) Object_prototype_keys
      then Some (Object_prototype_member t)
      else Some (jobType_text t)
  | None => None
  end.

(** [fetched] is what [await fetch(..)] gives, [None] when it rejects. *)
Definition processGenerationRequest (JSON_parse : string -> option Json)
    (handlerIsFunction : bool) (messageType : option MessageType)
    (hasAuth : bool) (fetched : option HttpResponse) : Run :=
  if negb hasAuth then
    mkRun (Rejects (thrown_Error
             ("It needs to set " ++ dquote ++ "auth" ++ dquote
              ++ " before calling this method.")))
      [] 0
  else
    match fetched with
    | None => mkRun (Rejects thrown_by_fetch) [] 0
    | Some response =>
        if negb (ok response) then
          mkRun (Rejects (thrown_CodegenError (http_error response))) [] 0
        else
          match body response with
          | None =>
              mkRun (Rejects (thrown_CodegenError
                       (CodegenError.new "Stream Error"
                          "Response body is null"
                          (Some (status response)) None))) [] 0
          | Some reads =>
              match readLoop JSON_parse handlerIsFunction messageType
                      (normalizeJobType (jobTypeHeader response))
                      reads "" (mkLoop empty_result []) with
              | Next l =>
                  mkRun (Rejects (thrown_CodegenError connection_closed))
                    (calls l) 1
              | Return l => mkRun (Resolves (result l)) (calls l) 1
              | Throw e l => mkRun (Rejects e) (calls l) 1
              end
          end
    end.
End Sdk.


(** ** [sdk-react/src/AnimaSdkProvider.tsx] *)

Module Provider.

Inductive JobType := f2c | l2c | p2c.

(** The stored name of a job type and back: [['f2c', 'l2c',
    'p2c'].includes(storedType)]. *)
Definition JobType_name (t : JobType) : string :=
  match t with f2c => "f2c" | l2c => "l2c" | p2c => "p2c" end.

Definition JobType_of_name (n : string) : option JobType :=
  if String.eqb n "f2c" then Some f2c
  else if String.eqb n "l2c" then Some l2c
  else if String.eqb n "p2c" then Some p2c
  else None.

(** What a [catch (e)] caught from the SDK call. *)
Inductive Cause :=
| caught_CodegenError (e : CodegenError.t)
| caught_TypeError.

(** The errors of the provider, by class. *)
Inductive ProviderError :=
| Error (message : string)
| CreateJobError (message : string) (cause : Cause)
| AttachJobError (message : string) (cause : option Cause)
| UnknownCodegenError
| StreamError (e : CodegenError.t).

(** [UseAnimaParams], of which only [assetsStorage] is looked at. *)
Definition Params : Type := option Job.AssetsStorage.

(** [type Job]: a union tagged by [status]. [params = None] is [{}]. *)
Inductive Job :=
| job_idle
| job_error (type : option JobType) (params : Params) (error : ProviderError)
    (sessionId : option string) (payload : gmap string string)
    (progressMessages : list ProgressMessage)
| job_pending (type : JobType) (params : Params)
    (sessionId : option string) (payload : gmap string string)
    (progressMessages : list ProgressMessage)
| job_success (type : JobType) (params : Params)
    (sessionId : option string) (payload : gmap string string)
    (assets : option (list Asset)) (files : option (gmap string AnimaFile))
    (progressMessages : list ProgressMessage).

(** [job.status === 'pending'] *)
Definition is_pending (j : Job) : bool :=
  match j with
  | job_pending _ _ _ _ _ => true
  | _ => false
  end.

(** ['params' in job ? job.params : {}] *)
Definition params_of (j : Job) : Params :=
  match j with
  | job_idle => None
  | job_error _ ps _ _ _ _ | job_pending _ ps _ _ _
  | job_success _ ps _ _ _ _ _ => ps
  end.

(** The state of one mounted provider: the [job] and [rawState] states, the
    [currentJobType] ref, the browser's [localStorage], and the URLs of the
    event sources opened so far. *)
Record State := mkProvider {
  job : Job;
  currentJobType : option JobType;
  rawState : Job.CodegenState;
  localStorage : gmap string string;
  opened : list string;
}.

Definition mounted (storage : gmap string string) : State :=
  mkProvider job_idle None Job.initialProgress storage [].

Definition setJob (f : Job -> Job) (p : State) : State :=
  mkProvider (f (job p)) (currentJobType p) (rawState p) (localStorage p)
    (opened p).
Definition set_currentJobType (t : option JobType) (p : State) : State :=
  mkProvider (job p) t (rawState p) (localStorage p) (opened p).
Definition setRawState (c : Job.CodegenState) (p : State) : State :=
  mkProvider (job p) (currentJobType p) c (localStorage p) (opened p).
Definition setItem (k v : string) (p : State) : State :=
  mkProvider (job p) (currentJobType p) (rawState p)
    (<[k := v]> (localStorage p)) (opened p).
Definition open (url : string) (p : State) : State :=
  mkProvider (job p) (currentJobType p) (rawState p) (localStorage p)
    (opened p ++ [url]).

(** [`anima:${sessionId}:type`]; a [null] session id prints as [null]. *)
Definition type_key (sessionId : option string) : string :=
  "anima:" ++ nullish sessionId "null" ++ ":type".

(** The [useEffect] on [rawState]. *)
Definition effect (p : State) : State :=
  match currentJobType p with
  | None => p
  | Some jobType =>
      let raw := rawState p in
      match Job.status raw with
      | Job.Status.error =>
          let error := match Job.error raw with
                       | Some e => StreamError e
                       | None => UnknownCodegenError
                       end in
          setJob (fun j => job_error (Some jobType) (params_of j) error
                    (Job.jobSessionId raw) (Job.jobStatus raw)
                    (Job.progressMessages raw)) p
      | Job.Status.pending =>
          let p := setItem (type_key (Job.jobSessionId raw))
                     (JobType_name jobType) p in
          setJob (fun j => job_pending jobType (params_of j)
                    (Job.jobSessionId raw) (Job.jobStatus raw)
                    (Job.progressMessages raw)) p
      | _ => p
      end
  end.

(** The callback [(newState) => setRawState(newState)] for every snapshot
    of a call, each followed by the effect. *)
Definition report (snapshots : list Job.CodegenState) (p : State) : State :=
  fold_left (fun p c => effect (setRawState c p)) snapshots p.

(** How a call of the provider ends. *)
Inductive Ending :=
| returns
| throws (e : ProviderError)
| waits.

(** [e instanceof Error ? e.message : 'Unknown error']: both causes are
    [Error]s; the text of a [TypeError] is the engine's. *)
Definition message_of (typeErrorText : string) (c : Cause) : string :=
  match c with
  | caught_CodegenError e => CodegenError.message e
  | caught_TypeError => typeErrorText
  end.

Section Provider.
(** The props, the helper and network behind [Job.createJob], the text an
    engine gives a [TypeError], and the server: for the URL of an event
    source, the response promise and the events it dispatches. *)
Variables f2cUrl l2cUrl p2cUrl : string.
Variable arrayBufferToBase64 : string -> string.
Variable fetch : string -> Job.Download.
Variable typeErrorText : string.
Variable server : string -> option Job.FetchPromise * list Job.StreamEvent.

Definition mappingJobTypeToUrl (t : JobType) : string :=
  match t with f2c => f2cUrl | l2c => l2cUrl | p2c => p2cUrl end.

(** [createJob(type, params)]. The closure reads the [job] and [rawState]
    of the render it was created in: the state at the call. The [params]
    stored with a failure are the caller's object, in which
    [Job.createJob] has replaced a local [assetsStorage] by the external
    one it sends. *)
Definition createJob (type : JobType) (params : Params) (p : State)
    : State * Ending :=
  if is_pending (job p) then (p, throws (Error "A job is already in progress"))
  else
    let rendered := rawState p in
    let p := set_currentJobType (Some type) p in
    let url := mappingJobTypeToUrl type in
    let p := open url p in
    let c := Job.createJob arrayBufferToBase64 fetch params
               (fst (server url)) (snd (server url)) in
    let p := report (Job.snapshots c) p in
    let failed (cause : Cause) :=
      let p := set_currentJobType None p in
      let error := CreateJobError (message_of typeErrorText cause) cause in
      let p := setJob (fun _ => job_error (Some type)
                         (Job.sent_assetsStorage c) error
                         (Job.jobSessionId rendered) (Job.jobStatus rendered)
                         (Job.progressMessages rendered)) p in
      (p, throws error) in
    match Job.outcome c with
    | Job.StillWaiting => (p, waits)
    | Job.Throws e => failed (caught_CodegenError e)
    | Job.ThrowsTypeError => failed caught_TypeError
    | Job.Returns None _ => (p, returns)
    | Job.Returns (Some result) _ =>
        (setJob (fun j => job_success type (params_of j) (sessionId result)
                   (Job.jobStatus rendered) (assets result) (files result)
                   (Job.progressMessages rendered)) p,
         returns)
    end.

(** [attachJob(sessionId, params)] *)
Definition attachJob (sid : string) (params : Params) (p : State)
    : State * Ending :=
  match localStorage p !! type_key (Some sid) with
  | None =>
      (p, throws (AttachJobError
            ("Cannot attach job " ++ sid
             ++ ": job type not found in local storage") None))
  | Some storedType =>
      if String.eqb storedType "" then
        (p, throws (AttachJobError
              ("Cannot attach job " ++ sid
               ++ ": job type not found in local storage") None))
      else
        match JobType_of_name storedType with
        | None =>
            (p, throws (AttachJobError
                  ("Invalid job type " ++ dquote ++ storedType ++ dquote
                   ++ " for job " ++ sid) None))
        | Some type =>
            let rendered := rawState p in
            let p := set_currentJobType (Some type) p in
            let url := mappingJobTypeToUrl type ++ "/" ++ sid in
            let p := open url p in
            let c := Job.attachJob params (fst (server url))
                       (snd (server url)) in
            let p := report (Job.snapshots c) p in
            let failed (cause : Cause) :=
              let error :=
                AttachJobError (message_of typeErrorText cause) (Some cause) in
              let p := setJob (fun _ => job_error (currentJobType p) None error
                                 (Some sid) (Job.jobStatus rendered)
                                 (Job.progressMessages rendered)) p in
              (p, throws error) in
            match Job.outcome c with
            | Job.StillWaiting => (p, waits)
            | Job.Throws e => failed (caught_CodegenError e)
            | Job.ThrowsTypeError => failed caught_TypeError
            | Job.Returns None _ => (p, returns)
            | Job.Returns (Some result) _ =>
                (setJob (fun j => job_success type (params_of j) (Some sid)
                           (Job.jobStatus rendered) (assets result)
                           (files result) (Job.progressMessages rendered)) p,
                 returns)
            end
        end
  end.
End Provider.
End Provider.


(** ** Vocabulary of the properties *)

Module Props.
Import Job.

(** An [error] event that is tolerated: a transport [ErrorEvent], a message
    whose data does not parse or is [null], or a message whose payload does
    not carry one of the unrecoverable names. A message without the
    [payload] its type requires is not counted. *)
Definition transient (e : ErrorEventArg) : bool :=
  match e with
  | ErrorEvent => true
  | MessageEvent without_payload => false
  | MessageEvent data => negb (isUnrecoverableError data)
  end.

(** The parsed payload the [error] listener works with. *)
Definition errorPayload_of (e : ErrorEventArg) : ParsedError :=
  match e with
  | ErrorEvent => undefined_payload
  | MessageEvent data => data
  end.

(** One step along [idle -> pending -> {success | aborted | error}], or no
    move. *)
Definition chain_step (a b : Status.t) : bool :=
  Status.eqb a b ||
  match a, b with
  | Status.idle, Status.pending => true
  | Status.pending, (Status.success | Status.aborted | Status.error) => true
  | _, _ => false
  end.

(** A possibly repeating prefix of the chain. *)
Fixpoint follows_chain (l : list Status.t) : bool :=
  match l with
  | a :: (b :: _) as rest => chain_step a b && follows_chain rest
  | _ => true
  end.

(** Sub-task statuses that never move backwards. *)
Fixpoint never_regresses (l : list TaskStatus.t) : bool :=
  match l with
  | a :: (b :: _) as rest =>
      (TaskStatus.rank a <=? TaskStatus.rank b)%nat && never_regresses rest
  | _ => true
  end.

(** The events whose listener sets a sub-task to [running] whatever it was:
    [start] for [fetchDesign], the model-built [pre_codegen] and
    [generating_code] for [codeGeneration], the model-built [pre_codegen]
    for [uploadAssets]. *)
Definition restarts_fetchDesign (ev : StreamEvent) : bool :=
  match ev with
  | Ev_start _ => true
  | _ => false
  end.

Definition restarts_codeGeneration (ev : StreamEvent) : bool :=
  match ev with
  | Ev_pre_codegen m => String.eqb m "Anima model built"
  | Ev_generating_code _ _ _ => true
  | _ => false
  end.

Definition restarts_uploadAssets (ev : StreamEvent) : bool :=
  match ev with
  | Ev_pre_codegen m => String.eqb m "Anima model built"
  | _ => false
  end.

(** A move of one sub-task at an event: forward or none, or from
    [finished] back to [running] at an event that restarts it. *)
Definition task_move (restarts : bool) (a b : TaskStatus.t) : Prop :=
  TaskStatus.le a b
  \/ (a = TaskStatus.finished /\ b = TaskStatus.running /\ restarts = true).

(** Between two snapshots a sub-task moved forward, stayed, or went from
    [finished] back to [running]. *)
Definition forward_or_restart (a b : TaskStatus.t) : bool :=
  (TaskStatus.rank a <=? TaskStatus.rank b)%nat
  || match a, b with
     | TaskStatus.finished, TaskStatus.running => true
     | _, _ => false
     end.

Definition tasks_forward_or_restart (a b : Tasks) : bool :=
  forward_or_restart (fetchDesign a) (fetchDesign b)
  && forward_or_restart (codeGeneration a) (codeGeneration b)
  && forward_or_restart (uploadAssets a) (uploadAssets b).

(** [R] holds between every element and the next one. *)
Fixpoint adjacent {A} (R : A -> A -> bool) (l : list A) : bool :=
  match l with
  | a :: (b :: _) as rest => R a b && adjacent R rest
  | _ => true
  end.

(** [generating_code] with payload status [success]. *)
Definition stashes_files (ev : StreamEvent) : bool :=
  match ev with
  | Ev_generating_code gen_success _ _ => true
  | _ => false
  end.

(** The statuses reported so far are some [pending]s followed by terminal
    statuses only, and the current status is terminal exactly when one was
    reported. *)
Definition pending_then_terminal (s : Subscription) : Prop :=
  exists n ts,
    statuses s = (repeat Status.pending (S n) ++ ts)%list
    /\ forallb Status.terminal ts = true
    /\ (if Status.terminal (status (state s)) then ts <> []
        else ts = [] /\ status (state s) = Status.pending).

(** The subscription [s] with [n] more errors counted and nothing else
    changed. *)
Definition counted (n : nat) (s : Subscription) : Subscription :=
  mkSub (state s) (partial s) (n + errorCount s) (settled s) (closed s)
    (emitted s).

(** The subscription after the listener gave up with [err]. *)
Definition terminated (err : CodegenError.t) (s : Subscription) : Subscription :=
  let c := set_error (Some err) (set_status Status.error (state s)) in
  mkSub c (partial s) (S (errorCount s))
    (match settled s with
     | Some old => Some old
     | None => Some (Resolved None (Some err))
     end)
    (closed s) (emitted s ++ [c])%list.

(** The [error] events of a list, in order. *)
Definition errors_of (evs : list StreamEvent) : list ErrorEventArg :=
  omap (fun ev => match ev with Ev_error e => Some e | _ => None end) evs.

(** The events whose listener is not [async]. *)
Definition runs_at_once (ev : StreamEvent) : bool :=
  match ev with
  | Ev_error _ => false
  | _ => true
  end.

(** The order in which the listeners of a chunk do their work: those that
    run at once, then the [error] listeners. *)
Definition deferred (chunk : list StreamEvent) : list StreamEvent :=
  List.filter runs_at_once chunk ++ map Ev_error (errors_of chunk).

(** [done] and [aborted]: the events that end a job by themselves. *)
Definition ends_job (ev : StreamEvent) : bool :=
  match ev with
  | Ev_done _ _ | Ev_aborted => true
  | _ => false
  end.

(** The events whose listener sets a sub-task to [finished]: the
    model-built [pre_codegen] for [fetchDesign], [codegen_completed] and
    [generation_completed] for [codeGeneration], [assets_uploaded] for
    [uploadAssets]. *)
Definition finishes_fetchDesign (ev : StreamEvent) : bool :=
  match ev with
  | Ev_pre_codegen m => String.eqb m "Anima model built"
  | _ => false
  end.

Definition finishes_codeGeneration (ev : StreamEvent) : bool :=
  match ev with
  | Ev_codegen_completed | Ev_generation_completed => true
  | _ => false
  end.

Definition finishes_uploadAssets (ev : StreamEvent) : bool :=
  match ev with
  | Ev_assets_uploaded => true
  | _ => false
  end.

(** A sub-task after an event: [running] or [finished] when the event
    says so, whatever it was, and as it was otherwise. *)
Definition task_step (restarts finishes : bool) (a : TaskStatus.t)
    : TaskStatus.t :=
  if restarts then TaskStatus.running
  else if finishes then TaskStatus.finished
  else a.

Definition is_finished (a : TaskStatus.t) : bool :=
  match a with
  | TaskStatus.finished => true
  | _ => false
  end.

(** A move backwards on [pending -> running -> finished]. *)
Definition goes_back (a b : TaskStatus.t) : bool :=
  (TaskStatus.rank b <? TaskStatus.rank a)%nat.

(** Sample inputs: the response of an open stream, a crash report as
    [createCodegenStream] forwards it, and a named error that is not in
    the unrecoverable list. *)
Definition open_stream : option FetchPromise :=
  Some (fetch_fulfilled (mkResponse true 200 None None)).

Definition task_crashed : ErrorEventArg :=
  MessageEvent (with_payload
    (mkErrorPayload (Some "Task Crashed") (Some "Unknown") None None)).

Definition socket_hang_up : ErrorEventArg :=
  MessageEvent (with_payload
    (mkErrorPayload (Some "FetchError") (Some "socket hang up") None None)).

(** Scenario E: a job with one generated file and two listed assets, run
    with [assetsStorage: { strategy: "local", path: "/assets" }]. The
    first asset downloads; for the second the server answers 404 with a
    body ([not_found]), or the request fails altogether ([unreachable]). *)
Definition scenario_E : list StreamEvent :=
  [Ev_start "session";
   Ev_generating_code gen_success 100
     (Some {["index.html" := mkAnimaFile "<html></html>" false]});
   Ev_assets_list [mkAsset "a.png" "https://cdn/a.png";
                   mkAsset "b.png" "https://cdn/b.png"];
   Ev_done 10 "session"].

(** What the caller has received is the settlement of the promise, with
    the result object as it was at some moment. *)
Definition in_step (l : Listening) : Prop :=
  match received l with
  | None => settled (subscription l) = None
  | Some w =>
      exists v s,
        settled (subscription l) = Some v /\ w = handed_out s v
  end.

(** A stream in two chunks: a [start] and an [assets_uploaded] among
    eleven transient errors. *)
Definition interleaved : list (list StreamEvent) :=
  [Ev_start "session" :: map Ev_error (repeat ErrorEvent 5);
   Ev_assets_uploaded :: map Ev_error (repeat socket_hang_up 6)].

Definition not_found (url : string) : Download :=
  if String.eqb url "https://cdn/a.png" then download_response 200 (Some "PNG")
  else download_response 404 (Some "Not Found").

Definition unreachable (url : string) : Download :=
  if String.eqb url "https://cdn/a.png" then download_response 200 (Some "PNG")
  else download_rejected.
End Props.

Module SdkProps.
Import Sdk.

(** The text of the whole body: the decoded chunks one after the other. *)
Fixpoint join (values : list string) : string :=
  match values with
  | [] => ""
  | value :: rest => value ++ join rest
  end.

(** The lines the loop gets to see: every piece of the text that is
    followed by a line feed. *)
Definition complete_lines (text : string) : list string :=
  removelast (split text).

(** A line at which the loop stops: a [data: ] frame that decodes to
    [done], to [error], or to [null]. *)
Definition stops (JSON_parse : string -> option Json) (line : string) : bool :=
  negb (blank line || startsWith ":" line)
  && startsWith "data: " line
  && match JSON_parse (slice 6 line) with
     | Some json_null
     | Some (json_message (msg_done _ _))
     | Some (json_message (msg_error _ _)) => true
     | _ => false
     end.

(** Frames for examples, as the server writes them:
    [{"type":"start","sessionId":"session"}],
    [{"type":"done","payload":{"sessionId":"session","tokenUsage":10}}] and
    [{"type":"error","payload":{"errorName":"Task Crashed","reason":"Unknown"}}]. *)
Definition quoted (s : string) : string := dquote ++ s ++ dquote.

Definition start_frame : string :=
  "{" ++ quoted "type" ++ ":" ++ quoted "start" ++ ","
  ++ quoted "sessionId" ++ ":" ++ quoted "session" ++ "}".

Definition done_frame : string :=
  "{" ++ quoted "type" ++ ":" ++ quoted "done" ++ ","
  ++ quoted "payload" ++ ":{" ++ quoted "sessionId" ++ ":" ++ quoted "session"
  ++ "," ++ quoted "tokenUsage" ++ ":10}}".

Definition error_frame : string :=
  "{" ++ quoted "type" ++ ":" ++ quoted "error" ++ ","
  ++ quoted "payload" ++ ":{" ++ quoted "errorName" ++ ":"
  ++ quoted "Task Crashed" ++ "," ++ quoted "reason" ++ ":"
  ++ quoted "Unknown" ++ "}}".

(** The [data: ] line of a frame. *)
Definition data (frame : string) : string := "data: " ++ frame.

(** A decoder for examples: it knows these three frames and [null], and
    rejects every other text. *)
Definition sample_parse (text : string) : option Json :=
  if String.eqb text start_frame then
    Some (json_message (msg_start "session"))
  else if String.eqb text done_frame then
    Some (json_message (msg_done 10 "session"))
  else if String.eqb text error_frame then
    Some (json_message (msg_error "Task Crashed" "Unknown"))
  else if String.eqb text "null" then Some json_null
  else None.




(** An [ok] response whose body arrives in the given chunks. *)
Definition streamed (values : list string) : HttpResponse :=
  mkHttpResponse true 200 "" body_text None (Some (map read_value values)).

Definition line_feed : string := String newline "".
End SdkProps.

(** ** What a sequence of events leaves behind *)

Module JobViews.
Import Job.

(** The value of a field that listeners overwrite: what the last writing
    event of [evs] wrote, or [d] when none wrote. *)
Definition last_written {A} (writes : StreamEvent -> option A)
    (evs : list StreamEvent) (d : A) : A :=
  fold_left (fun acc ev => match writes ev with Some a => a | None => acc end)
    evs d.

(** What an event writes into [state.jobSessionId], [state.progressMessages],
    [state.jobStatus] and [state.tasks.codeGeneration.progress]. *)
Definition writes_jobSessionId (ev : StreamEvent) : option (option string) :=
  match ev with
  | Ev_start sid | Ev_queueing sid => Some (Some sid)
  | _ => None
  end.

Definition writes_progressMessages (ev : StreamEvent)
    : option (list ProgressMessage) :=
  match ev with
  | Ev_progress_messages_updated ms => Some ms
  | _ => None
  end.

Definition writes_jobStatus (ev : StreamEvent) : option (gmap string string) :=
  match ev with
  | Ev_job_status_updated js => Some js
  | _ => None
  end.

Definition writes_progress (ev : StreamEvent) : option Z :=
  match ev with
  | Ev_generating_code _ pr _ => Some pr
  | _ => None
  end.

(** What an event writes into the fields of [result]. *)
Definition writes_sessionId (ev : StreamEvent) : option (option string) :=
  match ev with
  | Ev_start sid | Ev_done _ sid => Some (Some sid)
  | _ => None
  end.

Definition writes_tokenUsage (ev : StreamEvent) : option (option Z) :=
  match ev with
  | Ev_done tu _ => Some (Some tu)
  | _ => None
  end.

Definition writes_files (ev : StreamEvent)
    : option (option (gmap string AnimaFile)) :=
  match ev with
  | Ev_generating_code gen_success _ fs => Some fs
  | _ => None
  end.

Definition writes_assets (ev : StreamEvent) : option (option (list Asset)) :=
  match ev with
  | Ev_assets_list a => Some (Some a)
  | _ => None
  end.

Definition writes_figmaFileName (ev : StreamEvent) : option (option string) :=
  match ev with
  | Ev_figma_metadata n _ => Some (Some n)
  | _ => None
  end.

Definition writes_figmaSelectedFrameName (ev : StreamEvent)
    : option (option string) :=
  match ev with
  | Ev_figma_metadata _ f => Some (Some f)
  | _ => None
  end.

(** The result object as the events of [evs] filled it. *)
Definition filled (evs : list StreamEvent) : AnimaSDKResult :=
  mkResult (last_written writes_sessionId evs None)
    (last_written writes_figmaFileName evs None)
    (last_written writes_figmaSelectedFrameName evs None)
    (last_written writes_tokenUsage evs None)
    (last_written writes_files evs None)
    (last_written writes_assets evs None).

Definition is_error (ev : StreamEvent) : bool :=
  match ev with
  | Ev_error _ => true
  | _ => false
  end.

(** Whether the error listener has a response to look at, and whether it
    is a failed one. *)
Definition request_failed (lastFetchResponse : option FetchPromise) : bool :=
  match lastFetchResponse with
  | Some (fetch_fulfilled response) => negb (ok response)
  | _ => false
  end.

Definition listener_is_deaf (lastFetchResponse : option FetchPromise) : bool :=
  match lastFetchResponse with
  | Some (fetch_fulfilled _) => false
  | _ => true
  end.

(** [filePath ? `${filePath}/${assetName}` : assetName] *)
Definition assetPath (filePath assetName : string) : string :=
  if String.eqb filePath "" then assetName else filePath ++ "/" ++ assetName.

(** The downloads that were fulfilled, newest first. *)
Definition fulfilled_newest_first (settledAssets : list (option (string * string)))
    : list (string * string) :=
  rev (omap id settledAssets).

(** The file stored under [path] by the splice loop, if any: the newest
    fulfilled download whose asset path is [path]. *)
Definition spliced_at (filePath path : string)
    (settledAssets : list (option (string * string))) : option AnimaFile :=
  match List.find (fun a => String.eqb (assetPath filePath (fst a)) path)
          (fulfilled_newest_first settledAssets) with
  | Some a => Some (mkAnimaFile (snd a) true)
  | None => None
  end.
(** A result with one file and one listed asset, for examples. *)
Definition one_asset : AnimaSDKResult :=
  mkResult (Some "session") None None (Some 10)
    (Some {["index.html" := mkAnimaFile "<html></html>" false]})
    (Some [mkAsset "a.png" "https://cdn/a.png"]).

(** Servers for examples: every source starts a job, which is then
    aborted, or done. *)
Definition aborting (url : string)
    : option FetchPromise * list StreamEvent :=
  (Props.open_stream, [Ev_start "session"] ++ [Ev_aborted])%list.

Definition finishing (url : string)
    : option FetchPromise * list StreamEvent :=
  (Props.open_stream, [] ++ Ev_start "session" :: [Ev_done 10 "session"])%list.
End JobViews.

(** ** What the reading loop hands to the handler *)

Module SdkViews.
Import Sdk.

(** Calls made for [pre_codegen] and [figma_metadata] messages. *)
Definition from_figma_flow (c : HandlerCall) : bool :=
  match c with
  | handler (msg_pre_codegen _) | handler (msg_figma_metadata _ _)
  | onPreCodegen _ | onFigmaMetadata _ _ => true
  | _ => false
  end.

(** Calls that would hand an [error], a [done] or a message without a
    [case] to the handler. *)
Definition hands_over_the_end (c : HandlerCall) : bool :=
  match c with
  | handler (msg_error _ _) | handler (msg_done _ _) | handler (msg_other _)
  | handler_with_jobType (msg_error _ _) _
  | handler_with_jobType (msg_done _ _) _
  | handler_with_jobType (msg_other _) _ => true
  | _ => false
  end.

(** [lines.join("\\n")]: the pieces with a line feed between them. *)
Fixpoint unsplit (lines : list string) : string :=
  match lines with
  | [] => ""
  | [line] => line
  | line :: rest => line ++ String newline (unsplit rest)
  end.

(** No line feed in the text. *)
Fixpoint one_line (text : string) : bool :=
  match text with
  | EmptyString => true
  | String c rest => negb (Ascii.eqb c newline) && one_line rest
  end.

(** The loop continues or throws in a state with [P], or returns in a
    state with [Q]. *)
Definition ends_in (P Q : Loop -> Prop) (st : Step) : Prop :=
  match st with
  | Next l | Throw _ l => P l
  | Return l => Q l
  end.

(** The response with another body. *)
Definition with_body (response : HttpResponse) (values : list string)
    : HttpResponse :=
  mkHttpResponse (ok response) (status response) (errorText response)
    (errorBody response) (jobTypeHeader response)
    (Some (map read_value values)).
(** A chunk for examples: a [start] and a [done] frame, each on its
    line. *)
Definition two_frames : string :=
  SdkProps.data SdkProps.start_frame ++ SdkProps.line_feed
  ++ SdkProps.data SdkProps.done_frame ++ SdkProps.line_feed.
End SdkViews.

(** ** [sdk/src/figma/utils.ts], [sdk/src/utils/isNodeCodegenCompatible.ts]
    and the Figma side of [sdk/src/anima.ts] *)

Module Figma.

(** A [Node] of the Figma file as far as the code reads it: [id], [type]
    and [children]. A node without a [children] property has none. *)
#[warnings="-register-all"]
Inductive FigmaNode :=
| Node (id : string) (type : string) (children : list FigmaNode).

Definition node_id (node : FigmaNode) : string :=
  match node with Node id _ _ => id end.
Definition node_type (node : FigmaNode) : string :=
  match node with Node _ type _ => type end.
Definition node_children (node : FigmaNode) : list FigmaNode :=
  match node with Node _ _ children => children end.

Fixpoint findChildrenNode (node : FigmaNode) (targetNodeId : string)
    : option FigmaNode :=
  match node with
  | Node id _ children =>
      if String.eqb id targetNodeId then Some node
      else
        (fix search (l : list FigmaNode) : option FigmaNode :=
           match l with
           | [] => None
           | child :: rest =>
               match findChildrenNode child targetNodeId with
               | Some found => Some found
               | None => search rest
               end
           end) children
  end.

Definition validNodeTypes : list string :=
  ["FRAME"; "INSTANCE"; "COMPONENT"; "COMPONENT_SET"; "GROUP"].

(** [validNodeTypes.has(type)] *)
Definition has_valid_type (node : FigmaNode) : bool :=
  existsb (String.eqb (node_type node)) validNodeTypes.

Inductive Note :=
| single_valid_child
| first_of_multiple_valid_children.

Inductive InvalidNodeForCodegenReason :=
| page_with_multiple_children
| page_with_no_valid_children
| no_node_with_the_given_id
| node_type_not_supported.

Definition reason_text (reason : InvalidNodeForCodegenReason) : string :=
  match reason with
  | page_with_multiple_children =>
      "Selected node is a page with multiple children"
  | page_with_no_valid_children =>
      "Selected node is a page with no valid children"
  | no_node_with_the_given_id => "There is no node with the given id"
  | node_type_not_supported => "Selected node type is not supported"
  end.

Inductive ValidateNodeForCodegenResult :=
| is_valid (node : FigmaNode) (note : option Note)
| not_valid (reason : InvalidNodeForCodegenReason).

Definition isValid (r : ValidateNodeForCodegenResult) : bool :=
  match r with
  | is_valid _ _ => true
  | not_valid _ => false
  end.

(** [document] is [design.document]. A page ([CANVAS]) always has
    [children]. *)
Definition isNodeCodegenCompatible (document : FigmaNode) (nodeId : string)
    (allowAutoSelectFirstNode : bool) : ValidateNodeForCodegenResult :=
  match findChildrenNode document nodeId with
  | None => not_valid no_node_with_the_given_id
  | Some found =>
      if String.eqb (node_type found) "CANVAS" then
        match List.filter has_valid_type (node_children found) with
        | [] => not_valid page_with_no_valid_children
        | [child] => is_valid child (Some single_valid_child)
        | child :: _ =>
            if allowAutoSelectFirstNode then
              is_valid child (Some first_of_multiple_valid_children)
            else not_valid page_with_multiple_children
        end
      else if negb (has_valid_type found) then
        not_valid node_type_not_supported
      else is_valid found None
  end.

(** [#checkGivenNodeIsValid]: the error it throws, if any. *)
Definition checkGivenNodeIsValid (document : FigmaNode)
    (nodesId : list string) (allowAutoSelectFirstNode : bool)
    : option CodegenError.t :=
  let isCompatibleResults :=
    map (fun nodeId =>
           isNodeCodegenCompatible document nodeId allowAutoSelectFirstNode)
      nodesId in
  match List.find (fun isCompatible => negb (isValid isCompatible))
          isCompatibleResults with
  | Some (not_valid reason) =>
      Some (CodegenError.new "Task Crashed" (reason_text reason) None None)
  | _ => None
  end.

(** The nodes of a tree in document order: a node, then its children's
    trees from first to last. *)
Fixpoint preorder (node : FigmaNode) : list FigmaNode :=
  match node with
  | Node _ _ children =>
      node :: (fix go (l : list FigmaNode) : list FigmaNode :=
                 match l with
                 | [] => []
                 | child :: rest => (preorder child ++ go rest)%list
                 end) children
  end.

(** What [getFile] of the design gave [generateCode]: the file, an error
    named [AbortError], or any other error. *)
Inductive DesignFetch :=
| design (document : FigmaNode)
| AbortError
| other_error.

(** How [generateCode] ends: before the request, or with the request's
    run. [settings] is what [validateSettings] returns, [None] when it
    throws; of the validated settings only [allowAutoSelectFirstNode] is
    read here. *)
Inductive Ending :=
| rethrows_AbortError
| throws_invalid_settings
| throws_invalid_node (e : CodegenError.t)
| requests (run : Sdk.Run).

Definition generateCode (JSON_parse : string -> option Sdk.Json)
    (handlerIsFunction : bool) (getFile : DesignFetch)
    (settings : option (option bool)) (nodesId : list string)
    (hasAuth : bool) (fetched : option Sdk.HttpResponse) : Ending :=
  match getFile with
  | AbortError => rethrows_AbortError
  | _ =>
      match settings with
      | None => throws_invalid_settings
      | Some allowAutoSelectFirstNode =>
          let invalid :=
            match getFile with
            | design document =>
                checkGivenNodeIsValid document nodesId
                  (nullish allowAutoSelectFirstNode true)
            | _ => None
            end in
          match invalid with
          | Some e => throws_invalid_node e
          | None =>
              requests (Sdk.processGenerationRequest JSON_parse
                          handlerIsFunction (Some Sdk.codegen) hasAuth fetched)
          end
      end
  end.
(** A document for examples: one page with one frame. *)
Definition one_page : FigmaNode :=
  Node "0:0" "DOCUMENT" [Node "0:1" "CANVAS" [Node "1:2" "FRAME" []]].
End Figma.

(** ** [sdk/src/FigmaRestApi.ts] and [sdk/src/figma/figmaError.ts] *)

Module FigmaRestApi.

(** The errors the class throws, by class; [operation_aborted] is the
    plain [Error("The operation was aborted.")] and [fetch_rejected] a
    rejection of [fetch] itself. *)
Inductive FigmaError :=
| InvalidFigmaAccessTokenError
| MissingFigmaToken
| FigmaTokenIssue
| NotFound
| RateLimitExceeded
| RequestTooLarge
| UnknownFigmaApiException
| operation_aborted
| fetch_rejected.

Inductive Try (A : Type) :=
| returns (a : A)
| throws (e : FigmaError).
Arguments returns {A} a.
Arguments throws {A} e.

(** [#ensureValidToken]: [true] when it does not throw. *)
Definition ensureValidToken (token : string) : bool :=
  String.prefix "figd_" token || String.prefix "figu_" token.

(** [getHeaders(token)] with [this.#defaultOptions.token]; a missing and
    an [undefined] token are both [None]. *)
Definition getHeaders (defaultToken token : option string)
    : Try (gmap string string) :=
  let headers : gmap string string :=
    {["Content-Type" := "application/json"]} in
  let tokenInUse :=
    match token with
    | Some t => Some t
    | None => defaultToken
    end in
  match tokenInUse with
  | Some t =>
      if String.prefix "figd_" t then
        returns (<["X-FIGMA-TOKEN" := t]> headers)
      else if String.prefix "figu_" t then
        returns (<["Authorization" := "Bearer " ++ t]> headers)
      else throws MissingFigmaToken
  | None => throws MissingFigmaToken
  end.

(** What [onRateLimited] is called with. *)
Record RateLimit := mkRateLimit {
  retryAfter : Z;
  figmaPlanTier : option string;
  figmaRateLimitType : option string;
}.

(** A response as [#doRequest] reads it. [text] is [await
    response.text()], [None] when it rejects. [retryAfterHeader] is
    [Number(Retry-After)], [None] when the header is missing or empty; a
    header that is not a number counts as [0], which is as falsy as
    [NaN]. *)
Record Response := mkResponse {
  ok : bool;
  status : Z;
  text : option string;
  retryAfterHeader : option Z;
  planTierHeader : option string;
  rateLimitTypeHeader : option string;
}.

(** What happens while a retry waits for its timer: the timer fires, or
    the signal aborts first, or the signal had aborted before the wait
    began, so that its listener is never called and the timer does
    nothing. *)
Inductive Wait :=
| timer_fires
| signal_aborts
| signal_was_aborted.

(** One call of [request()]: the response, [None] when [fetch] rejects,
    and what happens during the wait if a retry follows it. *)
Definition Attempt : Type := option Response * Wait.

Inductive Outcome :=
| resolved (response : Response)
| rejected (e : FigmaError)
| never_settles
| awaiting.

(** A run of [#doRequest]: how it ends, how many requests it made, and
    what [onRateLimited] was asked, in order. [awaiting]: the attempts
    given do not tell how the next request ends. *)
Record Run := mkRun {
  outcome : Outcome;
  requests : nat;
  asked : list RateLimit;
}.

(** [text.includes(needle)] *)
Fixpoint includes (needle text : string) : bool :=
  String.prefix needle text
  || match text with
     | EmptyString => false
     | String _ rest => includes needle rest
     end.

(** One more request before [run]. *)
Definition after_request (asks : list RateLimit) (run : Run) : Run :=
  mkRun (outcome run) (S (requests run)) (asks ++ asked run)%list.

Fixpoint doRequest (onRateLimited : option (RateLimit -> bool))
    (attempts : list Attempt) : Run :=
  match attempts with
  | [] => mkRun awaiting 0 []
  | (None, _) :: _ => mkRun (rejected fetch_rejected) 1 []
  | (Some response, wait) :: rest =>
      if ok response then mkRun (resolved response) 1 []
      else if (status response =? 403)%Z then mkRun (rejected FigmaTokenIssue) 1 []
      else if (status response =? 404)%Z then mkRun (rejected NotFound) 1 []
      else if (status response =? 429)%Z then
        match retryAfterHeader response with
        | None | Some 0 => mkRun (rejected RateLimitExceeded) 1 []
        | Some retryAfter =>
            let info := mkRateLimit retryAfter (planTierHeader response)
                          (rateLimitTypeHeader response) in
            match onRateLimited with
            | None => mkRun (rejected RateLimitExceeded) 1 []
            | Some callback =>
                if callback info then
                  match wait with
                  | signal_aborts => mkRun (rejected operation_aborted) 1 [info]
                  | signal_was_aborted => mkRun never_settles 1 [info]
                  | timer_fires =>
                      after_request [info] (doRequest onRateLimited rest)
                  end
                else mkRun (rejected RateLimitExceeded) 1 [info]
            end
        end
      else if (status response =? 500)%Z
              && match text response with
                 | Some t => includes "Request too large" t
                 | None => false
                 end
      then mkRun (rejected RequestTooLarge) 1 []
      else mkRun (rejected UnknownFigmaApiException) 1 []
  end.

(** [Options]: for each key, [None] when the object does not have it,
    [Some None] when it has it with value [undefined]. *)
Record Options := mkOptions {
  token : option (option string);
  onRateLimited : option (option (RateLimit -> bool));
}.

Definition no_options : Options := mkOptions None None.

(** [{ ...a, ...b }] *)
Definition spread (a b : Options) : Options :=
  mkOptions (match token b with Some v => Some v | None => token a end)
    (match onRateLimited b with
     | Some v => Some v
     | None => onRateLimited a
     end).

(** The value read from a key: [undefined] when missing. *)
Definition read {A} (key : option (option A)) : option A :=
  match key with
  | Some v => v
  | None => None
  end.

(** [if (options.token)]: present and not empty. *)
Definition truthy_token (o : Options) : option string :=
  match read (token o) with
  | Some t => if String.eqb t "" then None else Some t
  | None => None
  end.

Record Api := mkApi {
  defaultOptions : Options;
  nextOptions : Options;
}.

(** [new FigmaRestApi({ defaultOptions })] *)
Definition create (defaults : Options) : Try Api :=
  match truthy_token defaults with
  | Some t =>
      if ensureValidToken t then returns (mkApi defaults defaults)
      else throws InvalidFigmaAccessTokenError
  | None => returns (mkApi defaults defaults)
  end.

Definition updateDefaultOptions (options : Options) (api : Api) : Try Api :=
  let updated := spread (defaultOptions api) options in
  match truthy_token options with
  | Some t =>
      if ensureValidToken t then returns (mkApi updated updated)
      else throws InvalidFigmaAccessTokenError
  | None => returns (mkApi updated updated)
  end.

Definition withOptions (options : Options) (api : Api) : Api :=
  mkApi (defaultOptions api)
    (spread (spread (defaultOptions api) (nextOptions api)) options).

(** [#get]: the instance afterwards, the headers of the request (when
    [getHeaders] did not throw), and the run of [#doRequest]. The
    [request] closure builds the headers, so a missing token rejects the
    first request before [fetch] is called. *)
Definition get (api : Api) (attempts : list Attempt)
    : Api * Try (gmap string string) * Run :=
  let next := nextOptions api in
  let api' := mkApi (defaultOptions api) (defaultOptions api) in
  let headers :=
    getHeaders (read (token (defaultOptions api))) (read (token next)) in
  match headers with
  | throws e => (api', headers, mkRun (rejected e) 0 [])
  | returns _ =>
      (api', headers, doRequest (read (onRateLimited next)) attempts)
  end.

(** What downloading the image of a node can do: [fetch] rejects, or it
    gives a response whose body is read unless it is not [ok]; [None]
    when reading the body rejects. *)
Inductive ImageFetch :=
| image_rejected
| image_response (ok : bool) (buffer : option string).

(** One element of [downloadedImages] turned into the value stored for
    the node: the buffer, or [null]. *)
Definition downloadImage (images : gmap string string)
    (fetch : string -> ImageFetch) (nodeId : string) : option string :=
  match images !! nodeId with
  | None => None
  | Some imageUrl =>
      if String.eqb imageUrl "" then None
      else
        match fetch imageUrl with
        | image_rejected => None
        | image_response false _ => None
        | image_response true buffer => buffer
        end
  end.

(** [getNodeImages({ as: "arrayBuffer" })] after the images request gave
    [images] (a [null] link is a missing one): the [reduce] over
    [nodeIds]. *)
Definition getNodeImages (images : gmap string string)
    (fetch : string -> ImageFetch) (nodeIds : list string)
    : gmap string (option string) :=
  fold_left (fun acc nodeId => <[nodeId := downloadImage images fetch nodeId]> acc)
    nodeIds ∅.

Inductive FigmaApiErrorType :=
| type_FigmaTokenIssue
| type_RateLimitExceeded
| type_NotFound
| type_UnknownFigmaApiException
| type_RequestTooLarge.

(** [error.message]; [other] gives the messages that [errors.ts] does
    not fix: those of the token errors and of what [fetch] rejects
    with. *)
Definition message (other : FigmaError -> string) (e : FigmaError) : string :=
  match e with
  | MissingFigmaToken => "Missing Figma Token"
  | NotFound => "Not Found"
  | RateLimitExceeded => "Rate Limit Exceeded"
  | RequestTooLarge => "Request Too Large"
  | UnknownFigmaApiException => "Unknown Figma API Exception"
  | operation_aborted => "The operation was aborted."
  | InvalidFigmaAccessTokenError | FigmaTokenIssue | fetch_rejected => other e
  end.

(** [getFigmaApiErrorType]; [isFigmaTokenIssue] is imported from
    [errors.ts] and taken as given. *)
Definition getFigmaApiErrorType (isFigmaTokenIssue : FigmaError -> bool)
    (other : FigmaError -> string) (e : FigmaError) : FigmaApiErrorType :=
  if String.eqb (message other e) "Not Found" then type_NotFound
  else if String.eqb (message other e) "Rate Limit Exceeded"
  then type_RateLimitExceeded
  else if isFigmaTokenIssue e then type_FigmaTokenIssue
  else if String.eqb (message other e) "Request Too Large"
  then type_RequestTooLarge
  else type_UnknownFigmaApiException.

(** The type by the status of a response that is not [ok]. *)
Definition type_of_status (response : Response) : FigmaApiErrorType :=
  if (status response =? 403)%Z then type_FigmaTokenIssue
  else if (status response =? 404)%Z then type_NotFound
  else if (status response =? 429)%Z then type_RateLimitExceeded
  else if (status response =? 500)%Z
          && match text response with
             | Some t => includes "Request too large" t
             | None => false
             end
  then type_RequestTooLarge
  else type_UnknownFigmaApiException.

(** A rate-limited response with its [Retry-After], and a wait that ends
    in a retry. *)
Definition rate_limited (retryAfter : Z) : Attempt :=
  (Some (mkResponse false 429 None (Some retryAfter) None None), timer_fires).

(** Whether [#doRequest] retries after the attempt, with the callback
    [cb]. *)
Definition is_retried (cb : RateLimit -> bool) (a : Attempt) : bool :=
  match a with
  | (Some response, timer_fires) =>
      negb (ok response) && (status response =? 429)%Z
      && match retryAfterHeader response with
         | None | Some 0 => false
         | Some retryAfter =>
             cb (mkRateLimit retryAfter (planTierHeader response)
                   (rateLimitTypeHeader response))
         end
  | _ => false
  end.

(** What the callback is asked about the attempt, when it is asked. *)
Definition asks_of (a : Attempt) : list RateLimit :=
  match a with
  | (Some response, _) =>
      match retryAfterHeader response with
      | Some retryAfter =>
          [mkRateLimit retryAfter (planTierHeader response)
             (rateLimitTypeHeader response)]
      | None => []
      end
  | _ => []
  end.
(** For examples: a callback that retries short waits, a response that
    is [ok], one that is too large, a check that knows the token issues,
    and an instance with a default token. *)
Definition patient (info : RateLimit) : bool := (retryAfter info <? 10)%Z.

Definition answered : Attempt :=
  (Some (mkResponse true 200 None None None None), timer_fires).

Definition too_large : option Response :=
  Some (mkResponse false 500 (Some "Request too large") None None None).

Definition only_token_issues (e : FigmaError) : bool :=
  match e with
  | FigmaTokenIssue => true
  | _ => false
  end.

Definition fresh : Api :=
  mkApi (mkOptions (Some (Some "figd_default")) None)
    (mkOptions (Some (Some "figd_default")) None).
End FigmaRestApi.

(** ** [sdk/src/dataStream.ts] *)

Module DataStream.
Import Sdk.

Record StreamErrorPayload := mkPayload {
  name : string;
  message : string;
  status : option Z;
  detail : option string;
}.

(** What the stream carries: a message the handler was called with, the
    closing [done], or the closing [error]. *)
Inductive StreamMessage :=
| forwarded (c : HandlerCall)
| stream_done (tokenUsage : option Z) (sessionId : option string)
| stream_error (payload : StreamErrorPayload).

(** [data.type] *)
Definition type_of (data : Message) : option string :=
  match data with
  | msg_queueing _ => Some "queueing"
  | msg_start _ => Some "start"
  | msg_pre_codegen _ => Some "pre_codegen"
  | msg_assets_uploaded => Some "assets_uploaded"
  | msg_assets_list _ => Some "assets_list"
  | msg_figma_metadata _ _ => Some "figma_metadata"
  | msg_generating_code _ _ _ => Some "generating_code"
  | msg_progress_messages_updated _ => Some "progress_messages_updated"
  | msg_job_status_updated _ => Some "job_status_updated"
  | msg_codegen_completed => Some "codegen_completed"
  | msg_generation_completed => Some "generation_completed"
  | msg_error _ _ => Some "error"
  | msg_done _ _ => Some "done"
  | msg_other t => t
  end.

Definition has_type (t : string) (data : Message) : bool :=
  match type_of data with
  | Some t' => String.eqb t' t
  | None => false
  end.

(** The message a handler function is called with. *)
Definition message_of (c : HandlerCall) : option Message :=
  match c with
  | handler data | handler_with_jobType data _ => Some data
  | _ => None
  end.

(** The controller of the [ReadableStream]: what was enqueued, whether
    it is closed, and whether [enqueue] or [close] was called on it when
    it was closed already, which throws. Nobody cancels the stream. *)
Record Controller := mkController {
  queue : list StreamMessage;
  closed : bool;
  threw : bool;
}.

Definition enqueue (m : StreamMessage) (ctl : Controller) : Controller :=
  if closed ctl then mkController (queue ctl) true true
  else mkController (queue ctl ++ [m]) false (threw ctl).

Definition close (ctl : Controller) : Controller :=
  if closed ctl then mkController (queue ctl) true true
  else mkController (queue ctl) true (threw ctl).

(** The handler given to the generate method. It is a function, so the
    calls of a handler object do not reach it. *)
Definition on_message (ctl : Controller) (c : HandlerCall) : Controller :=
  match message_of c with
  | None => ctl
  | Some data =>
      let ctl :=
        if has_type "error" data then ctl else enqueue (forwarded c) ctl in
      if has_type "aborted" data || has_type "error" data then close ctl
      else ctl
  end.

(** A call that [on_message] enqueues without closing the stream. *)
Definition passes (c : HandlerCall) : bool :=
  match message_of c with
  | Some data => negb (has_type "error" data) && negb (has_type "aborted" data)
  | None => false
  end.

(** The payload built in [.catch]. [describe] gives the name and the
    message of the errors the engine makes. *)
Definition payload_of (describe : Thrown -> string * string) (e : Thrown)
    : StreamErrorPayload :=
  match e with
  | thrown_CodegenError e =>
      mkPayload (CodegenError.name e) (CodegenError.message e)
        (CodegenError.status e) (CodegenError.detail e)
  | thrown_Error m => mkPayload "Error" m None None
  | other => mkPayload (fst (describe other)) (snd (describe other)) None None
  end.

(** The message of [.then] or [.catch]. *)
Definition closing (describe : Thrown -> string * string) (o : Outcome)
    : StreamMessage :=
  match o with
  | Resolves r => stream_done (tokenUsage r) (sessionId r)
  | Rejects e => stream_error (payload_of describe e)
  end.

(** [createGenerationStream] over a run of the generate method. *)
Definition createGenerationStream (describe : Thrown -> string * string)
    (run : Run) : Controller :=
  let ctl := fold_left on_message (handled run) (mkController [] false false) in
  close (enqueue (closing describe (outcome run)) ctl).

(** [chunk.type] *)
Definition event_of (m : StreamMessage) : option string :=
  match m with
  | forwarded c =>
      match message_of c with
      | Some data => type_of data
      | None => None
      end
  | stream_done _ _ => Some "done"
  | stream_error _ => Some "error"
  end.

(** The [Response]: a JSON body with a status, or the event stream with
    status 200, one frame (event name and chunk) for each message. The
    constructor of [Response] throws a [RangeError] for a status outside
    200..599, and a [TypeError] when it is given a body together with a
    status that allows none: 204, 205 or 304. *)
Inductive Reply :=
| json_reply (status : Z) (body : option StreamMessage)
| throws_RangeError
| throws_TypeError
| event_stream (frames : list (option string * StreamMessage)).

Definition null_body_status (s : Z) : bool :=
  (s =? 204)%Z || (s =? 205)%Z || (s =? 304)%Z.

Definition createResponseEventStream (stream : list StreamMessage) : Reply :=
  let events := event_stream (map (fun m => (event_of m, m)) stream) in
  match stream with
  | [] => json_reply 500 None
  | first :: _ =>
      match first with
      | stream_error payload =>
          match status payload with
          | Some s =>
              if (s =? 0)%Z then events
              else if negb ((200 <=? s)%Z && (s <=? 599)%Z)
              then throws_RangeError
              else if null_body_status s then throws_TypeError
              else json_reply s (Some first)
          | None => events
          end
      | _ => events
      end
  end.
End DataStream.

(** ** The listeners of [subscribeToJobStream] *)

Local Open Scope list_scope.

Section JobFacts.
Import Job Props.

(** Closes a goal that offers the three effects an event can have on the
    reported statuses. *)
Ltac status_case :=
  first
    [ left; split; reflexivity
    | right; left; split; [reflexivity | cbn; rewrite map_app; reflexivity]
    | right; right; split; [reflexivity | cbn; rewrite map_app; reflexivity] ].

Variable lastFetchResponse : option FetchPromise.

(** What one event does to the status and to the statuses reported: nothing,
    one more report of the current status, or a terminal status that is
    reported at once. *)
Lemma dispatch_status (s : Subscription) (ev : StreamEvent) :
  let s' := dispatch lastFetchResponse s ev in
  (status (state s') = status (state s) /\ statuses s' = statuses s)
  \/ (status (state s') = status (state s)
      /\ statuses s' = statuses s ++ [status (state s)])
  \/ (Status.terminal (status (state s')) = true
      /\ statuses s' = statuses s ++ [status (state s')]).
Proof.
  unfold statuses.
  destruct s as [[? ? [?|] ? ? ? ?] ? ? ? ? ?]; destruct ev;
    try match goal with st : GeneratingStatus |- _ => destruct st end;
    cbn [dispatch]; unfold on_pre_codegen, on_error;
    repeat case_match; status_case.
Qed.

Lemma repeat_snoc {A} (x : A) (n : nat) : repeat x n ++ [x] = repeat x (S n).
Proof. induction n; cbn; [reflexivity | now rewrite IHn]. Qed.

Lemma forallb_snoc {A} (f : A -> bool) (l : list A) (x : A) :
  forallb f (l ++ [x]) = forallb f l && f x.
Proof. rewrite forallb_app; cbn. now rewrite andb_true_r. Qed.

Lemma subscribe_snoc (evs : list StreamEvent) (ev : StreamEvent) :
  subscribeToJobStream lastFetchResponse (evs ++ [ev])
  = dispatch lastFetchResponse (subscribeToJobStream lastFetchResponse evs) ev.
Proof. unfold subscribeToJobStream. now rewrite fold_left_app. Qed.

Lemma dispatch_pending_then_terminal (s : Subscription) (ev : StreamEvent) :
  pending_then_terminal s ->
  pending_then_terminal (dispatch lastFetchResponse s ev).
Proof.
  intros (n & ts & Hl & Hts & Hcur).
  destruct (dispatch_status s ev) as [[Hs Hl'] | [[Hs Hl'] | [Hs Hl']]];
    unfold pending_then_terminal; rewrite Hl'.
  - exists n, ts. rewrite Hs. auto.
  - rewrite Hs. destruct (Status.terminal (status (state s))) eqn:Ht.
    + exists n, (ts ++ [status (state s)]). rewrite Hl, <- app_assoc.
      split; [reflexivity|]. rewrite forallb_snoc, Hts, Ht.
      split; [reflexivity|]. now destruct ts.
    + destruct Hcur as [-> Hp]. exists (S n), []. rewrite Hl, Hp.
      rewrite !app_nil_r, repeat_snoc. auto.
  - rewrite Hs. exists n, (ts ++ [status (state (dispatch lastFetchResponse s ev))]).
    rewrite Hl, <- app_assoc. split; [reflexivity|].
    rewrite forallb_snoc, Hts, Hs. split; [reflexivity|]. now destruct ts.
Qed.

Lemma subscribed_pending_then_terminal (evs : list StreamEvent) :
  pending_then_terminal (subscribeToJobStream lastFetchResponse evs).
Proof.
  induction evs as [|ev evs IH] using rev_ind.
  - exists 0%nat, []. cbn. auto.
  - rewrite subscribe_snoc. now apply dispatch_pending_then_terminal.
Qed.

Lemma follows_chain_pending (n : nat) (l : list Status.t) :
  follows_chain (Status.pending :: l) = true ->
  follows_chain (repeat Status.pending (S n) ++ l) = true.
Proof.
  intros H. induction n as [|n IH]; [exact H|].
  change (repeat Status.pending (S (S n)) ++ l)
    with (Status.pending :: (repeat Status.pending (S n) ++ l)).
  cbn [follows_chain]. cbn [repeat app] in *. now rewrite IH.
Qed.

(** The promise settles once: a later [resolve] or [reject] changes
    nothing. *)
Lemma settled_once (s : Subscription) (ev : StreamEvent) (v : Settlement) :
  settled s = Some v -> settled (dispatch lastFetchResponse s ev) = Some v.
Proof.
  destruct s as [[? ? [?|] ? ? ? ?] ? ? ? ? ?]; cbn [settled]; intros ->;
    destruct ev;
    try match goal with st : GeneratingStatus |- _ => destruct st end;
    cbn [dispatch]; unfold on_pre_codegen, on_error;
    repeat case_match; reflexivity.
Qed.
End JobFacts.

(** ** Events that arrive together *)

Section Chunks.
Import Job Props.

Variable lastFetchResponse : option FetchPromise.

Lemma emitted_grows (s : Subscription) (ev : StreamEvent) :
  exists more,
    emitted (dispatch lastFetchResponse s ev) = emitted s ++ more.
Proof.
  destruct s as [[? ? [?|] ? ? ? ?] ? ? ? ? ?]; destruct ev;
    try match goal with st : GeneratingStatus |- _ => destruct st end;
    cbn [dispatch]; unfold on_pre_codegen, on_error;
    repeat case_match; cbn;
    first [ now (exists []; rewrite app_nil_r) | eexists; reflexivity ].
Qed.

Lemma emitted_grow (evs : list StreamEvent) (s : Subscription) :
  exists more,
    emitted (fold_left (dispatch lastFetchResponse) evs s) = emitted s ++ more.
Proof.
  revert s; induction evs as [|ev evs IH]; intros s.
  - exists []; cbn; now rewrite app_nil_r.
  - cbn [fold_left]. destruct (IH (dispatch lastFetchResponse s ev)) as [m ->].
    destruct (emitted_grows s ev) as [m' ->].
    exists (m' ++ m). now rewrite app_assoc.
Qed.

Lemma errors_of_app (a b : list StreamEvent) :
  errors_of (a ++ b) = errors_of a ++ errors_of b.
Proof. apply omap_app. Qed.

Lemma errors_of_errors (es : list ErrorEventArg) :
  errors_of (map Ev_error es) = es.
Proof.
  induction es as [|e es IH]; [reflexivity|].
  cbn. f_equal. exact IH.
Qed.

Lemma errors_of_at_once (evs : list StreamEvent) :
  errors_of (List.filter runs_at_once evs) = [].
Proof.
  induction evs as [|ev evs IH]; [reflexivity|].
  destruct ev; cbn; auto.
Qed.

Lemma errors_of_deferred (chunk : list StreamEvent) :
  errors_of (deferred chunk) = errors_of chunk.
Proof.
  unfold deferred.
  now rewrite errors_of_app, errors_of_at_once, errors_of_errors.
Qed.

Lemma at_once_deferred (chunk : list StreamEvent) :
  List.filter runs_at_once (deferred chunk) = List.filter runs_at_once chunk.
Proof.
  unfold deferred. rewrite List.filter_app.
  assert (List.filter runs_at_once (map Ev_error (errors_of chunk)) = []) as ->.
  { induction (errors_of chunk) as [|e es IH]; [reflexivity|exact IH]. }
  rewrite app_nil_r.
  induction chunk as [|ev chunk IH]; [reflexivity|].
  cbn [List.filter]. destruct (runs_at_once ev) eqn:E; cbn [List.filter];
    rewrite ?E, IH; reflexivity.
Qed.

(** The listeners of a chunk up to the last event: those that run at
    once have run, the [error] listeners wait. *)
Lemma listen_fold (chunk : list StreamEvent) (t : Task) :
  fold_left (listen lastFetchResponse) chunk t
  = mkTask
      (fold_left (dispatch lastFetchResponse)
         (List.filter runs_at_once chunk) (dispatched t))
      (awaiting t ++ errors_of chunk).
Proof.
  revert t; induction chunk as [|ev chunk IH]; intros t.
  - cbn. rewrite app_nil_r. now destruct t.
  - cbn [fold_left]. rewrite IH.
    destruct ev; cbn; rewrite <- ?app_assoc; reflexivity.
Qed.

Lemma resume_errors (es : list ErrorEventArg) (s : Subscription) :
  fold_left (fun s e => on_error lastFetchResponse e s) es s
  = fold_left (dispatch lastFetchResponse) (map Ev_error es) s.
Proof.
  revert s; induction es as [|e es IH]; intros s; [reflexivity|].
  cbn. apply IH.
Qed.

(** A chunk does what its events do one by one in the order of
    [deferred]. *)
Lemma deliver_deferred (l : Listening) (chunk : list StreamEvent) :
  subscription (deliver lastFetchResponse l chunk)
  = fold_left (dispatch lastFetchResponse) (deferred chunk) (subscription l).
Proof.
  unfold deliver, resume, deferred. cbn [subscription].
  rewrite listen_fold. cbn [dispatched awaiting app].
  now rewrite resume_errors, fold_left_app.
Qed.

Lemma deliver_chunks (chunks : list (list StreamEvent)) (l : Listening) :
  subscription (fold_left (deliver lastFetchResponse) chunks l)
  = fold_left (dispatch lastFetchResponse) (concat (map deferred chunks))
      (subscription l).
Proof.
  revert l; induction chunks as [|chunk chunks IH]; intros l; [reflexivity|].
  cbn [fold_left map concat]. rewrite IH, deliver_deferred.
  now rewrite fold_left_app.
Qed.

Lemma chunks_deferred (chunks : list (list StreamEvent)) :
  subscription (subscribeToJobChunks lastFetchResponse chunks)
  = subscribeToJobStream lastFetchResponse (concat (map deferred chunks)).
Proof. apply deliver_chunks. Qed.

Lemma errors_of_chunks (chunks : list (list StreamEvent)) :
  errors_of (concat (map deferred chunks)) = errors_of (concat chunks).
Proof.
  induction chunks as [|chunk chunks IH]; [reflexivity|].
  cbn [map concat]. now rewrite !errors_of_app, errors_of_deferred, IH.
Qed.

Lemma at_once_chunks (chunks : list (list StreamEvent)) :
  List.filter runs_at_once (concat (map deferred chunks))
  = List.filter runs_at_once (concat chunks).
Proof.
  induction chunks as [|chunk chunks IH]; [reflexivity|].
  cbn [map concat]. now rewrite !List.filter_app, at_once_deferred, IH.
Qed.

Lemma settled_kept (evs : list StreamEvent) (s : Subscription)
    (v : Settlement) :
  settled s = Some v ->
  settled (fold_left (dispatch lastFetchResponse) evs s) = Some v.
Proof.
  revert s. induction evs as [|ev evs IH]; intros s H; [exact H|].
  cbn. apply IH. now apply settled_once.
Qed.

Lemma deliver_in_step (l : Listening) (chunk : list StreamEvent) :
  in_step l -> in_step (deliver lastFetchResponse l chunk).
Proof.
  unfold in_step. intros H.
  pose proof (deliver_deferred l chunk) as Hs.
  unfold deliver in *. cbn [received subscription] in *.
  set (s := resume _ _) in *.
  destruct (received l) as [w|].
  - destruct H as (v & s0 & Hv & ->). exists v, s0. split; [|reflexivity].
    rewrite Hs. now apply settled_kept.
  - destruct (settled s) as [v|] eqn:E; [|reflexivity].
    exists v, s. auto.
Qed.

Lemma chunks_in_step (chunks : list (list StreamEvent)) :
  in_step (subscribeToJobChunks lastFetchResponse chunks).
Proof.
  unfold subscribeToJobChunks.
  assert (in_step listening) as H by reflexivity.
  revert H. generalize listening.
  induction chunks as [|chunk chunks IH]; intros l H; [exact H|].
  cbn [fold_left]. apply IH. now apply deliver_in_step.
Qed.

Lemma received_nothing (chunks : list (list StreamEvent)) :
  received (subscribeToJobChunks lastFetchResponse chunks) = None
  <-> settled (subscription (subscribeToJobChunks lastFetchResponse chunks))
      = None.
Proof.
  pose proof (chunks_in_step chunks) as H. unfold in_step in H.
  destruct (received _) as [w|].
  - destruct H as (v & s & -> & _). split; discriminate.
  - split; auto.
Qed.

Lemma received_error (chunks : list (list StreamEvent))
    (err : CodegenError.t) :
  settled (subscription (subscribeToJobChunks lastFetchResponse chunks))
  = Some (Resolved None (Some err)) ->
  received (subscribeToJobChunks lastFetchResponse chunks)
  = Some (Resolved None (Some err)).
Proof.
  pose proof (chunks_in_step chunks) as H. unfold in_step in H.
  intros Hs. rewrite Hs in H.
  destruct (received _) as [w|]; [|discriminate].
  destruct H as (v & s & [= <-] & ->). reflexivity.
Qed.

(** What received once stays. *)
Lemma received_kept (chunks : list (list StreamEvent)) (l : Listening)
    (v : Settlement) :
  received l = Some v ->
  received (fold_left (deliver lastFetchResponse) chunks l) = Some v.
Proof.
  revert l; induction chunks as [|chunk chunks IH]; intros l H; [exact H|].
  cbn [fold_left]. apply IH. unfold deliver. cbn [received]. now rewrite H.
Qed.

(** An event that settles the promise by itself settles it with what the
    result object holds then. *)
Lemma settles_with_partial (s : Subscription) (ev : StreamEvent)
    (v : Settlement) :
  settled s = None ->
  settled (dispatch lastFetchResponse s ev) = Some v ->
  handed_out (dispatch lastFetchResponse s ev) v = v.
Proof.
  destruct s as [[? ? [?|] ? ? ? ?] ? ? ? ? ?]; cbn [settled]; intros ->;
    destruct ev;
    try match goal with st : GeneratingStatus |- _ => destruct st end;
    cbn [dispatch]; unfold on_pre_codegen, on_error;
    repeat case_match; cbn; intros [= <-]; reflexivity.
Qed.

(** Events that arrive one in a chunk: the model of [dispatch]. *)
Lemma frames_apart (evs : list StreamEvent) :
  subscribeToJobChunks lastFetchResponse (map (fun ev => [ev]) evs)
  = mkListening (subscribeToJobStream lastFetchResponse evs)
      (settled (subscribeToJobStream lastFetchResponse evs)).
Proof.
  induction evs as [|ev evs IH] using rev_ind; [reflexivity|].
  unfold subscribeToJobChunks in *.
  rewrite map_app, fold_left_app, IH. cbn [map fold_left].
  rewrite subscribe_snoc.
  set (s := subscribeToJobStream lastFetchResponse evs).
  assert (resume lastFetchResponse
            (fold_left (listen lastFetchResponse) [ev] (mkTask s []))
          = dispatch lastFetchResponse s ev) as Hone.
  { destruct ev; reflexivity. }
  unfold deliver. cbn [subscription received]. rewrite Hone.
  f_equal.
  destruct (settled s) as [v|] eqn:Hs.
  - symmetry. now apply settled_once.
  - destruct (settled (dispatch lastFetchResponse s ev)) as [v|] eqn:Hv;
      [|reflexivity].
    now rewrite (settles_with_partial s ev v Hs Hv).
Qed.

Lemma createJob_frames_apart (arrayBufferToBase64 : string -> string)
    (fetch : string -> Download) (assetsStorage : option AssetsStorage)
    (evs : list StreamEvent) :
  createJob_by_chunk arrayBufferToBase64 fetch assetsStorage
    lastFetchResponse (map (fun ev => [ev]) evs)
  = createJob arrayBufferToBase64 fetch assetsStorage lastFetchResponse evs.
Proof.
  unfold createJob_by_chunk, createJob. now rewrite frames_apart.
Qed.

Lemma attachJob_frames_apart (assetsStorage : option AssetsStorage)
    (evs : list StreamEvent) :
  attachJob_by_chunk assetsStorage lastFetchResponse
    (map (fun ev => [ev]) evs)
  = attachJob assetsStorage lastFetchResponse evs.
Proof.
  unfold attachJob_by_chunk, attachJob. now rewrite frames_apart.
Qed.
End Chunks.

Section StatusOrder.
Import Job Props.

(** C4, as stated, fails: after [done] reported [success], a crash report
    on the same stream makes the listener report [error]; the reported
    statuses [pending, success, error] leave a terminal state. *)
Lemma error_snapshot_after_success :
  statuses (subscribeToJobStream open_stream
              [Ev_done 10 "session"; Ev_error task_crashed])
  = [Status.pending; Status.success; Status.error]
  /\ follows_chain
       (statuses (subscribeToJobStream open_stream
                    [Ev_done 10 "session"; Ev_error task_crashed]))
     = false.
Proof. split; reflexivity. Qed.

(** C4 (amended): for every sequence of incoming events the statuses given
    to the snapshot callback are one or more [pending] followed by terminal
    statuses only ([success], [aborted], [error]): [idle] is never reported
    and [pending] never follows a terminal status, and up to the first
    terminal snapshot they follow [pending -> terminal]. A terminal status
    may be followed by another terminal status. *)
Theorem snapshot_statuses_pending_then_terminal
    (lastFetchResponse : option FetchPromise) (evs : list StreamEvent) :
  exists n ts,
    statuses (subscribeToJobStream lastFetchResponse evs)
    = repeat Status.pending (S n) ++ ts
    /\ forallb Status.terminal ts = true
    /\ follows_chain (repeat Status.pending (S n) ++ firstn 1 ts) = true.
Proof.
  destruct (subscribed_pending_then_terminal lastFetchResponse evs)
    as (n & ts & Hl & Hts & _).
  exists n, ts. repeat split; [exact Hl | exact Hts |].
  apply follows_chain_pending. destruct ts as [|t ts]; [reflexivity|].
  cbn in Hts. apply andb_true_iff in Hts as [Ht _].
  now destruct t.
Qed.
End StatusOrder.

Section RetryCeiling.
Import Job Props.

Variable response : Response.
Hypothesis response_ok : ok response = true.

Let streaming : option FetchPromise := Some (fetch_fulfilled response).

Lemma transient_codegenError (e : ErrorEventArg) :
  transient e = true ->
  exists err,
    codegenError_of (errorPayload_of e) = Some err
    /\ CodegenError.name err
       = nullish (reported_name (errorPayload_of e)) "Unknown error".
Proof.
  destruct e as [|[| | |p]]; cbn; intros H; try discriminate; eauto.
Qed.

Lemma transient_recoverable (e : ErrorEventArg) :
  transient e = true -> isUnrecoverableError (errorPayload_of e) = false.
Proof.
  destruct e as [|[| | |p]]; cbn; intros H; try discriminate;
    try reflexivity.
  now apply negb_true_iff in H.
Qed.

(** Below the ceiling a transient error is counted and nothing else
    happens. *)
Lemma transient_tolerated (e : ErrorEventArg) (s : Subscription) :
  transient e = true ->
  (S (errorCount s) <= MAX_RETRIES_AFTER_ERROR)%nat ->
  dispatch streaming s (Ev_error e) = counted 1 s.
Proof.
  intros He Hn. cbn [dispatch]. unfold on_error, streaming.
  rewrite response_ok. cbn [negb].
  destruct (transient_codegenError e He) as (err & Herr & _).
  fold (errorPayload_of e). rewrite Herr, (transient_recoverable e He).
  cbn [incr_errorCount errorCount].
  destruct (Nat.ltb_spec MAX_RETRIES_AFTER_ERROR (S (errorCount s))); [lia|].
  reflexivity.
Qed.

(** Above the ceiling it ends the job with the error built from the
    event. *)
Lemma transient_over_ceiling (e : ErrorEventArg) (s : Subscription)
    (err : CodegenError.t) :
  codegenError_of (errorPayload_of e) = Some err ->
  (MAX_RETRIES_AFTER_ERROR < S (errorCount s))%nat ->
  dispatch streaming s (Ev_error e) = terminated err s.
Proof.
  intros Herr Hn. cbn [dispatch]. unfold on_error, streaming.
  rewrite response_ok. cbn [negb].
  fold (errorPayload_of e). rewrite Herr.
  cbn [incr_errorCount errorCount].
  destruct (Nat.ltb_spec MAX_RETRIES_AFTER_ERROR (S (errorCount s))); [|lia].
  reflexivity.
Qed.

Lemma tolerated_run (es : list ErrorEventArg) (s : Subscription) :
  forallb transient es = true ->
  (length es + errorCount s <= MAX_RETRIES_AFTER_ERROR)%nat ->
  fold_left (dispatch streaming) (map Ev_error es) s = counted (length es) s.
Proof.
  revert s. induction es as [|e es IH]; intros s Hes Hn.
  - now destruct s.
  - cbn in Hes. apply andb_true_iff in Hes as [He Hes].
    cbn [map fold_left length] in *.
    rewrite transient_tolerated by (auto; lia).
    rewrite IH by (auto; cbn; lia).
    unfold counted; cbn. f_equal. lia.
Qed.

Lemma settled_for_good (evs : list StreamEvent) (s : Subscription)
    (v : Settlement) :
  settled s = Some v ->
  settled (fold_left (dispatch streaming) evs s) = Some v.
Proof.
  revert s. induction evs as [|ev evs IH]; intros s H; [exact H|].
  cbn. apply IH. now apply settled_once.
Qed.

Lemma transient_counted (es : list ErrorEventArg) (s : Subscription) :
  forallb transient es = true ->
  errorCount (fold_left (dispatch streaming) (map Ev_error es) s)
  = (length es + errorCount s)%nat.
Proof.
  revert s. induction es as [|e es IH]; intros s Hes; [reflexivity|].
  cbn in Hes. apply andb_true_iff in Hes as [He Hes].
  cbn [map fold_left length]. rewrite IH by exact Hes.
  destruct (transient_codegenError e He) as (err & Herr & _).
  destruct (Nat.le_gt_cases (S (errorCount s)) MAX_RETRIES_AFTER_ERROR).
  - rewrite transient_tolerated by auto. cbn. lia.
  - rewrite (transient_over_ceiling e s err) by auto. cbn. lia.
Qed.
End RetryCeiling.

Section Ceiling.
Import Job Props.

(** An event that is neither [error], [done] nor [aborted] leaves the
    counter, the promise and the status alone. *)
Lemma quiet_event (lastFetchResponse : option FetchPromise)
    (s : Subscription) (ev : StreamEvent) :
  runs_at_once ev = true ->
  ends_job ev = false ->
  let s' := dispatch lastFetchResponse s ev in
  errorCount s' = errorCount s
  /\ settled s' = settled s
  /\ status (state s') = status (state s).
Proof.
  destruct s as [[? ? [?|] ? ? ? ?] ? ? ? ? ?]; destruct ev;
    try match goal with st : GeneratingStatus |- _ => destruct st end;
    cbn [dispatch runs_at_once ends_job]; unfold on_pre_codegen;
    repeat case_match; cbn; intros; try discriminate; auto.
Qed.

Lemma nth_error_snoc {A} (l : list A) (x : A) (n : nat) :
  nth_error (l ++ [x]) n
  = if (n <? length l)%nat then nth_error l n
    else if (n =? length l)%nat then Some x else None.
Proof.
  destruct (Nat.ltb_spec n (length l)).
  - now apply nth_error_app1.
  - rewrite nth_error_app2 by lia.
    destruct (Nat.eqb_spec n (length l)) as [->|Hne].
    + now rewrite Nat.sub_diag.
    + destruct (n - length l)%nat as [|k] eqn:E; [lia|].
      cbn. now destruct k.
Qed.

(** The retry counter on an open stream whose [error] events are all
    transient and which holds no [done] and no [aborted]: it counts the
    [error] events, and the eleventh of them ends the job. *)
Lemma counted_errors (response : Response) (evs : list StreamEvent) :
  ok response = true ->
  forallb transient (errors_of evs) = true ->
  forallb (fun ev => negb (ends_job ev)) evs = true ->
  let s := subscribeToJobStream (Some (fetch_fulfilled response)) evs in
  errorCount s = length (errors_of evs)
  /\ match nth_error (errors_of evs) MAX_RETRIES_AFTER_ERROR with
     | None => settled s = None
     | Some e =>
         exists err c,
           codegenError_of (errorPayload_of e) = Some err
           /\ settled s = Some (Resolved None (Some err))
           /\ status (state s) = Status.error
           /\ In c (emitted s)
           /\ status c = Status.error
           /\ error c = Some err
     end.
Proof.
  intros Hok. induction evs as [|ev evs IH] using rev_ind; intros Hes Hquiet.
  - cbn. auto.
  - cbn zeta in *. rewrite errors_of_app, forallb_app in Hes.
    rewrite forallb_app in Hquiet.
    apply andb_prop in Hes as [Hes Hev].
    apply andb_prop in Hquiet as [Hquiet Hq].
    cbn [forallb] in Hq. rewrite andb_true_r in Hq.
    apply negb_true_iff in Hq.
    destruct (IH Hes Hquiet) as [Hcount Hnth]. clear IH.
    rewrite subscribe_snoc, errors_of_app.
    set (s := subscribeToJobStream (Some (fetch_fulfilled response)) evs) in *.
    destruct (runs_at_once ev) eqn:Honce.
    + assert (errors_of [ev] = []) as -> by (destruct ev; try discriminate;
                                               reflexivity).
      rewrite app_nil_r.
      destruct (quiet_event (Some (fetch_fulfilled response)) s ev Honce Hq)
        as (Hc & Hs & Hst).
      rewrite Hc, Hs, Hst. split; [exact Hcount|].
      destruct (nth_error (errors_of evs) MAX_RETRIES_AFTER_ERROR);
        [|exact Hnth].
      destruct Hnth as (err & c & Herr & Hset & Hstatus & Hin & Hc1 & Hc2).
      exists err, c. repeat split; auto.
      destruct (emitted_grows (Some (fetch_fulfilled response)) s ev)
        as [more ->].
      apply in_or_app. now left.
    + destruct ev as [| | | | | | | | | | | |e| |]; try discriminate.
      cbn [errors_of omap list_omap] in Hev |- *.
      change (errors_of [Ev_error e]) with [e] in *.
      cbn [forallb] in Hev. rewrite andb_true_r in Hev.
      rewrite length_app. cbn [length].
      destruct (transient_codegenError e Hev) as (err & Herr & _).
      rewrite nth_error_snoc.
      destruct (Nat.ltb_spec MAX_RETRIES_AFTER_ERROR (length (errors_of evs)))
        as [Hover|Hunder].
      * rewrite (transient_over_ceiling response Hok e s err Herr)
          by (rewrite Hcount; lia).
        unfold terminated; cbn [errorCount]. split; [lia|].
        destruct (nth_error (errors_of evs) MAX_RETRIES_AFTER_ERROR) as [e0|]
          eqn:E0.
        -- destruct Hnth as (err0 & c & Herr0 & Hset & Hstatus & Hin & Hc1 & Hc2).
           exists err0, c. cbn [settled state status set_error set_status
                                emitted].
           rewrite Hset. repeat split; auto.
           apply in_or_app. now left.
        -- apply nth_error_None in E0. lia.
      * destruct (Nat.eqb_spec MAX_RETRIES_AFTER_ERROR
                    (length (errors_of evs))) as [Heq|Hne].
        -- rewrite (transient_over_ceiling response Hok e s err Herr)
             by (rewrite Hcount; lia).
           unfold terminated; cbn [errorCount]. split; [lia|].
           assert (nth_error (errors_of evs) MAX_RETRIES_AFTER_ERROR = None)
             as E0 by (apply nth_error_None; lia).
           rewrite E0 in Hnth.
           exists err, (set_error (Some err)
                          (set_status Status.error (state s))).
           cbn [settled state status set_error set_status emitted error].
           rewrite Hnth. repeat split; auto.
           apply in_or_app. right. now left.
        -- rewrite (transient_tolerated response Hok e s Hev)
             by (rewrite Hcount; lia).
           unfold counted; cbn [errorCount settled]. split; [lia|].
           assert (nth_error (errors_of evs) MAX_RETRIES_AFTER_ERROR = None)
             as E0 by (apply nth_error_None; lia).
           now rewrite E0 in Hnth.
Qed.
End Ceiling.

Section ErrorFrames.
Import Job Props.

(** C1, as stated, fails: eleven transient [error] frames that carry a
    name end the job with that name, not with the fallback. *)
Lemma ceiling_error_keeps_reported_name :
  forallb transient (repeat socket_hang_up 11) = true
  /\ settled (subscribeToJobStream open_stream
                (map Ev_error (repeat socket_hang_up 11)))
     = Some (Resolved None
               (Some (CodegenError.new "FetchError" "socket hang up" None None)))
  /\ ~ (exists err,
         settled (subscribeToJobStream open_stream
                    (map Ev_error (repeat socket_hang_up 11)))
         = Some (Resolved None (Some err))
         /\ CodegenError.name err = "Unknown error").
Proof.
  split; [reflexivity|]. split; [reflexivity|].
  intros (err & H & Hname). vm_compute in H.
  injection H as <-. discriminate Hname.
Qed.

End ErrorFrames.

Section SubTasks.
Import Job Props.

Lemma task_move_stays (r : bool) (a : TaskStatus.t) : task_move r a a.
Proof. left. unfold TaskStatus.le. lia. Qed.

Lemma task_move_finished (r : bool) (a : TaskStatus.t) :
  task_move r a TaskStatus.finished.
Proof. left. unfold TaskStatus.le. destruct a; cbn; lia. Qed.

Lemma task_move_running (a : TaskStatus.t) :
  task_move true a TaskStatus.running.
Proof.
  destruct a; [left | left | right]; unfold TaskStatus.le; cbn;
    try lia; auto.
Qed.

Lemma task_move_forward_or_restart (r : bool) (a b : TaskStatus.t) :
  task_move r a b -> forward_or_restart a b = true.
Proof.
  unfold forward_or_restart. intros [H | (-> & -> & _)]; [|reflexivity].
  apply orb_true_iff. left. now apply Nat.leb_le.
Qed.

Lemma dispatch_task_moves (lastFetchResponse : option FetchPromise)
    (s : Subscription) (ev : StreamEvent) :
  let t := tasks (state s) in
  let t' := tasks (state (dispatch lastFetchResponse s ev)) in
  task_move (restarts_fetchDesign ev) (fetchDesign t) (fetchDesign t')
  /\ task_move (restarts_codeGeneration ev)
       (codeGeneration t) (codeGeneration t')
  /\ task_move (restarts_uploadAssets ev) (uploadAssets t) (uploadAssets t').
Proof.
  destruct s as [[? ? [?|] ? ? ? ?] ? ? ? ? ?]; destruct ev;
    try match goal with st : GeneratingStatus |- _ => destruct st end;
    cbn [dispatch restarts_fetchDesign restarts_codeGeneration
         restarts_uploadAssets];
    unfold on_pre_codegen, on_error;
    repeat case_match; cbn;
    auto using task_move_stays, task_move_finished, task_move_running.
Qed.

(** An event either reports nothing and leaves the sub-tasks alone, or
    reports the state it leaves. *)
Lemma dispatch_reports_tasks (lastFetchResponse : option FetchPromise)
    (s : Subscription) (ev : StreamEvent) :
  let s' := dispatch lastFetchResponse s ev in
  (emitted s' = emitted s /\ tasks (state s') = tasks (state s))
  \/ emitted s' = emitted s ++ [state s'].
Proof.
  destruct s as [[? ? [?|] ? ? ? ?] ? ? ? ? ?]; destruct ev;
    try match goal with st : GeneratingStatus |- _ => destruct st end;
    cbn [dispatch]; unfold on_pre_codegen, on_error;
    repeat case_match;
    first [left; split; reflexivity | right; reflexivity].
Qed.

Lemma adjacent_snoc {A} (R : A -> A -> bool) (l : list A) (x y : A) :
  adjacent R ((l ++ [x]) ++ [y]) = adjacent R (l ++ [x]) && R x y.
Proof.
  induction l as [|a [|b l] IH].
  - cbn. now rewrite andb_true_r.
  - cbn. now rewrite !andb_true_r.
  - change (adjacent R (((a :: b :: l) ++ [x]) ++ [y]))
      with (R a b && adjacent R (((b :: l) ++ [x]) ++ [y])).
    rewrite IH. cbn. now rewrite andb_assoc.
Qed.

Lemma reported_tasks_forward_or_restart
    (lastFetchResponse : option FetchPromise) (evs : list StreamEvent) :
  let s := subscribeToJobStream lastFetchResponse evs in
  exists l c,
    emitted s = l ++ [c]
    /\ tasks c = tasks (state s)
    /\ adjacent tasks_forward_or_restart (map tasks (emitted s)) = true.
Proof.
  induction evs as [|ev evs IH] using rev_ind.
  - exists [], (state subscribed). repeat split; reflexivity.
  - cbn zeta in *. rewrite subscribe_snoc.
    destruct IH as (l & c & Hl & Hc & Hadj).
    set (s := subscribeToJobStream lastFetchResponse evs) in *.
    destruct (dispatch_reports_tasks lastFetchResponse s ev)
      as [[He Ht] | He]; rewrite He.
    + exists l, c. rewrite Ht. auto.
    + exists (l ++ [c]), (state (dispatch lastFetchResponse s ev)).
      rewrite Hl. split; [reflexivity|]. split; [reflexivity|].
      rewrite Hl in Hadj. rewrite !map_app in *. cbn [map] in *.
      rewrite adjacent_snoc, Hadj. cbn [andb].
      destruct (dispatch_task_moves lastFetchResponse s ev) as (H1 & H2 & H3).
      unfold tasks_forward_or_restart. rewrite Hc.
      rewrite (task_move_forward_or_restart _ _ _ H1),
              (task_move_forward_or_restart _ _ _ H2),
              (task_move_forward_or_restart _ _ _ H3).
      reflexivity.
Qed.

(** C5, as stated, fails: a [generating_code] event after
    [codegen_completed] puts [codeGeneration] back to [running] in the next
    snapshot. *)
Lemma generating_code_restarts_finished_task :
  map (fun c => codeGeneration (tasks c))
    (emitted (subscribeToJobStream open_stream
                [Ev_codegen_completed; Ev_generating_code gen_running 50 None]))
  = [TaskStatus.pending; TaskStatus.finished; TaskStatus.running]
  /\ never_regresses
       (map (fun c => codeGeneration (tasks c))
          (emitted (subscribeToJobStream open_stream
                      [Ev_codegen_completed;
                       Ev_generating_code gen_running 50 None])))
     = false.
Proof. split; reflexivity. Qed.

Lemma tasks_by_chunk (lastFetchResponse : option FetchPromise)
    (chunks : list (list StreamEvent)) :
  adjacent tasks_forward_or_restart
    (map tasks
       (emitted (subscription
                   (subscribeToJobChunks lastFetchResponse chunks))))
  = true.
Proof.
  rewrite chunks_deferred.
  now destruct (reported_tasks_forward_or_restart lastFetchResponse
                  (concat (map deferred chunks))) as (_ & _ & _ & _ & H).
Qed.

(** C5 (amended): what a listener does to a sub-task does not depend on
    the sub-task's status. [start] sets [fetchDesign] to [running], the
    model-built [pre_codegen] sets [fetchDesign] to [finished] and the two
    others to [running], [generating_code] sets [codeGeneration] to
    [running], [codegen_completed] and [generation_completed] set it to
    [finished], [assets_uploaded] sets [uploadAssets] to [finished]; every
    other listener, the [error] listener included, leaves the sub-tasks
    alone. So a sub-task goes backwards exactly when it is [finished] and
    an event arrives that sets it to [running], and that event reports
    the snapshot at once. In the snapshots of every stream, however it is
    cut into chunks, no sub-task returns to [pending], and
    [finished -> running] is the only backward move. *)
Theorem subtask_forward_or_restart
    (lastFetchResponse : option FetchPromise)
    (s : Subscription) (ev : StreamEvent)
    (chunks : list (list StreamEvent)) :
  (let t := tasks (state s) in
   let s' := dispatch lastFetchResponse s ev in
   let t' := tasks (state s') in
   fetchDesign t'
   = task_step (restarts_fetchDesign ev) (finishes_fetchDesign ev)
       (fetchDesign t)
   /\ codeGeneration t'
      = task_step (restarts_codeGeneration ev) (finishes_codeGeneration ev)
          (codeGeneration t)
   /\ uploadAssets t'
      = task_step (restarts_uploadAssets ev) (finishes_uploadAssets ev)
          (uploadAssets t)
   /\ goes_back (fetchDesign t) (fetchDesign t')
      = restarts_fetchDesign ev && is_finished (fetchDesign t)
   /\ goes_back (codeGeneration t) (codeGeneration t')
      = restarts_codeGeneration ev && is_finished (codeGeneration t)
   /\ goes_back (uploadAssets t) (uploadAssets t')
      = restarts_uploadAssets ev && is_finished (uploadAssets t)
   /\ (restarts_fetchDesign ev || restarts_codeGeneration ev
       || restarts_uploadAssets ev = true ->
       emitted s' = emitted s ++ [state s']))
  /\ adjacent tasks_forward_or_restart
       (map tasks
          (emitted (subscription
                      (subscribeToJobChunks lastFetchResponse chunks))))
     = true.
Proof.
  split; [|apply tasks_by_chunk].
  destruct s as [[? ? [?|] ? [fd cg pr ua] ? ?] ? ? ? ? ?]; destruct ev;
    try match goal with st : GeneratingStatus |- _ => destruct st end;
    cbn [dispatch restarts_fetchDesign restarts_codeGeneration
         restarts_uploadAssets finishes_fetchDesign finishes_codeGeneration
         finishes_uploadAssets];
    unfold on_pre_codegen, on_error;
    repeat case_match; cbn;
    destruct fd, cg, ua; cbn; repeat split; auto; discriminate.
Qed.
End SubTasks.

Section Finalizer.
Import Job Props.

Lemma dispatch_keeps_files (lastFetchResponse : option FetchPromise)
    (s : Subscription) (ev : StreamEvent) :
  stashes_files ev = false ->
  files (partial (dispatch lastFetchResponse s ev)) = files (partial s).
Proof.
  destruct s as [[? ? [?|] ? ? ? ?] ? ? ? ? ?]; destruct ev;
    try match goal with st : GeneratingStatus |- _ => destruct st end;
    cbn [dispatch stashes_files]; try discriminate; intros _;
    unfold on_pre_codegen, on_error; repeat case_match; reflexivity.
Qed.

Lemma subscribe_without_files (lastFetchResponse : option FetchPromise)
    (evs : list StreamEvent) :
  forallb (fun ev => negb (stashes_files ev)) evs = true ->
  files (partial (subscribeToJobStream lastFetchResponse evs)) = None.
Proof.
  induction evs as [|ev evs IH] using rev_ind; intros H; [reflexivity|].
  rewrite forallb_snoc in H. apply andb_true_iff in H as [Hevs Hev].
  rewrite subscribe_snoc, dispatch_keeps_files; [auto|].
  now apply negb_true_iff.
Qed.

(** C3, as stated, fails: [done] without any stashed files resolves the
    job with a result that has no [files]; nothing is rejected. *)
Lemma done_without_files_is_not_rejected :
  outcome (createJob (fun buffer => buffer) (fun _ => download_rejected)
             None open_stream [Ev_start "session"; Ev_done 10 "session"])
  = Returns (Some (mkResult (Some "session") None None (Some 10) None None))
      None
  /\ ~ (exists err,
         settled (subscribeToJobStream open_stream
                    [Ev_start "session"; Ev_done 10 "session"])
         = Some (Rejected err)
         \/ settled (subscribeToJobStream open_stream
                       [Ev_start "session"; Ev_done 10 "session"])
            = Some (Resolved None (Some err))).
Proof.
  split; [reflexivity|]. intros (err & [H | H]); discriminate H.
Qed.

(** C3 (amended): when [done] arrives on a job that is still pending and
    no earlier [generating_code] event with payload status "success"
    stashed files, nothing is checked: the listener sets the status to
    [success] and resolves the promise with a result whose [files] is
    missing, and [createJob] (without local asset storage) and [attachJob]
    return that result; likewise [#processGenerationRequest] returns the
    result at the [done] frame whatever its [files]. No "no files" error
    exists on these paths. *)
Theorem done_without_files_resolves
    (lastFetchResponse : option FetchPromise) (evs : list StreamEvent)
    (tu : Z) (sid : string) :
  forallb (fun ev => negb (stashes_files ev)) evs = true ->
  settled (subscribeToJobStream lastFetchResponse evs) = None ->
  let s := subscribeToJobStream lastFetchResponse (evs ++ [Ev_done tu sid]) in
  exists r,
    files r = None
    /\ tokenUsage r = Some tu
    /\ sessionId r = Some sid
    /\ status (state s) = Status.success
    /\ result (state s) = Some r
    /\ settled s = Some (Resolved (Some r) None)
    /\ (forall arrayBufferToBase64 fetch assetsStorage,
         (forall storage, assetsStorage <> Some (local storage)) ->
         outcome (createJob arrayBufferToBase64 fetch assetsStorage
                    lastFetchResponse (evs ++ [Ev_done tu sid]))
         = Returns (Some r) None)
    /\ (forall assetsStorage,
         outcome (attachJob assetsStorage lastFetchResponse
                    (evs ++ [Ev_done tu sid]))
         = Returns (Some r) None)
    /\ (forall handlerIsFunction messageType normalizedJobType l,
         Sdk.onMessage handlerIsFunction messageType normalizedJobType
           (Sdk.msg_done tu sid) l
         = Sdk.Return
             (Sdk.on_result (set_sessionId (Some sid))
                (Sdk.on_result (set_tokenUsage (Some tu)) l))).
Proof.
  intros Hevs Hpending s.
  pose proof (subscribe_without_files lastFetchResponse evs Hevs) as Hfiles.
  assert (Hs : s = on_done tu sid (subscribeToJobStream lastFetchResponse evs))
    by (unfold s; now rewrite subscribe_snoc).
  unfold createJob, attachJob. fold s. rewrite Hs. clear Hs s.
  destruct (subscribeToJobStream lastFetchResponse evs)
    as [[? ? res ? ? ? ?] r0 ? st ? ?].
  cbn in Hfiles, Hpending. subst st.
  exists (set_sessionId (Some sid) (set_tokenUsage (Some tu) r0)).
  destruct res; cbn; rewrite ?Hfiles.
  all: repeat split; try reflexivity.
  all: intros ? ? [[| |storage]|] Hnot; try reflexivity.
  all: now destruct (Hnot storage).
Qed.

(** [start], a progress report, then [done]: resolved without files. *)
Lemma done_without_files_resolves_witness :
  exists r,
    files r = None
    /\ settled (subscribeToJobStream open_stream
                  ([Ev_start "session"; Ev_generating_code gen_running 50 None]
                   ++ [Ev_done 10 "session"]))
       = Some (Resolved (Some r) None).
Proof.
  destruct (done_without_files_resolves open_stream
              [Ev_start "session"; Ev_generating_code gen_running 50 None]
              10 "session" eq_refl eq_refl)
    as (r & Hfiles & _ & _ & _ & _ & Hsettled & _).
  exists r. split; assumption.
Defined.

(** C6 (the code at scenario E): the status of an asset response is not
    looked at, so the body of the 404 answer is encoded and stored like an
    asset: the result holds two injected entries next to the generated
    file. Only a download whose promise rejects is left out. *)
Theorem not_found_asset_is_injected (arrayBufferToBase64 : string -> string) :
  outcome (createJob arrayBufferToBase64 not_found
             (Some (local (local_path "/assets"))) open_stream scenario_E)
  = Returns
      (Some (mkResult (Some "session") None None (Some 10)
               (Some (<["assets/b.png" :=
                          mkAnimaFile (arrayBufferToBase64 "Not Found") true]>
                      (<["assets/a.png" :=
                           mkAnimaFile (arrayBufferToBase64 "PNG") true]>
                       {["index.html" := mkAnimaFile "<html></html>" false]})))
               (Some [mkAsset "a.png" "https://cdn/a.png";
                      mkAsset "b.png" "https://cdn/b.png"])))
      None
  /\ outcome (createJob arrayBufferToBase64 unreachable
                (Some (local (local_path "/assets"))) open_stream scenario_E)
     = Returns
         (Some (mkResult (Some "session") None None (Some 10)
                  (Some (<["assets/a.png" :=
                             mkAnimaFile (arrayBufferToBase64 "PNG") true]>
                         {["index.html" := mkAnimaFile "<html></html>" false]}))
                  (Some [mkAsset "a.png" "https://cdn/a.png";
                         mkAsset "b.png" "https://cdn/b.png"])))
         None.
Proof. split; reflexivity. Qed.
End Finalizer.

(** ** The reading loop of [#processGenerationRequest] *)

Section Lines.
Import Sdk SdkProps.

Local Open Scope string_scope.

Lemma append_empty (s : string) : s ++ "" = s.
Proof.
  induction s as [|c s IH]; [reflexivity|].
  change (String c s ++ "") with (String c (s ++ "")). now rewrite IH.
Qed.

Lemma append_assoc (s t u : string) : (s ++ t) ++ u = s ++ t ++ u.
Proof.
  induction s as [|c s IH]; [reflexivity|].
  change (String c (s ++ t) ++ u = String c (s ++ t ++ u)).
  change (String c ((s ++ t) ++ u) = String c (s ++ t ++ u)).
  now rewrite IH.
Qed.

Lemma split_not_nil (s : string) : split s <> [].
Proof.
  induction s as [|c s IH]; cbn; [discriminate|].
  destruct (Ascii.eqb c newline); [discriminate|].
  destruct (split s); [contradiction | discriminate].
Qed.

(** Splitting a text that grows: the lines already complete stay, and the
    piece kept in the buffer is split together with the new text. *)
Lemma split_app (s t : string) :
  split (s ++ t)
  = (removelast (split s) ++ split (List.last (split s) "" ++ t))%list.
Proof.
  induction s as [|c s IH]; [reflexivity|].
  change (String c s ++ t) with (String c (s ++ t)).
  cbn [split]. pose proof (split_not_nil s) as Hne.
  destruct (Ascii.eqb c newline) eqn:Hc.
  - rewrite IH. destruct (split s) as [|h tl]; [contradiction|]. reflexivity.
  - rewrite IH. destruct (split s) as [|h [|h2 tl]]; [contradiction| |].
    + cbn [removelast List.last app].
      change (String c h ++ t) with (String c (h ++ t)).
      cbn [split]. rewrite Hc. reflexivity.
    + reflexivity.
Qed.

(** The piece kept in the buffer holds no line feed. *)
Lemma split_last (s : string) :
  split (List.last (split s) "") = [List.last (split s) ""].
Proof.
  induction s as [|c s IH]; [reflexivity|].
  cbn [split]. pose proof (split_not_nil s) as Hne.
  destruct (Ascii.eqb c newline) eqn:Hc.
  - destruct (split s) as [|h tl]; [contradiction|]. exact IH.
  - destruct (split s) as [|h [|h2 tl]]; [contradiction| |].
    + cbn [List.last] in *. cbn [split]. rewrite Hc, IH. reflexivity.
    + exact IH.
Qed.

Variable JSON_parse : string -> option Json.
Variable handlerIsFunction : bool.
Variable messageType : option MessageType.
Variable normalizedJobType : option JobTypeValue.

Local Abbreviation onLine' := (onLine JSON_parse handlerIsFunction messageType
                       normalizedJobType).
Local Abbreviation onLines' := (onLines JSON_parse handlerIsFunction messageType
                        normalizedJobType).
Local Abbreviation readLoop' := (readLoop JSON_parse handlerIsFunction messageType
                         normalizedJobType).

Lemma onLines_app (a b : list string) (l : Loop) :
  onLines' (a ++ b)%list l
  = match onLines' a l with
    | Next l' => onLines' b l'
    | stop => stop
    end.
Proof.
  revert l. induction a as [|line a IH]; intros l; [reflexivity|].
  cbn [app onLines]. destruct (onLine' line l); auto.
Qed.

(** Reading the body chunk by chunk is reading the complete lines of the
    whole text, in order. *)
Lemma readLoop_lines (values : list string) (buffer : string) (l : Loop) :
  split buffer = [buffer] ->
  readLoop' (map read_value values) buffer l
  = onLines' (complete_lines (buffer ++ join values)) l.
Proof.
  unfold complete_lines.
  revert buffer l. induction values as [|value values IH];
    intros buffer l Hbuffer.
  - cbn [map readLoop join]. now rewrite append_empty, Hbuffer.
  - cbn [map readLoop join]. rewrite <- append_assoc.
    rewrite (split_app (buffer ++ value)).
    rewrite removelast_app by apply split_not_nil.
    rewrite onLines_app.
    destruct (onLines' (removelast (split (buffer ++ value))) l);
      try reflexivity.
    apply IH, split_last.
Qed.


(** A line that is no [done], [error] or [null] frame lets the loop go
    on. *)
Lemma onLine_goes_on (line : string) (l : Loop) :
  stops JSON_parse line = false -> exists l', onLine' line l = Next l'.
Proof.
  unfold stops, onLine. intros H.
  destruct (blank line || startsWith ":" line); [eauto|].
  destruct (startsWith "data: " line); [|eauto].
  cbn [negb andb] in H.
  destruct (JSON_parse (slice 6 line)) as [[|data]|];
    try discriminate; [|eauto].
  destruct data; try discriminate; cbn [onMessage];
    try destruct (isCodegen messageType); eauto.
Qed.

Lemma onLines_go_on (lines : list string) (l : Loop) :
  forallb (fun line => negb (stops JSON_parse line)) lines = true ->
  exists l', onLines' lines l = Next l'.
Proof.
  revert l. induction lines as [|line lines IH]; intros l H; [cbn; eauto|].
  cbn in H. apply andb_true_iff in H as [Hline Hlines].
  apply negb_true_iff in Hline.
  destruct (onLine_goes_on line l Hline) as (l' & Hl').
  cbn [onLines]. rewrite Hl'. auto.
Qed.
End Lines.

Section Frames.
Import Sdk SdkProps.

Local Open Scope string_scope.






(** C10: when the body is read to its end and none of its complete lines
    is a [done] frame (or a frame at which the loop throws: [error],
    [null]), the request does not resolve: the reader is cancelled once and
    a [CodegenError] named "Connection" with status 500 is thrown. *)
Theorem closed_before_done
    (JSON_parse : string -> option Json) (handlerIsFunction : bool)
    (messageType : option MessageType)
    (response : HttpResponse) (values : list string) :
  ok response = true ->
  body response = Some (map read_value values) ->
  forallb (fun line => negb (stops JSON_parse line))
    (complete_lines (join values)) = true ->
  let run := processGenerationRequest JSON_parse handlerIsFunction
               messageType true (Some response) in
  outcome run
  = Rejects (thrown_CodegenError
               (CodegenError.new "Connection"
                  "Connection closed before the 'done' message"
                  (Some 500) None))
  /\ cancels run = 1%nat.
Proof.
  intros Hok Hbody Hlines run. unfold run, processGenerationRequest.
  cbn [negb]. rewrite Hok, Hbody. cbn [negb].
  rewrite readLoop_lines by reflexivity.
  destruct (onLines_go_on JSON_parse handlerIsFunction messageType
              (normalizeJobType (jobTypeHeader response)) _
              (mkLoop empty_result []) Hlines)
    as (l' & Hl').
  change ("" ++ join values) with (join values). rewrite Hl'.
  split; reflexivity.
Qed.

(** The body ends in the middle of the [done] line: the frame is never
    seen. *)
Lemma closed_before_done_witness :
  outcome (processGenerationRequest sample_parse false (Some codegen)
             true
             (Some (streamed [(data start_frame ++ line_feed ++ "da")%string;
                              ("ta: {oops" ++ line_feed
                               ++ data done_frame)%string])))
  = Rejects (thrown_CodegenError
               (CodegenError.new "Connection"
                  "Connection closed before the 'done' message"
                  (Some 500) None)).
Proof.
  exact (proj1 (closed_before_done sample_parse false (Some codegen)
                  (streamed [(data start_frame ++ line_feed ++ "da")%string;
                             ("ta: {oops" ++ line_feed
                              ++ data done_frame)%string])
                  _ eq_refl eq_refl eq_refl)).
Defined.
End Frames.

(** ** The provider's [createJob] and [attachJob] *)

Section Facade.
Import Provider.

Local Open Scope string_scope.

Variables f2cUrl l2cUrl p2cUrl : string.
Variable arrayBufferToBase64 : string -> string.
Variable fetch : string -> Job.Download.
Variable typeErrorText : string.
Variable server : string -> option Job.FetchPromise * list Job.StreamEvent.

Lemma effect_opened (p : State) : opened (effect p) = opened p.
Proof. unfold effect. repeat case_match; reflexivity. Qed.

Lemma effect_rawState (p : State) : rawState (effect p) = rawState p.
Proof. unfold effect. repeat case_match; reflexivity. Qed.

Lemma report_opened (snapshots : list Job.CodegenState) (p : State) :
  opened (report snapshots p) = opened p.
Proof.
  revert p. induction snapshots as [|c snapshots IH]; intros p; [reflexivity|].
  cbn. rewrite IH. now rewrite effect_opened.
Qed.

Lemma report_rawState (snapshots : list Job.CodegenState) (p : State) :
  rawState (report snapshots p) = List.last snapshots (rawState p).
Proof.
  induction snapshots as [|c snapshots IH] using rev_ind; [reflexivity|].
  unfold report. rewrite fold_left_app. cbn [fold_left].
  now rewrite effect_rawState, last_last.
Qed.

(** C8: [createJob] throws "A job is already in progress" exactly when the
    provider's job is [pending], and then nothing else happens: no event
    source is opened and the state is untouched. Otherwise the call goes
    on and opens the event source of the job type's URL. *)
Theorem createJob_single_flight (type : JobType) (params : Params)
    (p : State) :
  let r := createJob f2cUrl l2cUrl p2cUrl arrayBufferToBase64 fetch
             typeErrorText server type params p in
  if is_pending (job p) then
    r = (p, throws (Error "A job is already in progress"))
  else
    opened (fst r)
    = (opened p ++ [mappingJobTypeToUrl f2cUrl l2cUrl p2cUrl type])%list
    /\ snd r <> throws (Error "A job is already in progress").
Proof.
  unfold createJob.
  destruct (is_pending (job p)); [reflexivity|].
  set (c := Job.createJob _ _ _ _ _).
  destruct (Job.outcome c) as [[result|] error | e | |]; cbn;
    rewrite report_opened; split; try reflexivity; discriminate.
Qed.

(** C9: [attachJob] reads the job type stored under the session id. When
    none is stored, or the stored text is not one of [f2c], [l2c], [p2c],
    it throws an [AttachJobError] (job type not found, or invalid job
    type) and nothing else happens: no event source is opened. Otherwise
    it opens the event source at the job type's URL followed by the
    session id and feeds the snapshots of [subscribeToJobStream], the
    reducer [createJob] uses, into the raw state. *)
Theorem attachJob_requires_stored_type (sid : string) (params : Params)
    (p : State) :
  let r := attachJob f2cUrl l2cUrl p2cUrl typeErrorText server sid params p in
  let stored := localStorage p !! type_key (Some sid) in
  match stored ≫= JobType_of_name with
  | None =>
      r = (p, throws (AttachJobError
                (match stored with
                 | Some (String c t) =>
                     "Invalid job type " ++ dquote ++ String c t ++ dquote
                     ++ " for job " ++ sid
                 | _ =>
                     "Cannot attach job " ++ sid
                     ++ ": job type not found in local storage"
                 end) None))
  | Some type =>
      let url := mappingJobTypeToUrl f2cUrl l2cUrl p2cUrl type ++ "/" ++ sid in
      let s := Job.subscribeToJobStream (fst (server url)) (snd (server url)) in
      opened (fst r) = (opened p ++ [url])%list
      /\ rawState (fst r) = List.last (Job.emitted s) (rawState p)
      /\ Job.snapshots (Job.attachJob params (fst (server url))
                          (snd (server url)))
         = Job.snapshots (Job.createJob arrayBufferToBase64 fetch params
                            (fst (server url)) (snd (server url)))
  end.
Proof.
  unfold attachJob.
  destruct (localStorage p !! type_key (Some sid)) as [storedType|];
    [|reflexivity].
  cbn [mbind option_bind].
  destruct storedType as [|c t]; [reflexivity|].
  cbn [String.eqb].
  destruct (JobType_of_name (String c t)) as [type|]; [|reflexivity].
  cbn zeta.
  set (url := mappingJobTypeToUrl f2cUrl l2cUrl p2cUrl type ++ "/" ++ sid).
  assert (Hsnap : Job.snapshots (Job.attachJob params (fst (server url))
                                   (snd (server url)))
                  = Job.emitted (Job.subscribeToJobStream (fst (server url))
                                   (snd (server url)))).
  { unfold Job.attachJob.
    destruct (Job.settled _) as [[? [?|] | ?]|]; reflexivity. }
  assert (Hsnap' : Job.snapshots (Job.createJob arrayBufferToBase64 fetch
                                    params (fst (server url))
                                    (snd (server url)))
                   = Job.emitted (Job.subscribeToJobStream (fst (server url))
                                    (snd (server url)))).
  { unfold Job.createJob.
    destruct (Job.settled _) as [[? [?|] | ?]|]; reflexivity. }
  rewrite Hsnap', <- Hsnap.
  destruct (Job.outcome _) as [[result|] error | e | |]; cbn;
    rewrite ?report_opened, ?report_rawState; repeat split; reflexivity.
Qed.
End Facade.

(** ** More on the listeners: fields, settlement, release *)

Section JobFields.
Import Job Props JobViews.

Variable lastFetchResponse : option FetchPromise.

(** A projection of the subscription that every event either overwrites
    or leaves alone is the last value written. *)
Lemma last_written_subscribed {A} (proj : Subscription -> A)
    (writes : StreamEvent -> option A) :
  (forall s ev,
     proj (dispatch lastFetchResponse s ev)
     = match writes ev with Some a => a | None => proj s end) ->
  forall evs,
    proj (subscribeToJobStream lastFetchResponse evs)
    = last_written writes evs (proj subscribed).
Proof.
  intros Hstep evs. unfold subscribeToJobStream, last_written.
  generalize subscribed. induction evs as [|ev evs IH]; intros s;
    [reflexivity|].
  cbn [fold_left]. rewrite IH, Hstep. reflexivity.
Qed.

(** Solves the step condition of a field by running every listener. *)
Ltac field_step :=
  intros s ev;
  destruct s as [[? ? [?|] ? ? ? ?] ? ? ? ? ?]; destruct ev;
  try match goal with st : GeneratingStatus |- _ => destruct st end;
  cbn [dispatch writes_jobSessionId writes_progressMessages writes_jobStatus
       writes_progress writes_sessionId writes_tokenUsage writes_files
       writes_assets writes_figmaFileName writes_figmaSelectedFrameName];
  unfold on_pre_codegen, on_error;
  repeat case_match; reflexivity.

(** X1: the session id, the progress messages, the job status and the
    code-generation progress of the state are always the ones of the last
    event that carried them ([start] or [queueing]; [progress_messages_updated];
    [job_status_updated]; [generating_code]), whatever else happened. *)
Theorem state_fields_are_last_written (evs : list StreamEvent) :
  let c := state (subscribeToJobStream lastFetchResponse evs) in
  jobSessionId c = last_written writes_jobSessionId evs None
  /\ progressMessages c = last_written writes_progressMessages evs []
  /\ jobStatus c = last_written writes_jobStatus evs ∅
  /\ progress (tasks c) = last_written writes_progress evs 0.
Proof.
  cbn zeta. repeat split.
  - apply (last_written_subscribed (fun s => jobSessionId (state s))).
    field_step.
  - apply (last_written_subscribed (fun s => progressMessages (state s))).
    field_step.
  - apply (last_written_subscribed (fun s => jobStatus (state s))).
    field_step.
  - apply (last_written_subscribed (fun s => progress (tasks (state s)))).
    field_step.
Qed.

Lemma partial_is_filled (evs : list StreamEvent) :
  partial (subscribeToJobStream lastFetchResponse evs) = filled evs.
Proof.
  unfold filled.
  rewrite <- (last_written_subscribed (fun s => sessionId (partial s)))
    by field_step.
  rewrite <- (last_written_subscribed (fun s => figmaFileName (partial s)))
    by field_step.
  rewrite <- (last_written_subscribed
                (fun s => figmaSelectedFrameName (partial s))) by field_step.
  rewrite <- (last_written_subscribed (fun s => tokenUsage (partial s)))
    by field_step.
  rewrite <- (last_written_subscribed (fun s => files (partial s)))
    by field_step.
  rewrite <- (last_written_subscribed (fun s => assets (partial s)))
    by field_step.
  now destruct (partial _).
Qed.
End JobFields.

Section Settlement.
Import Job Props JobViews.

Variable lastFetchResponse : option FetchPromise.

(** An event that leaves the promise pending found it pending, keeps
    status, error and result of the state, and reports at most the state
    it leaves. *)
Lemma dispatch_unsettled (s : Subscription) (ev : StreamEvent) :
  settled (dispatch lastFetchResponse s ev) = None ->
  let s' := dispatch lastFetchResponse s ev in
  settled s = None
  /\ status (state s') = status (state s)
  /\ error (state s') = error (state s)
  /\ (result (state s) = None -> result (state s') = None)
  /\ (emitted s' = emitted s \/ emitted s' = emitted s ++ [state s']).
Proof.
  destruct s as [[? ? [?|] ? ? ? ?] ? ? [?|] ? ?]; destruct ev;
    try match goal with st : GeneratingStatus |- _ => destruct st end;
    cbn [dispatch]; unfold on_pre_codegen, on_error;
    repeat case_match; cbn; intros Hnone; try discriminate Hnone;
    repeat split; auto; discriminate.
Qed.

Lemma unsettled_is_pending (evs : list StreamEvent) :
  let s := subscribeToJobStream lastFetchResponse evs in
  settled s = None ->
  status (state s) = Status.pending
  /\ error (state s) = None
  /\ result (state s) = None
  /\ Forall (fun c => status c = Status.pending) (emitted s).
Proof.
  induction evs as [|ev evs IH] using rev_ind; cbn zeta in *.
  - intros _. repeat split. repeat constructor.
  - rewrite subscribe_snoc. intros H.
    destruct (dispatch_unsettled _ _ H) as (H0 & Hst & Herr & Hres & Hem).
    destruct (IH H0) as (IHst & IHerr & IHres & IHall).
    rewrite Hst, Herr, IHst, IHerr. repeat split; auto.
    destruct Hem as [-> | ->]; [exact IHall|].
    apply Forall_app. split; [exact IHall|].
    constructor; [|constructor]. now rewrite Hst.
Qed.

(** X2: as long as the promise has not settled, the status is [pending],
    no error and no result are stored, and every snapshot handed out was
    [pending]: no terminal status is shown for a job that has not
    ended. *)
Theorem unsettled_job_is_pending (evs : list StreamEvent) :
  settled (subscribeToJobStream lastFetchResponse evs) = None ->
  status (state (subscribeToJobStream lastFetchResponse evs)) = Status.pending
  /\ error (state (subscribeToJobStream lastFetchResponse evs)) = None
  /\ result (state (subscribeToJobStream lastFetchResponse evs)) = None
  /\ Forall (fun c => status c = Status.pending)
       (emitted (subscribeToJobStream lastFetchResponse evs)).
Proof. apply unsettled_is_pending. Qed.

(** X3: at the event that settles the promise, snapshot and promise agree.
    When it resolves, the snapshot reported by that event carries the
    result and error the promise resolves with, and its status is
    [success] for a result and [aborted] or [error] for an error. When it
    rejects (the request had failed), nothing is reported and the state
    stays [pending]. *)
Theorem first_settlement_agrees (evs : list StreamEvent) (ev : StreamEvent)
    (v : Settlement) :
  settled (subscribeToJobStream lastFetchResponse evs) = None ->
  settled (subscribeToJobStream lastFetchResponse (evs ++ [ev])) = Some v ->
  let s := subscribeToJobStream lastFetchResponse evs in
  let s' := subscribeToJobStream lastFetchResponse (evs ++ [ev]) in
  match v with
  | Resolved r e =>
      emitted s' = emitted s ++ [state s']
      /\ result (state s') = r
      /\ error (state s') = e
      /\ match e with
         | None => status (state s') = Status.success /\ r = Some (partial s')
         | Some _ =>
             r = None
             /\ (status (state s') = Status.aborted
                 \/ status (state s') = Status.error)
         end
  | Rejected e =>
      emitted s' = emitted s
      /\ state s' = state s
      /\ CodegenError.name e = "Request failed"
  end.
Proof.
  intros Hpending Hsettled. cbn zeta.
  destruct (unsettled_is_pending evs Hpending) as (_ & Herr & Hres & _).
  rewrite subscribe_snoc in *.
  destruct (subscribeToJobStream lastFetchResponse evs)
    as [[? err res ? ? ? ?] ? ? st ? ?].
  cbn in Hpending, Herr, Hres. subst st err res.
  destruct ev;
    try match goal with st : GeneratingStatus |- _ => destruct st end;
    cbn [dispatch] in *; unfold on_pre_codegen, on_error in *;
    repeat case_match; cbn in Hsettled; try discriminate Hsettled;
    injection Hsettled as <-; cbn; repeat split; auto; congruence.
Qed.
End Settlement.

Section SettlementExamples.
Import Job Props JobViews.

Lemma unsettled_job_is_pending_witness :
  status (state (subscribeToJobStream open_stream
                   [Ev_start "session"; Ev_assets_uploaded]))
  = Status.pending.
Proof.
  exact (proj1 (unsettled_job_is_pending open_stream
                  [Ev_start "session"; Ev_assets_uploaded] eq_refl)).
Defined.

Lemma first_settlement_agrees_witness :
  error (state (subscribeToJobStream open_stream
                  ([Ev_start "session"] ++ [Ev_aborted])))
  = Some (CodegenError.new "Aborted" "Unknown" None None).
Proof.
  destruct (first_settlement_agrees open_stream [Ev_start "session"]
              Ev_aborted
              (Resolved None
                 (Some (CodegenError.new "Aborted" "Unknown" None None)))
              eq_refl eq_refl) as (_ & _ & H & _).
  exact H.
Defined.
End SettlementExamples.


Section Outcome.
Import Job Props JobViews.

Variable lastFetchResponse : option FetchPromise.

(** A promise that is not settled yet was not settled by any event
    before. *)
Lemma settled_for_ever (evs : list StreamEvent) (s : Subscription)
    (v : Settlement) :
  settled s = Some v ->
  settled (fold_left (dispatch lastFetchResponse) evs s) = Some v.
Proof.
  revert s. induction evs as [|ev evs IH]; intros s H; [exact H|].
  cbn. apply IH. now apply settled_once.
Qed.

(** X4: when [done] settles the job, the result the promise resolves with
    is assembled from the last writers: session id and token usage of
    [done] itself (a session id from [start] is overwritten), the files of
    the last [generating_code] with status "success", the assets of the
    last [assets_list], the names of the last [figma_metadata]; fields no
    event wrote are missing. *)
Theorem done_resolves_with_filled_result (evs : list StreamEvent)
    (tu : Z) (sid : string) :
  settled (subscribeToJobStream lastFetchResponse evs) = None ->
  settled (subscribeToJobStream lastFetchResponse (evs ++ [Ev_done tu sid]))
  = Some (Resolved
            (Some (mkResult (Some sid)
                     (last_written writes_figmaFileName evs None)
                     (last_written writes_figmaSelectedFrameName evs None)
                     (Some tu)
                     (last_written writes_files evs None)
                     (last_written writes_assets evs None)))
            None).
Proof.
  intros Hpending. rewrite subscribe_snoc.
  pose proof (partial_is_filled lastFetchResponse evs) as Hfilled.
  destruct (subscribeToJobStream lastFetchResponse evs)
    as [[? ? res ? ? ? ?] r0 ? st ? ?].
  cbn in Hpending, Hfilled. subst st r0.
  destruct res; reflexivity.
Qed.

Lemma last_written_at_once {A} (writes : StreamEvent -> option A)
    (evs : list StreamEvent) (d : A) :
  (forall e, writes (Ev_error e) = None) ->
  last_written writes evs d
  = last_written writes (List.filter runs_at_once evs) d.
Proof.
  intros Hw. unfold last_written. revert d.
  induction evs as [|ev evs IH]; intros d; [reflexivity|].
  destruct ev; cbn [List.filter runs_at_once fold_left]; rewrite ?Hw;
    apply IH.
Qed.

Lemma filled_by_chunk (chunks : list (list StreamEvent)) :
  filled (concat (map deferred chunks)) = filled (concat chunks).
Proof.
  unfold filled.
  rewrite !(last_written_at_once _ (concat (map deferred chunks)))
    by reflexivity.
  rewrite at_once_chunks.
  now rewrite <- !(last_written_at_once _ (concat chunks)) by reflexivity.
Qed.

(** The result object at the end of a chunk holds what the listeners of
    all events so far wrote into it. *)
Lemma partial_by_chunk (chunks : list (list StreamEvent)) :
  partial (subscription (subscribeToJobChunks lastFetchResponse chunks))
  = filled (concat chunks).
Proof. now rewrite chunks_deferred, partial_is_filled, filled_by_chunk. Qed.

(** X5: the caller of [subscribeToJobStream] goes on at the end of the
    chunk in which the promise settled. When [done] resolved it, the
    result the caller finds is what the listeners wrote up to the end of
    that chunk, the events after [done] in the chunk included; the
    chunks that follow change neither what the caller received nor what
    [createJob] and [attachJob] return or throw. *)
Theorem outcome_is_fixed_at_the_end_of_the_chunk
    (arrayBufferToBase64 : string -> string) (fetch : string -> Download)
    (assetsStorage : option AssetsStorage)
    (chunks : list (list StreamEvent)) (chunk : list StreamEvent)
    (more : list (list StreamEvent)) (v : Settlement) :
  received (subscribeToJobChunks lastFetchResponse chunks) = None ->
  received (subscribeToJobChunks lastFetchResponse (chunks ++ [chunk]))
  = Some v ->
  match v with
  | Resolved (Some r) _ => r = filled (concat chunks ++ chunk)
  | _ => True
  end
  /\ received (subscribeToJobChunks lastFetchResponse
                 ((chunks ++ [chunk]) ++ more)) = Some v
  /\ outcome (createJob_by_chunk arrayBufferToBase64 fetch assetsStorage
                lastFetchResponse ((chunks ++ [chunk]) ++ more))
     = outcome (createJob_by_chunk arrayBufferToBase64 fetch assetsStorage
                  lastFetchResponse (chunks ++ [chunk]))
  /\ outcome (attachJob_by_chunk assetsStorage lastFetchResponse
                ((chunks ++ [chunk]) ++ more))
     = outcome (attachJob_by_chunk assetsStorage lastFetchResponse
                  (chunks ++ [chunk])).
Proof.
  intros Hwaits Hv.
  assert (Hmore : received (subscribeToJobChunks lastFetchResponse
                              ((chunks ++ [chunk]) ++ more)) = Some v).
  { unfold subscribeToJobChunks in *. rewrite fold_left_app.
    now apply received_kept. }
  split; [|split; [exact Hmore|]].
  - pose proof (partial_by_chunk (chunks ++ [chunk])) as Hpartial.
    rewrite concat_app in Hpartial. cbn [concat] in Hpartial.
    rewrite app_nil_r in Hpartial.
    unfold subscribeToJobChunks in Hv, Hpartial, Hwaits.
    rewrite fold_left_app in Hv, Hpartial. cbn [fold_left] in Hv, Hpartial.
    unfold deliver at 1 in Hv. unfold deliver at 1 in Hpartial.
    cbn [received subscription] in Hv, Hpartial. rewrite Hwaits in Hv.
    destruct (settled _) as [w|]; [|discriminate].
    injection Hv as <-. destruct w as [[r|] e|e]; cbn [handed_out]; auto.
  - unfold createJob_by_chunk, attachJob_by_chunk. rewrite Hmore, Hv.
    destruct v as [r [e|] | e]; split; reflexivity.
Qed.

(** X6: when the request behind the source failed (a response that is not
    [ok]), the first [error] event of a pending job, whatever it carries,
    rejects the promise: [createJob] throws a [CodegenError] named
    "Request failed" with the HTTP status and, as message, the body's
    [payload.message] or else the body text (empty when the body cannot
    be read). No snapshot other than [pending] is ever reported. *)
Theorem failed_request_is_thrown
    (arrayBufferToBase64 : string -> string) (fetch : string -> Download)
    (assetsStorage : option AssetsStorage)
    (response : Response) (evs more : list StreamEvent) (e : ErrorEventArg) :
  lastFetchResponse = Some (fetch_fulfilled response) ->
  ok response = false ->
  settled (subscribeToJobStream lastFetchResponse evs) = None ->
  let c := createJob arrayBufferToBase64 fetch assetsStorage
             lastFetchResponse (evs ++ [Ev_error e]) in
  outcome c
  = Throws (CodegenError.new "Request failed"
              (match body response with
               | None => ""
               | Some text =>
                   match body_payload_message response with
                   | Some message => message
                   | None => text
                   end
               end)
              (Some (http_status response)) None)
  /\ Forall (fun c => status c = Status.pending) (snapshots c)
  /\ outcome (createJob arrayBufferToBase64 fetch assetsStorage
                lastFetchResponse ((evs ++ [Ev_error e]) ++ more))
     = outcome c.
Proof.
  intros Hlfr Hok Hpending c.
  destruct (unsettled_is_pending lastFetchResponse evs Hpending)
    as (_ & _ & _ & Hall).
  assert (Hs : subscribeToJobStream lastFetchResponse (evs ++ [Ev_error e])
               = es_close
                   (settle (Rejected (CodegenError.new "Request failed"
                                        (errorMessage_of response)
                                        (Some (http_status response)) None))
                      (subscribeToJobStream lastFetchResponse evs))).
  { rewrite subscribe_snoc. cbn [dispatch]. unfold on_error.
    rewrite Hlfr at 1. now rewrite Hok. }
  assert (Hsettled : settled (subscribeToJobStream lastFetchResponse
                                (evs ++ [Ev_error e]))
                     = Some (Rejected (CodegenError.new "Request failed"
                                         (errorMessage_of response)
                                         (Some (http_status response)) None))).
  { rewrite Hs. cbn. now rewrite Hpending. }
  assert (Hout : outcome c
                 = Throws (CodegenError.new "Request failed"
                             (errorMessage_of response)
                             (Some (http_status response)) None)).
  { unfold c, createJob. now rewrite Hsettled. }
  split; [exact Hout|]. split.
  - unfold c, createJob. rewrite Hsettled. cbn [snapshots].
    rewrite Hs. exact Hall.
  - unfold createJob at 1.
    pose proof (settled_for_ever more _ _ Hsettled) as Hmore.
    unfold subscribeToJobStream in *. rewrite fold_left_app, Hmore.
    symmetry. exact Hout.
Qed.
End Outcome.

Section OutcomeExamples.
Import Job Props JobViews.

Lemma done_resolves_with_filled_result_witness :
  settled (subscribeToJobStream open_stream
             ([Ev_start "first"] ++ [Ev_done 10 "session"]))
  = Some (Resolved
            (Some (mkResult (Some "session") None None (Some 10) None None))
            None).
Proof.
  exact (done_resolves_with_filled_result open_stream [Ev_start "first"]
           10 "session" eq_refl).
Defined.

(** A [start] that comes with [done], after it: its session id is in the
    result [createJob] returns. *)
Lemma outcome_is_fixed_at_the_end_of_the_chunk_witness :
  received (subscribeToJobChunks open_stream
              (([] ++ [[Ev_done 10 "session"; Ev_start "late"]])
               ++ [[Ev_start "later"]]))
  = Some (Resolved
            (Some (mkResult (Some "late") None None (Some 10) None None))
            None).
Proof.
  destruct (outcome_is_fixed_at_the_end_of_the_chunk open_stream
              (fun buffer => buffer) unreachable None
              [] [Ev_done 10 "session"; Ev_start "late"]
              [[Ev_start "later"]]
              (Resolved
                 (Some (mkResult (Some "late") None None (Some 10) None None))
                 None)
              eq_refl eq_refl) as (_ & H & _).
  exact H.
Defined.

Lemma failed_request_is_thrown_witness :
  outcome (createJob (fun buffer => buffer) unreachable None
             (Some (fetch_fulfilled (mkResponse false 500 (Some "boom") None)))
             ([] ++ [Ev_error ErrorEvent]))
  = Throws (CodegenError.new "Request failed" "boom" (Some 500) None).
Proof.
  exact (proj1 (failed_request_is_thrown
                  (Some (fetch_fulfilled
                           (mkResponse false 500 (Some "boom") None)))
                  (fun buffer => buffer) unreachable None
                  (mkResponse false 500 (Some "boom") None) [] []
                  ErrorEvent eq_refl eq_refl eq_refl)).
Defined.
End OutcomeExamples.


Section Release.
Import Job Props JobViews.

Variable lastFetchResponse : option FetchPromise.

Lemma deaf_listener_ignores (s : Subscription) (e : ErrorEventArg) :
  listener_is_deaf lastFetchResponse = true ->
  dispatch lastFetchResponse s (Ev_error e) = s.
Proof.
  cbn [dispatch]. unfold on_error, listener_is_deaf.
  destruct lastFetchResponse as [[|response]|]; [reflexivity|discriminate|
                                                  reflexivity].
Qed.

(** X7: when [subscribeToJobStream] was given no response promise, or one
    that rejects, the [error] listener does nothing: a stream behaves as if
    its [error] events had never been sent, whatever they carry and however
    many they are. *)
Theorem deaf_listener_drops_error_events
    (arrayBufferToBase64 : string -> string) (fetch : string -> Download)
    (assetsStorage : option AssetsStorage) (evs : list StreamEvent) :
  listener_is_deaf lastFetchResponse = true ->
  subscribeToJobStream lastFetchResponse evs
  = subscribeToJobStream lastFetchResponse
      (List.filter (fun ev => negb (is_error ev)) evs)
  /\ createJob arrayBufferToBase64 fetch assetsStorage lastFetchResponse evs
     = createJob arrayBufferToBase64 fetch assetsStorage lastFetchResponse
         (List.filter (fun ev => negb (is_error ev)) evs).
Proof.
  intros Hdeaf.
  assert (H : subscribeToJobStream lastFetchResponse evs
              = subscribeToJobStream lastFetchResponse
                  (List.filter (fun ev => negb (is_error ev)) evs)).
  { unfold subscribeToJobStream. generalize subscribed.
    induction evs as [|ev evs IH]; intros s; [reflexivity|].
    cbn [fold_left].
    destruct ev; cbn [List.filter is_error negb fold_left]; try apply IH.
    rewrite deaf_listener_ignores by exact Hdeaf. apply IH. }
  split; [exact H|]. unfold createJob. now rewrite H.
Qed.

Lemma dispatch_closed (s : Subscription) (ev : StreamEvent) :
  closed (dispatch lastFetchResponse s ev)
  = (closed s
     + if request_failed lastFetchResponse && is_error ev then 1 else 0)%nat.
Proof.
  destruct s as [[? ? [?|] ? ? ? ?] ? ? ? ? ?]; destruct ev;
    try match goal with st : GeneratingStatus |- _ => destruct st end;
    cbn [dispatch is_error]; unfold on_pre_codegen, on_error, request_failed;
    rewrite ?andb_false_r;
    repeat case_match; cbn in *; try lia; discriminate.
Qed.

Lemma subscribed_closed (evs : list StreamEvent) :
  closed (subscribeToJobStream lastFetchResponse evs)
  = if request_failed lastFetchResponse
    then length (List.filter is_error evs) else 0%nat.
Proof.
  induction evs as [|ev evs IH] using rev_ind.
  - now destruct (request_failed lastFetchResponse).
  - rewrite subscribe_snoc, dispatch_closed, IH, List.filter_app, length_app.
    destruct (request_failed lastFetchResponse); cbn [andb]; [|lia].
    cbn. destruct (is_error ev); cbn; lia.
Qed.

(** X8: a call of [createJob] or [attachJob] that ends has closed the event
    source in its [finally], once; a call that still waits has not. Only
    when the request behind the source had failed does the [error] listener
    close the source as well, once for every [error] event. *)
Theorem source_is_closed_when_the_call_ends
    (arrayBufferToBase64 : string -> string) (fetch : string -> Download)
    (assetsStorage : option AssetsStorage) (evs : list StreamEvent) :
  let by_listener :=
    if request_failed lastFetchResponse
    then length (List.filter is_error evs) else 0%nat in
  let c := createJob arrayBufferToBase64 fetch assetsStorage
             lastFetchResponse evs in
  let a := attachJob assetsStorage lastFetchResponse evs in
  closes c
  = (by_listener
     + match outcome c with StillWaiting => 0 | _ => 1 end)%nat
  /\ closes a
     = (by_listener
        + match outcome a with StillWaiting => 0 | _ => 1 end)%nat.
Proof.
  cbn zeta. unfold createJob, attachJob, finalize.
  rewrite <- subscribed_closed.
  destruct (settled (subscribeToJobStream lastFetchResponse evs))
    as [[r [e|] | e]|]; cbn; split; repeat case_match; cbn;
    first [lia | discriminate].
Qed.
End Release.

Section ReleaseExamples.
Import Job Props JobViews.

Lemma deaf_listener_drops_error_events_witness :
  subscribeToJobStream None [Ev_error task_crashed; Ev_done 10 "session"]
  = subscribeToJobStream None
      (List.filter (fun ev => negb (is_error ev))
         [Ev_error task_crashed; Ev_done 10 "session"]).
Proof.
  exact (proj1 (deaf_listener_drops_error_events None
                  (fun buffer => buffer) unreachable None
                  [Ev_error task_crashed; Ev_done 10 "session"] eq_refl)).
Defined.
End ReleaseExamples.

(** ** The retry ceiling and the crash report, by chunk *)

Section Crashes.
Import Job Props JobViews.

Lemma forallb_deferred (f : StreamEvent -> bool) (chunk : list StreamEvent) :
  forallb f (deferred chunk) = forallb f chunk.
Proof.
  unfold deferred. induction chunk as [|ev chunk IH]; [reflexivity|].
  destruct ev; cbn [List.filter runs_at_once app forallb];
    try (now rewrite <- IH).
  rewrite <- IH. rewrite !forallb_app. cbn [errors_of omap list_omap].
  change (omap _ chunk) with (errors_of chunk).
  cbn [map forallb]. rewrite !andb_assoc. f_equal. apply andb_comm.
Qed.

Lemma forallb_chunks (f : StreamEvent -> bool)
    (chunks : list (list StreamEvent)) :
  forallb f (concat (map deferred chunks)) = forallb f (concat chunks).
Proof.
  induction chunks as [|chunk chunks IH]; [reflexivity|].
  cbn [map concat]. now rewrite !forallb_app, forallb_deferred, IH.
Qed.

(** C1 (amended): on an open stream, however the frames are cut into
    chunks and whatever frames other than [done] and [aborted] come
    before or between them, every transient [error] frame raises the
    retry counter by one, and the job is terminated exactly when the
    counter exceeds 10. After at most ten such frames the job is still
    [pending] and a following [done] resolves it with [success]; the
    eleventh frame sets the status to [error] and settles the job with
    the error built from that frame: its reported name, or the fallback
    "Unknown error" when the frame reports none. *)
Theorem retry_ceiling (response : Response)
    (chunks : list (list StreamEvent)) :
  ok response = true ->
  forallb transient (errors_of (concat chunks)) = true ->
  forallb (fun ev => negb (ends_job ev)) (concat chunks) = true ->
  let streaming := Some (fetch_fulfilled response) in
  let l := subscribeToJobChunks streaming chunks in
  let s := subscription l in
  let n := length (errors_of (concat chunks)) in
  errorCount s = n
  /\ (received l = None <-> (n <= MAX_RETRIES_AFTER_ERROR)%nat)
  /\ ((n <= MAX_RETRIES_AFTER_ERROR)%nat ->
      Forall (fun c => status c = Status.pending) (emitted s)
      /\ forall tu sid,
           let l' := deliver streaming l [Ev_done tu sid] in
           status (state (subscription l')) = Status.success
           /\ exists r,
                received l' = Some (Resolved (Some r) None)
                /\ sessionId r = Some sid
                /\ tokenUsage r = Some tu)
  /\ (forall e,
        nth_error (errors_of (concat chunks)) MAX_RETRIES_AFTER_ERROR
        = Some e ->
        exists err c,
          codegenError_of (errorPayload_of e) = Some err
          /\ CodegenError.name err
             = nullish (reported_name (errorPayload_of e)) "Unknown error"
          /\ received l = Some (Resolved None (Some err))
          /\ status (state s) = Status.error
          /\ In c (emitted s)
          /\ status c = Status.error
          /\ error c = Some err).
Proof.
  intros Hok Hes Hquiet streaming l s n. subst s n.
  pose proof (chunks_deferred streaming chunks) as Hsub. fold l in Hsub.
  rewrite <- errors_of_chunks in *. rewrite <- forallb_chunks in Hquiet.
  set (evs := concat (map deferred chunks)) in *.
  destruct (counted_errors response evs Hok Hes Hquiet) as [Hcount Hnth].
  fold streaming in Hcount, Hnth.
  pose proof (received_nothing streaming chunks) as Hnone. fold l in Hnone.
  rewrite Hsub in *.
  set (s := subscribeToJobStream streaming evs) in *.
  assert (settled s = None
          <-> (length (errors_of evs) <= MAX_RETRIES_AFTER_ERROR)%nat) as Hiff.
  { destruct (nth_error (errors_of evs) MAX_RETRIES_AFTER_ERROR) as [e|] eqn:E.
    - destruct Hnth as (err & c & _ & -> & _).
      assert (MAX_RETRIES_AFTER_ERROR < length (errors_of evs))%nat
        by (apply nth_error_Some; congruence).
      split; [discriminate | lia].
    - apply nth_error_None in E. split; auto. }
  split; [exact Hcount|]. split; [now rewrite Hnone|]. split.
  - intros Hn. apply Hiff in Hn.
    destruct (unsettled_is_pending streaming evs Hn) as (_ & _ & _ & Hall).
    split; [exact Hall|].
    intros tu sid l'. subst l'.
    apply Hnone in Hn as Hreceived.
    unfold deliver. rewrite Hreceived, Hsub. cbn [subscription received].
    cbn [fold_left listen resume dispatched awaiting dispatch].
    fold s. destruct s as [[? ? ? ? ? ? ?] ? ? ? ? ?] eqn:Es.
    cbn in Hn. subst.
    cbn. split; [reflexivity|]. eexists. split; [reflexivity|].
    split; reflexivity.
  - intros e He. rewrite He in Hnth.
    destruct Hnth as (err & c & Herr & Hset & Hstatus & Hin & Hc1 & Hc2).
    assert (transient e = true) as Htransient.
    { apply nth_error_In in He.
      rewrite forallb_forall in Hes. now apply Hes. }
    destruct (transient_codegenError e Htransient) as (err' & Herr' & Hname).
    assert (err' = err) as -> by congruence.
    exists err, c. repeat split; auto.
    subst l. apply received_error. now rewrite Hsub.
Qed.

Lemma crash_terminates (response : Response) (s : Subscription)
    (p : ErrorPayload) :
  ok response = true ->
  payload_name p = Some "Task Crashed" ->
  dispatch (Some (fetch_fulfilled response)) s
    (Ev_error (MessageEvent (with_payload p)))
  = terminated
      (CodegenError.new "Task Crashed" (nullish (payload_message p) "Unknown")
         (payload_status p) (payload_detail p)) s.
Proof.
  intros Hok Hname. cbn [dispatch]. unfold on_error. rewrite Hok. cbn [negb].
  unfold isUnrecoverableError, codegenError_of, reported_name.
  rewrite Hname. cbn [nullish].
  destruct (MAX_RETRIES_AFTER_ERROR <? errorCount (incr_errorCount s))%nat;
    reflexivity.
Qed.

(** On an open stream an [error] listener leaves the status [error]
    alone. *)
Lemma errors_keep_error (response : Response) (es : list ErrorEventArg)
    (s : Subscription) :
  ok response = true ->
  status (state s) = Status.error ->
  status (state (fold_left (dispatch (Some (fetch_fulfilled response)))
                   (map Ev_error es) s)) = Status.error.
Proof.
  intros Hok. revert s. induction es as [|e es IH]; intros s Hs; [exact Hs|].
  cbn [map fold_left]. apply IH.
  cbn [dispatch]. unfold on_error. rewrite Hok. cbn [negb].
  repeat case_match; auto.
Qed.

Lemma unsettled_before (lastFetchResponse : option FetchPromise)
    (evs : list StreamEvent) (s : Subscription) :
  settled (fold_left (dispatch lastFetchResponse) evs s) = None ->
  settled s = None.
Proof.
  intros H. destruct (settled s) as [v|] eqn:E; [|reflexivity].
  now rewrite (settled_kept lastFetchResponse evs s v E) in H.
Qed.

Lemma deferred_around (before after : list StreamEvent) (e : ErrorEventArg) :
  deferred (before ++ Ev_error e :: after)
  = List.filter runs_at_once (before ++ after)
    ++ map Ev_error (errors_of before) ++ Ev_error e
       :: map Ev_error (errors_of after).
Proof.
  unfold deferred. rewrite !List.filter_app, !errors_of_app.
  cbn [List.filter runs_at_once]. cbn [errors_of omap list_omap].
  change (omap _ after) with (errors_of after).
  now rewrite map_app.
Qed.

Lemma deferred_without (before after : list StreamEvent) :
  deferred (before ++ after)
  = List.filter runs_at_once (before ++ after)
    ++ map Ev_error (errors_of before) ++ map Ev_error (errors_of after).
Proof. unfold deferred. now rewrite errors_of_app, map_app. Qed.

Lemma deaf_errors (lastFetchResponse : option FetchPromise)
    (es : list ErrorEventArg) (s : Subscription) :
  listener_is_deaf lastFetchResponse = true ->
  fold_left (dispatch lastFetchResponse) (map Ev_error es) s = s.
Proof.
  intros Hdeaf. induction es as [|e es IH]; [reflexivity|].
  cbn [map fold_left]. now rewrite deaf_listener_ignores.
Qed.

(** C2 (amended): the listener of an [error] frame named "Task Crashed"
    does its work when the other frames of its chunk have been
    dispatched. On an open stream, whatever the listeners did before (any
    state, any retry counter), the status is [error] at the end of the
    chunk and a snapshot with an error of that name has been reported;
    the job settles with that error when nothing else of the chunk, and
    nothing before it, settles the job. When the request behind the
    source was rejected, or there is none, the frame is ignored. *)
Theorem task_crashed_terminates (lastFetchResponse : option FetchPromise)
    (l : Listening) (before after : list StreamEvent) (p : ErrorPayload) :
  payload_name p = Some "Task Crashed" ->
  let crash := Ev_error (MessageEvent (with_payload p)) in
  let err :=
    CodegenError.new "Task Crashed" (nullish (payload_message p) "Unknown")
      (payload_status p) (payload_detail p) in
  let l' := deliver lastFetchResponse l (before ++ crash :: after) in
  let rest := deliver lastFetchResponse l (before ++ after) in
  (forall response,
     lastFetchResponse = Some (fetch_fulfilled response) ->
     ok response = true ->
     status (state (subscription l')) = Status.error
     /\ (exists shown c later,
           emitted (subscription l')
           = (emitted (subscription l) ++ shown) ++ c :: later
           /\ status c = Status.error
           /\ error c = Some err)
     /\ (received rest = None ->
         received l' = Some (Resolved None (Some err))))
  /\ (listener_is_deaf lastFetchResponse = true -> l' = rest).
Proof.
  intros Hname crash err l' rest. split.
  - intros response -> Hok.
    set (streaming := Some (fetch_fulfilled response)) in *.
    pose proof (deliver_deferred streaming l (before ++ crash :: after)) as Hl'.
    pose proof (deliver_deferred streaming l (before ++ after)) as Hrest.
    fold l' in Hl'. fold rest in Hrest. subst crash.
    rewrite deferred_around, !fold_left_app in Hl'.
    rewrite deferred_without, !fold_left_app in Hrest.
    cbn [fold_left] in Hl'.
    set (s1 := fold_left (dispatch streaming)
                 (List.filter runs_at_once (before ++ after))
                 (subscription l)) in *.
    set (s2 := fold_left (dispatch streaming)
                 (map Ev_error (errors_of before)) s1) in *.
    unfold streaming at 2 in Hl'.
    rewrite (crash_terminates response s2 p Hok Hname) in Hl'.
    fold err in Hl'. fold streaming in Hl'.
    split; [|split].
    + rewrite Hl'. apply errors_keep_error; [exact Hok | reflexivity].
    + destruct (emitted_grow streaming
                  (List.filter runs_at_once (before ++ after))
                  (subscription l)) as [m1 H1].
      destruct (emitted_grow streaming (map Ev_error (errors_of before)) s1)
        as [m2 H2].
      destruct (emitted_grow streaming (map Ev_error (errors_of after))
                  (terminated err s2)) as [m3 H3].
      fold s1 in H1. fold s2 in H2.
      exists (m1 ++ m2),
        (set_error (Some err) (set_status Status.error (state s2))), m3.
      rewrite Hl', H3. unfold terminated at 1. cbn [emitted].
      rewrite H2, H1, <- !app_assoc. repeat split; reflexivity.
    + intros Hnone.
      assert (received l = None /\ settled (subscription rest) = None)
        as [Hl Hsettled].
      { unfold rest, deliver in *. cbn [received subscription] in *.
        destruct (received l); [discriminate|].
        destruct (settled _); [discriminate|]. auto. }
      rewrite Hrest in Hsettled. apply unsettled_before in Hsettled.
      assert (settled (subscription l')
              = Some (Resolved None (Some err))) as Hsettled'.
      { rewrite Hl'. apply settled_kept. unfold terminated. cbn [settled].
        now rewrite Hsettled. }
      unfold l', deliver in *. cbn [received subscription] in *.
      now rewrite Hl, Hsettled'.
  - intros Hdeaf.
    pose proof (deliver_deferred lastFetchResponse l
                  (before ++ crash :: after)) as Hl'.
    pose proof (deliver_deferred lastFetchResponse l (before ++ after))
      as Hrest.
    subst crash. rewrite deferred_around, !fold_left_app in Hl'.
    rewrite deferred_without, !fold_left_app in Hrest.
    cbn [fold_left] in Hl'.
    rewrite !(deaf_errors lastFetchResponse) in Hl', Hrest by exact Hdeaf.
    rewrite (deaf_listener_ignores lastFetchResponse) in Hl' by exact Hdeaf.
    unfold l', rest, deliver in *. cbn [subscription] in *.
    now rewrite Hl', Hrest.
Qed.
End Crashes.

Section CrashExamples.
Import Job Props JobViews.

(** Eleven transient errors in two chunks, among other frames: the
    eleventh ends the job with its name. *)
Lemma retry_ceiling_witness :
  errorCount (subscription (subscribeToJobChunks open_stream interleaved))
  = 11%nat
  /\ received (subscribeToJobChunks open_stream interleaved)
     = Some (Resolved None
               (Some (CodegenError.new "FetchError" "socket hang up"
                        None None))).
Proof.
  destruct (retry_ceiling (mkResponse true 200 None None) interleaved
              eq_refl eq_refl eq_refl) as (Hcount & _ & _ & Hlast).
  split; [exact Hcount|].
  destruct (Hlast socket_hang_up eq_refl)
    as (err & c & Herr & _ & Hreceived & _).
  injection Herr as <-. exact Hreceived.
Defined.

(** C2, as stated, fails: when the crash report and [done] come in one
    chunk, [done] settles the job before the [error] listener goes on:
    [createJob] returns the result, and the status [error] is reported
    after [success]. *)
Lemma task_crashed_beside_done_resolves :
  outcome (createJob_by_chunk (fun buffer => buffer) unreachable None
             open_stream [[Ev_error task_crashed; Ev_done 10 "session"]])
  = Returns (Some (mkResult (Some "session") None None (Some 10) None None))
      None
  /\ map status
       (snapshots (createJob_by_chunk (fun buffer => buffer) unreachable None
                     open_stream
                     [[Ev_error task_crashed; Ev_done 10 "session"]]))
     = [Status.pending; Status.success; Status.error]
  /\ ~ (exists err,
         outcome (createJob_by_chunk (fun buffer => buffer) unreachable None
                    open_stream
                    [[Ev_error task_crashed; Ev_done 10 "session"]])
         = Returns None (Some err)).
Proof.
  split; [reflexivity|]. split; [reflexivity|].
  intros (err & H). discriminate H.
Qed.

(** After [start], a crash report between a tolerated error and
    [assets_uploaded]. *)
Lemma task_crashed_terminates_witness :
  received (deliver open_stream
              (subscribeToJobChunks open_stream [[Ev_start "session"]])
              ([Ev_error socket_hang_up]
               ++ Ev_error task_crashed :: [Ev_assets_uploaded]))
  = Some (Resolved None
            (Some (CodegenError.new "Task Crashed" "Unknown" None None))).
Proof.
  destruct (task_crashed_terminates open_stream
              (subscribeToJobChunks open_stream [[Ev_start "session"]])
              [Ev_error socket_hang_up] [Ev_assets_uploaded]
              (mkErrorPayload (Some "Task Crashed") (Some "Unknown") None None)
              eq_refl) as [Hopen _].
  destruct (Hopen (mkResponse true 200 None None) eq_refl eq_refl)
    as (_ & _ & Hreceived).
  exact (Hreceived eq_refl).
Defined.
End CrashExamples.


Section Splice.
Import Job Props JobViews.

Variable arrayBufferToBase64 : string -> string.
Variable fetch : string -> Download.

Lemma find_snoc {A} (P : A -> bool) (l : list A) (x : A) :
  List.find P (l ++ [x])
  = match List.find P l with
    | Some a => Some a
    | None => if P x then Some x else None
    end.
Proof.
  induction l as [|a l IH]; cbn; [reflexivity|].
  destruct (P a); [reflexivity | exact IH].
Qed.

Lemma existsb_map {A B} (f : B -> bool) (g : A -> B) (l : list A) :
  existsb f (map g l) = existsb (fun a => f (g a)) l.
Proof. induction l as [|a l IH]; cbn; [reflexivity | now rewrite IH]. Qed.

(** With a file map, the splice loop never fails, and a path holds the
    newest fulfilled download that maps to it, or else what it held. *)
Lemma spliceAssets_lookup (filePath : string)
    (settledAssets : list (option (string * string)))
    (m : gmap string AnimaFile) :
  exists m',
    spliceAssets filePath settledAssets (Some m) = Some (Some m')
    /\ forall path,
         m' !! path
         = match spliced_at filePath path settledAssets with
           | Some file => Some file
           | None => m !! path
           end.
Proof.
  revert m. induction settledAssets as [|[[assetName base64]|] rest IH];
    intros m.
  - exists m. split; reflexivity.
  - destruct (IH (<[assetPath filePath assetName :=
                      mkAnimaFile base64 true]> m)) as (m' & Hm' & Hlookup).
    exists m'. split; [exact Hm'|]. intros path. rewrite Hlookup.
    unfold spliced_at, fulfilled_newest_first.
    change (omap id (Some (assetName, base64) :: rest))
      with ((assetName, base64) :: omap id rest).
    cbn [rev]. rewrite find_snoc.
    destruct (List.find _ (rev (omap id rest))) as [a|]; [reflexivity|].
    cbn [fst snd].
    destruct (String.eqb_spec (assetPath filePath assetName) path) as [<-|Hne].
    + now rewrite lookup_insert_eq.
    + now rewrite lookup_insert_ne.
  - destruct (IH m) as (m' & Hm' & Hlookup).
    exists m'. split; [exact Hm' | exact Hlookup].
Qed.

(** Without a file map, the first fulfilled download makes the loop
    fail. *)
Lemma spliceAssets_without_files (filePath : string)
    (settledAssets : list (option (string * string))) :
  spliceAssets filePath settledAssets None
  = if existsb (fun a => bool_decide (is_Some a)) settledAssets then None
    else Some None.
Proof.
  induction settledAssets as [|[[assetName base64]|] rest IH];
    [reflexivity| |exact IH].
  reflexivity.
Qed.

(** X9: with local asset storage, a result that has files and lists
    assets is returned with every fulfilled download stored at
    [filePath/name] (at [name] when the file path is empty) as a binary
    file holding the base64 text; when two downloads map to one path the
    later one stays, and every other path keeps the file it had. *)
Theorem local_assets_are_spliced (storage : LocalAssetsStorage)
    (result : AnimaSDKResult) (listed : list Asset)
    (m : gmap string AnimaFile) :
  assets result = Some listed ->
  listed <> [] ->
  files result = Some m ->
  exists m',
    finalize arrayBufferToBase64 fetch (Some (local storage)) (Some result)
    = Returns (Some (set_files (Some m') result)) None
    /\ forall path,
         m' !! path
         = match spliced_at (fst (getAssetsLocalStrategyParams storage)) path
                   (map (downloadAsset arrayBufferToBase64 fetch) listed) with
           | Some file => Some file
           | None => m !! path
           end.
Proof.
  intros Hassets Hlisted Hfiles. unfold finalize. rewrite Hassets, Hfiles.
  destruct listed as [|a l]; [contradiction|].
  destruct (getAssetsLocalStrategyParams storage) as [filePath referencePath].
  destruct (spliceAssets_lookup filePath
              (map (downloadAsset arrayBufferToBase64 fetch) (a :: l)) m)
    as (m' & Hm' & Hlookup).
  exists m'. rewrite Hm'. split; [reflexivity | exact Hlookup].
Qed.

(** X10: the part of [createJob] after the promise resolved throws a
    [TypeError] exactly when local asset storage was asked for, the result
    has no files, and at least one listed asset was downloaded: the loop
    writes into a file map that is not there. In every other case the
    result is returned. *)
Theorem splice_without_files_throws (assetsStorage : option AssetsStorage)
    (r : option AnimaSDKResult) :
  finalize arrayBufferToBase64 fetch assetsStorage r = ThrowsTypeError
  <-> exists storage result,
        assetsStorage = Some (local storage)
        /\ r = Some result
        /\ files result = None
        /\ existsb (fun a => bool_decide
                               (is_Some (downloadAsset arrayBufferToBase64
                                           fetch a)))
             (nullish (assets result) []) = true.
Proof.
  unfold finalize. split.
  - destruct assetsStorage as [[| |storage]|]; try discriminate.
    destruct r as [result|]; [|discriminate].
    destruct (assets result) as [[|a l]|] eqn:Hassets; try discriminate.
    destruct (getAssetsLocalStrategyParams storage) as [filePath ?].
    destruct (files result) as [m|] eqn:Hfiles.
    + destruct (spliceAssets_lookup filePath
                  (map (downloadAsset arrayBufferToBase64 fetch) (a :: l)) m)
        as (m' & -> & _). discriminate.
    + rewrite spliceAssets_without_files, existsb_map.
      destruct (existsb _ (a :: l)) eqn:Hex; [|discriminate].
      intros _. exists storage, result. rewrite Hassets. auto.
  - intros (storage & result & -> & -> & Hfiles & Hex).
    destruct (assets result) as [[|a l]|]; cbn [nullish] in Hex;
      try discriminate Hex.
    destruct (getAssetsLocalStrategyParams storage) as [filePath ?].
    rewrite Hfiles, spliceAssets_without_files, existsb_map, Hex.
    reflexivity.
Qed.
End Splice.

Section SpliceExamples.
Import Job Props JobViews.

Lemma local_assets_are_spliced_witness :
  exists m',
    finalize (fun buffer => buffer) unreachable
      (Some (local (local_path "/assets"))) (Some one_asset)
    = Returns (Some (set_files (Some m') one_asset)) None.
Proof.
  destruct (local_assets_are_spliced (fun buffer => buffer) unreachable
              (local_path "/assets") one_asset
              [mkAsset "a.png" "https://cdn/a.png"]
              {["index.html" := mkAnimaFile "<html></html>" false]}
              eq_refl ltac:(discriminate) eq_refl) as (m' & H & _).
  exists m'. exact H.
Defined.
End SpliceExamples.


(** ** More on the reading loop *)

Section Reading.
Import Sdk SdkProps SdkViews.

Local Open Scope string_scope.

Variable JSON_parse : string -> option Json.
Variable handlerIsFunction : bool.
Variable messageType : option MessageType.

Lemma split_one_line (text : string) :
  one_line text = true <-> split text = [text].
Proof.
  induction text as [|c text IH]; [now split|].
  cbn [one_line split]. destruct (Ascii.eqb c newline); cbn [negb andb].
  - split; [discriminate|]. intros H. pose proof (split_not_nil text).
    destruct (split text); [contradiction | discriminate].
  - rewrite IH. pose proof (split_not_nil text) as Hne.
    destruct (split text) as [|l [|l' ls]]; [contradiction| |].
    + split; [now intros [= ->] | now intros [= ->]].
    + split; discriminate.
Qed.

Lemma one_line_app (a b : string) :
  one_line (a ++ b) = one_line a && one_line b.
Proof.
  induction a as [|c a IH]; [reflexivity|].
  change (String c a ++ b) with (String c (a ++ b)).
  cbn [one_line]. now rewrite IH, andb_assoc.
Qed.

(** Splitting loses nothing: the pieces of [split] hold no line feed, and
    joined by line feeds they are the text again. *)
Lemma split_round_trip (text : string) :
  unsplit (split text) = text
  /\ forallb one_line (split text) = true.
Proof.
  induction text as [|c text [IHu IHl]]; [split; reflexivity|].
  cbn [split]. pose proof (split_not_nil text) as Hne.
  destruct (Ascii.eqb_spec c newline) as [->|Hc].
  - destruct (split text) as [|l ls]; [contradiction|]. split.
    + change (unsplit ("" :: l :: ls)) with ("" ++ String newline (unsplit (l :: ls))).
      now rewrite IHu.
    + exact IHl.
  - destruct (split text) as [|l ls]; [contradiction|]. split.
    + rewrite <- IHu. destruct ls; reflexivity.
    + cbn [forallb one_line] in *.
      apply Ascii.eqb_neq in Hc. now rewrite Hc.
Qed.

(** Text without line feed after the buffer stays in the buffer. *)
Lemma complete_lines_tail (text tail : string) :
  one_line tail = true ->
  complete_lines (text ++ tail) = complete_lines text.
Proof.
  intros Htail. unfold complete_lines. rewrite split_app.
  assert (H : split (List.last (split text) "" ++ tail)
              = [List.last (split text) "" ++ tail]).
  { apply split_one_line. rewrite one_line_app, Htail, andb_true_r.
    apply split_one_line, split_last. }
  rewrite H, removelast_app by discriminate. cbn. apply app_nil_r.
Qed.

Lemma join_app (a b : list string) : join (a ++ b)%list = join a ++ join b.
Proof.
  induction a as [|x a IH]; [reflexivity|].
  cbn [app join]. now rewrite IH, append_assoc.
Qed.

Lemma request_reads_lines (response : HttpResponse) (values : list string) :
  body response = Some (map read_value values) ->
  ok response = true ->
  processGenerationRequest JSON_parse handlerIsFunction messageType true
    (Some response)
  = match onLines JSON_parse handlerIsFunction messageType
            (normalizeJobType (jobTypeHeader response))
            (complete_lines (join values)) (mkLoop empty_result []) with
    | Next l =>
        mkRun (Rejects (thrown_CodegenError connection_closed)) (calls l) 1
    | Return l => mkRun (Resolves (result l)) (calls l) 1
    | Throw e l => mkRun (Rejects e) (calls l) 1
    end.
Proof.
  intros Hbody Hok. unfold processGenerationRequest.
  cbn [negb]. rewrite Hok, Hbody. cbn [negb].
  now rewrite readLoop_lines by reflexivity.
Qed.

(** X11: how the body is cut into chunks does not matter: two bodies with
    the same text give the same handler calls and the same outcome. *)
Theorem chunking_does_not_matter (response : HttpResponse)
    (values values' : list string) :
  ok response = true ->
  join values = join values' ->
  processGenerationRequest JSON_parse handlerIsFunction messageType true
    (Some (with_body response values))
  = processGenerationRequest JSON_parse handlerIsFunction messageType true
      (Some (with_body response values')).
Proof.
  intros Hok Hjoin.
  rewrite (request_reads_lines (with_body response values) values),
          (request_reads_lines (with_body response values') values')
    by first [reflexivity | exact Hok].
  cbn [with_body jobTypeHeader]. now rewrite Hjoin.
Qed.

(** X12: what follows the last line feed of the body is never processed:
    a body and the same body followed by text without line feed give the
    same run, so a last frame that lacks its line feed is lost. *)
Theorem unterminated_line_is_dropped (response : HttpResponse)
    (values : list string) (tail : string) :
  ok response = true ->
  one_line tail = true ->
  processGenerationRequest JSON_parse handlerIsFunction messageType true
    (Some (with_body response (values ++ [tail])%list))
  = processGenerationRequest JSON_parse handlerIsFunction messageType true
      (Some (with_body response values)).
Proof.
  intros Hok Htail.
  rewrite (request_reads_lines (with_body response (values ++ [tail])%list)
             (values ++ [tail])%list),
          (request_reads_lines (with_body response values) values)
    by first [reflexivity | exact Hok].
  cbn [with_body jobTypeHeader].
  rewrite join_app. cbn [join]. rewrite append_empty.
  now rewrite complete_lines_tail.
Qed.
End Reading.

Section ReadingExamples.
Import Sdk SdkProps SdkViews.

Lemma chunking_does_not_matter_witness :
  processGenerationRequest sample_parse false (Some codegen) true
    (Some (with_body (streamed [])
             [data done_frame; line_feed]))
  = processGenerationRequest sample_parse false (Some codegen) true
      (Some (with_body (streamed [])
               ["data: "%string; (done_frame ++ line_feed)%string])).
Proof.
  apply (chunking_does_not_matter sample_parse false (Some codegen)
           (streamed []) [data done_frame; line_feed]
           ["data: "%string; (done_frame ++ line_feed)%string]);
    reflexivity.
Defined.

Lemma unterminated_line_is_dropped_witness :
  processGenerationRequest sample_parse false (Some codegen) true
    (Some (with_body (streamed [])
             ([(data start_frame ++ line_feed)%string] ++ [data done_frame])))
  = processGenerationRequest sample_parse false (Some codegen) true
      (Some (with_body (streamed [])
               [(data start_frame ++ line_feed)%string])).
Proof.
  apply (unterminated_line_is_dropped sample_parse false (Some codegen)
           (streamed []) [(data start_frame ++ line_feed)%string]
           (data done_frame)); reflexivity.
Defined.
End ReadingExamples.


Section Frames2.
Import Sdk SdkProps SdkViews.

Local Open Scope string_scope.

Variable JSON_parse : string -> option Json.
Variable handlerIsFunction : bool.
Variable messageType : option MessageType.

(** X13: the first [done], [error] or [null] frame decides the request,
    and nothing after it is looked at: the handler calls are those of the
    lines before it, [done] resolves with the result collected so far plus
    its token usage and session id, [error] rejects with a [CodegenError]
    of its name and reason, [null] with a [TypeError]. *)
Theorem first_stopping_frame_decides (response : HttpResponse)
    (values : list string) (before after : list string) (line : string) :
  ok response = true ->
  complete_lines (join values) = (before ++ line :: after)%list ->
  forallb (fun l => negb (stops JSON_parse l)) before = true ->
  stops JSON_parse line = true ->
  exists l,
    onLines JSON_parse handlerIsFunction messageType
      (normalizeJobType (jobTypeHeader response)) before
      (mkLoop empty_result []) = Next l
    /\ processGenerationRequest JSON_parse handlerIsFunction messageType true
         (Some (with_body response values))
       = match JSON_parse (slice 6 line) with
         | Some (json_message (msg_done tu sid)) =>
             mkRun (Resolves (set_sessionId (Some sid)
                                (set_tokenUsage (Some tu) (result l))))
               (calls l) 1
         | Some (json_message (msg_error errorName reason)) =>
             mkRun (Rejects (thrown_CodegenError
                               (CodegenError.new errorName reason None None)))
               (calls l) 1
         | _ => mkRun (Rejects thrown_TypeError) (calls l) 1
         end.
Proof.
  intros Hok Hlines Hbefore Hline.
  destruct (onLines_go_on JSON_parse handlerIsFunction messageType
              (normalizeJobType (jobTypeHeader response)) before
              (mkLoop empty_result []) Hbefore) as (l & Hl).
  exists l. split; [exact Hl|].
  rewrite (request_reads_lines _ _ _ (with_body response values) values)
    by first [reflexivity | exact Hok].
  cbn [with_body jobTypeHeader]. rewrite Hlines, onLines_app, Hl.
  cbn [onLines]. unfold stops in Hline. unfold onLine.
  destruct (blank line || startsWith ":" line); [discriminate|].
  destruct (startsWith "data: " line); [|discriminate].
  cbn [negb andb] in Hline.
  destruct (JSON_parse (slice 6 line)) as [[|data]|]; try discriminate;
    [reflexivity|].
  destruct data; try discriminate; reflexivity.
Qed.

(** What holds of the loop state and is kept by every message holds when
    the reading ends. *)
Lemma readLoop_ends_in (P Q : Loop -> Prop) (normalizedJobType : option JobTypeValue) :
  (forall data l, P l ->
     ends_in P Q (onMessage handlerIsFunction messageType normalizedJobType
                    data l)) ->
  forall reads buffer l, P l ->
    ends_in P Q (readLoop JSON_parse handlerIsFunction messageType
                   normalizedJobType reads buffer l).
Proof.
  intros Hmessage.
  assert (Hline : forall line l, P l ->
            ends_in P Q (onLine JSON_parse handlerIsFunction messageType
                           normalizedJobType line l)).
  { intros line l Hl. unfold onLine.
    repeat case_match; cbn; auto. }
  assert (Hlines : forall lines l, P l ->
            ends_in P Q (onLines JSON_parse handlerIsFunction messageType
                           normalizedJobType lines l)).
  { induction lines as [|line lines IH]; intros l Hl; [exact Hl|].
    cbn [onLines]. specialize (Hline line l Hl).
    destruct (onLine _ _ _ _ line l); cbn in *; auto. }
  induction reads as [|[value|] reads IH]; intros buffer l Hl; cbn; auto.
  specialize (Hlines (removelast (split (buffer ++ value))) l Hl).
  destruct (onLines _ _ _ _ _ l); cbn in *; auto.
Qed.

(** X14: a request that resolves was authorised, got an [ok] response,
    cancelled its reader once, and its result carries the token usage and
    the session id of a [done] frame: whatever else is missing, these two
    are there. *)
Theorem resolved_result_comes_from_done (hasAuth : bool)
    (fetched : option HttpResponse) (r : AnimaSDKResult) :
  outcome (processGenerationRequest JSON_parse handlerIsFunction messageType
             hasAuth fetched) = Resolves r ->
  hasAuth = true
  /\ (exists response, fetched = Some response /\ ok response = true)
  /\ cancels (processGenerationRequest JSON_parse handlerIsFunction
                messageType hasAuth fetched) = 1%nat
  /\ (exists tu, tokenUsage r = Some tu)
  /\ (exists sid, sessionId r = Some sid).
Proof.
  unfold processGenerationRequest.
  destruct hasAuth; [|discriminate]. cbn [negb].
  destruct fetched as [response|]; [|discriminate].
  destruct (ok response) eqn:Hok; [|discriminate]. cbn [negb].
  destruct (body response) as [reads|]; [|discriminate].
  pose proof (readLoop_ends_in (fun _ => True)
                (fun l => (exists tu, tokenUsage (result l) = Some tu)
                          /\ exists sid, sessionId (result l) = Some sid)
                (normalizeJobType (jobTypeHeader response))) as H.
  specialize (H ltac:(intros data l _; destruct data; cbn;
                        repeat case_match; cbn; eauto)
                reads "" (mkLoop empty_result []) I).
  destruct (readLoop _ _ _ _ reads "" _) as [l|l|e l]; try discriminate.
  intros [= <-]. cbn in H. destruct H as [Htu Hsid].
  repeat split; eauto.
Qed.

(** X15: in the flows that are not code generation from Figma (website,
    prompt, attaching to a job), [pre_codegen] and [figma_metadata] frames
    have no effect: the handler is never called for them and the result
    never carries a Figma file or frame name. *)
Theorem figma_frames_only_in_codegen (hasAuth : bool)
    (fetched : option HttpResponse) :
  messageType <> Some codegen ->
  let run := processGenerationRequest JSON_parse handlerIsFunction
               messageType hasAuth fetched in
  forallb (fun c => negb (from_figma_flow c)) (handled run) = true
  /\ forall r, outcome run = Resolves r ->
       figmaFileName r = None /\ figmaSelectedFrameName r = None.
Proof.
  intros Hflow.
  assert (Hgate : isCodegen messageType = false)
    by (destruct messageType as [[| |]|]; try reflexivity; contradiction).
  set (P := fun l : Loop =>
              forallb (fun c => negb (from_figma_flow c)) (calls l) = true
              /\ figmaFileName (result l) = None
              /\ figmaSelectedFrameName (result l) = None).
  assert (Hloop : forall jt reads,
            ends_in P P (readLoop JSON_parse handlerIsFunction messageType jt
                           reads "" (mkLoop empty_result []))).
  { intros jt reads. apply readLoop_ends_in; [|repeat split; reflexivity].
    intros data l (Hcalls & Hname & Hframe). unfold P.
    destruct data; cbn [onMessage]; rewrite ?Hgate; cbn [ends_in];
      try match goal with st : GeneratingStatus |- _ => destruct st end;
      unfold call; cbn [calls result on_result]; rewrite ?forallb_app, ?Hcalls;
      destruct handlerIsFunction; cbn; auto. }
  cbn zeta. unfold processGenerationRequest.
  destruct hasAuth; [|split; [reflexivity | discriminate]]. cbn [negb].
  destruct fetched as [response|]; [|split; [reflexivity | discriminate]].
  destruct (ok response); cbn [negb];
    [|split; [reflexivity | discriminate]].
  destruct (body response) as [reads|];
    [|split; [reflexivity | discriminate]].
  specialize (Hloop (normalizeJobType (jobTypeHeader response)) reads).
  destruct (readLoop _ _ _ _ reads "" _) as [l|l|e l]; cbn in *;
    destruct Hloop as (Hcalls & Hname & Hframe);
    (split; [exact Hcalls|]); intros r [= <-]; auto.
Qed.

(** X16: the handler is never given an [error] or a [done] message, nor a
    message of a type the loop has no case for (so never [aborted]):
    these end the request or are dropped before the handler is reached. *)
Theorem handler_never_sees_the_end (hasAuth : bool)
    (fetched : option HttpResponse) :
  forallb (fun c => negb (hands_over_the_end c))
    (handled (processGenerationRequest JSON_parse handlerIsFunction
                messageType hasAuth fetched)) = true.
Proof.
  set (P := fun l : Loop =>
              forallb (fun c => negb (hands_over_the_end c)) (calls l) = true).
  assert (Hloop : forall jt reads,
            ends_in P P (readLoop JSON_parse handlerIsFunction messageType jt
                           reads "" (mkLoop empty_result []))).
  { intros jt reads. apply readLoop_ends_in; [|reflexivity].
    intros data l Hcalls. unfold P in *.
    destruct data; cbn [onMessage]; repeat case_match; cbn [ends_in];
      unfold call; cbn [calls result on_result];
      rewrite ?forallb_app, ?Hcalls;
      destruct handlerIsFunction; cbn; auto. }
  unfold processGenerationRequest.
  destruct hasAuth; [|reflexivity]. cbn [negb].
  destruct fetched as [response|]; [|reflexivity].
  destruct (ok response); cbn [negb]; [|reflexivity].
  destruct (body response) as [reads|]; [|reflexivity].
  specialize (Hloop (normalizeJobType (jobTypeHeader response)) reads).
  destruct (readLoop _ _ _ _ reads "" _) as [l|l|e l]; exact Hloop.
Qed.
End Frames2.

Section FramesExamples.
Import Sdk SdkProps SdkViews.

Lemma first_stopping_frame_decides_witness :
  exists l,
    onLines sample_parse false (Some codegen) None [data start_frame]
      (mkLoop empty_result []) = Next l
    /\ processGenerationRequest sample_parse false (Some codegen) true
         (Some (with_body (streamed []) [two_frames]))
       = mkRun (Resolves (set_sessionId (Some "session")
                            (set_tokenUsage (Some 10) (result l))))
           (calls l) 1.
Proof.
  exact (first_stopping_frame_decides sample_parse false (Some codegen)
           (streamed []) [two_frames] [data start_frame] []
           (data done_frame) eq_refl eq_refl eq_refl eq_refl).
Defined.

Lemma resolved_result_comes_from_done_witness :
  cancels (processGenerationRequest sample_parse false (Some codegen) true
             (Some (streamed [two_frames]))) = 1%nat.
Proof.
  destruct (resolved_result_comes_from_done sample_parse false (Some codegen)
              true (Some (streamed [two_frames]))
              (mkResult (Some "session") None None (Some 10) None None)
              eq_refl) as (_ & _ & H & _).
  exact H.
Defined.

Lemma figma_frames_only_in_codegen_witness :
  forallb (fun c => negb (from_figma_flow c))
    (handled (processGenerationRequest sample_parse false (Some l2c) true
                (Some (streamed [two_frames])))) = true.
Proof.
  exact (proj1 (figma_frames_only_in_codegen sample_parse false (Some l2c)
                  true (Some (streamed [two_frames]))
                  ltac:(discriminate))).
Defined.
End FramesExamples.


(** ** Finding and validating Figma nodes *)

Section Nodes.
Import Figma.

(** Induction on a node with the property known of all its children. *)
Lemma FigmaNode_children_ind (P : FigmaNode -> Prop) :
  (forall id type children,
     Forall P children -> P (Node id type children)) ->
  forall node, P node.
Proof.
  intros H. fix IH 1. intros [id type children]. apply H.
  induction children as [|child children IHc]; constructor;
    [apply IH | exact IHc].
Qed.

(** X17: [findChildrenNode] returns the first node with the wanted id in
    document order (the node itself, then its children's trees from first
    to last), and [null] exactly when the tree holds no such node. *)
Theorem findChildrenNode_is_first_in_document_order (node : FigmaNode)
    (targetNodeId : string) :
  findChildrenNode node targetNodeId
  = List.find (fun n => String.eqb (node_id n) targetNodeId) (preorder node).
Proof.
  induction node as [id type children IH] using FigmaNode_children_ind.
  cbn [findChildrenNode preorder List.find node_id].
  destruct (String.eqb id targetNodeId); [reflexivity|].
  induction IH as [|child children Hchild _ IHchildren]; [reflexivity|].
  rewrite Hchild, IHchildren.
  generalize (preorder child). intros l.
  induction l as [|n l IHl]; [reflexivity|].
  cbn [app List.find]. destruct (String.eqb (node_id n) targetNodeId);
    [reflexivity | exact IHl].
Qed.

Lemma findChildrenNode_found (node found : FigmaNode) (targetNodeId : string) :
  findChildrenNode node targetNodeId = Some found ->
  In found (preorder node) /\ node_id found = targetNodeId.
Proof.
  rewrite findChildrenNode_is_first_in_document_order. intros H.
  apply List.find_some in H as [Hin Hid]. split; [exact Hin|].
  now apply String.eqb_eq.
Qed.

(** X18: a node that [isNodeCodegenCompatible] accepts is always of a
    supported type. Without a note it is the node with the given id;
    with a note the id names a page ([CANVAS]) and the node is one of the
    page's children, the first of a supported type. *)
Theorem compatible_node_is_supported (document : FigmaNode)
    (nodeId : string) (allowAutoSelectFirstNode : bool)
    (node : FigmaNode) (note : option Note) :
  isNodeCodegenCompatible document nodeId allowAutoSelectFirstNode
  = is_valid node note ->
  has_valid_type node = true
  /\ match note with
     | None =>
         findChildrenNode document nodeId = Some node
         /\ node_id node = nodeId
     | Some _ =>
         exists page,
           findChildrenNode document nodeId = Some page
           /\ node_type page = "CANVAS"
           /\ List.hd_error (List.filter has_valid_type (node_children page))
              = Some node
     end.
Proof.
  unfold isNodeCodegenCompatible.
  destruct (findChildrenNode document nodeId) as [found|] eqn:Hfound;
    [|discriminate].
  destruct (String.eqb_spec (node_type found) "CANVAS") as [Hpage|Hpage].
  - destruct (List.filter has_valid_type (node_children found))
      as [|child [|child' rest]] eqn:Hchildren; [discriminate| |].
    + intros [= <- <-].
      assert (Hin : In child (List.filter has_valid_type
                                (node_children found)))
        by (rewrite Hchildren; now left).
      apply List.filter_In in Hin as [_ Hvalid].
      split; [exact Hvalid|]. exists found. rewrite Hchildren. auto.
    + destruct allowAutoSelectFirstNode; [|discriminate].
      intros [= <- <-].
      assert (Hin : In child (List.filter has_valid_type
                                (node_children found)))
        by (rewrite Hchildren; now left).
      apply List.filter_In in Hin as [_ Hvalid].
      split; [exact Hvalid|]. exists found. rewrite Hchildren. auto.
  - destruct (has_valid_type found) eqn:Hvalid; [|discriminate].
    intros [= <- <-]. split; [exact Hvalid|].
    split; [reflexivity|]. now apply (findChildrenNode_found document).
Qed.

(** X19: why a node is refused. "There is no node with the given id"
    means just that: no node of the document has the id. And with
    [allowAutoSelectFirstNode] a page is never refused for having several
    children. *)
Theorem refusal_reasons (document : FigmaNode) (nodeId : string)
    (allowAutoSelectFirstNode : bool) :
  (isNodeCodegenCompatible document nodeId allowAutoSelectFirstNode
   = not_valid no_node_with_the_given_id
   <-> forall n, In n (preorder document) -> node_id n <> nodeId)
  /\ (allowAutoSelectFirstNode = true ->
      isNodeCodegenCompatible document nodeId allowAutoSelectFirstNode
      <> not_valid page_with_multiple_children).
Proof.
  unfold isNodeCodegenCompatible.
  rewrite findChildrenNode_is_first_in_document_order. split.
  - destruct (List.find _ (preorder document)) as [found|] eqn:Hfind.
    + split.
      * repeat case_match; discriminate.
      * intros Hnone. apply List.find_some in Hfind as [Hin Hid].
        apply String.eqb_eq in Hid. now destruct (Hnone found Hin).
    + split; [|reflexivity]. intros _ n Hin Hid.
      pose proof (List.find_none _ _ Hfind n Hin) as Hn. cbn in Hn.
      apply String.eqb_neq in Hn. contradiction.
  - intros ->. repeat case_match; discriminate.
Qed.

(** X20: [#checkGivenNodeIsValid] throws exactly when one of the node ids
    is refused, always a [CodegenError] named "Task Crashed" whose message
    is the reason for the first refused id; an empty list of ids passes. *)
Theorem checkGivenNodeIsValid_reports_first_refusal (document : FigmaNode)
    (nodesId : list string) (allowAutoSelectFirstNode : bool) :
  match checkGivenNodeIsValid document nodesId allowAutoSelectFirstNode with
  | None =>
      forall nodeId, In nodeId nodesId ->
        isValid (isNodeCodegenCompatible document nodeId
                   allowAutoSelectFirstNode) = true
  | Some e =>
      exists before nodeId after reason,
        nodesId = before ++ nodeId :: after
        /\ (forall id, In id before ->
              isValid (isNodeCodegenCompatible document id
                         allowAutoSelectFirstNode) = true)
        /\ isNodeCodegenCompatible document nodeId allowAutoSelectFirstNode
           = not_valid reason
        /\ e = CodegenError.new "Task Crashed" (reason_text reason) None None
  end.
Proof.
  unfold checkGivenNodeIsValid.
  induction nodesId as [|nodeId nodesId IH]; [intros ? []|].
  cbn [map List.find].
  destruct (isNodeCodegenCompatible document nodeId allowAutoSelectFirstNode)
    as [node note|reason] eqn:Hfirst; cbn [isValid negb].
  - destruct (List.find _ _) as [[node' note'|reason]|].
    + intros id [<-|Hin]; [now rewrite Hfirst | now apply IH].
    + destruct IH as (before & id & after & reason' & -> & Hbefore & Hid & He).
      exists (nodeId :: before), id, after, reason'.
      repeat split; auto.
      intros id' [<-|Hin]; [now rewrite Hfirst | now apply Hbefore].
    + intros id [<-|Hin]; [now rewrite Hfirst | now apply IH].
  - exists [], nodeId, nodesId, reason. repeat split; auto; intros ? [].
Qed.

(** X21: [generateCode] checks the node ids only when it could fetch the
    Figma file: then a refused id throws before the Anima API is called.
    When fetching the file failed (other than by an abort) the ids are not
    checked and the request is made. An abort is rethrown, and settings
    that do not validate throw, before anything else. *)
Theorem generateCode_checks_nodes_of_a_fetched_design
    (JSON_parse : string -> option Sdk.Json) (handlerIsFunction : bool)
    (getFile : DesignFetch) (settings : option (option bool))
    (nodesId : list string) (hasAuth : bool)
    (fetched : option Sdk.HttpResponse) :
  let ending := generateCode JSON_parse handlerIsFunction getFile settings
                  nodesId hasAuth fetched in
  (forall e,
     ending = throws_invalid_node e
     <-> exists document allow,
           getFile = design document
           /\ settings = Some allow
           /\ checkGivenNodeIsValid document nodesId (nullish allow true)
              = Some e)
  /\ (getFile = other_error -> settings <> None ->
      ending = requests (Sdk.processGenerationRequest JSON_parse
                           handlerIsFunction (Some Sdk.codegen)
                           hasAuth fetched))
  /\ (ending = rethrows_AbortError <-> getFile = AbortError).
Proof.
  cbn zeta. unfold generateCode. repeat split.
  - destruct getFile as [document| |]; try discriminate;
      destruct settings as [allow|]; try discriminate.
    + destruct (checkGivenNodeIsValid _ _ _) eqn:Hcheck; [|discriminate].
      intros [= ->]. eauto.
  - intros (document & allow & -> & -> & ->). reflexivity.
  - intros -> Hsettings. destruct settings; [reflexivity | contradiction].
  - destruct getFile; [|reflexivity|]; repeat case_match; discriminate.
  - intros ->. reflexivity.
Qed.
End Nodes.

Section NodesExamples.
Import Figma.

Lemma compatible_node_is_supported_witness :
  has_valid_type (Node "1:2" "FRAME" []) = true.
Proof.
  exact (proj1 (compatible_node_is_supported one_page "1:2" false
                  (Node "1:2" "FRAME" []) None eq_refl)).
Defined.
End NodesExamples.


(** * The Figma REST client *)

Section Rest.
Import FigmaRestApi.

Lemma unretried_ends_the_run cb a rest :
  is_retried cb a = false ->
  doRequest (Some cb) (a :: rest) = doRequest (Some cb) [a]
  /\ requests (doRequest (Some cb) [a]) = 1%nat.
Proof.
  destruct a as [[response|] wait]; cbn [doRequest is_retried]; [|auto].
  destruct (ok response); cbn [negb andb]; [auto|].
  destruct (status response =? 403)%Z eqn:E403; [auto|].
  destruct (status response =? 404)%Z eqn:E404; [auto|].
  destruct (status response =? 429)%Z eqn:E429; cbn [andb].
  - destruct (retryAfterHeader response) as [[|p|p]|]; auto;
      destruct wait; cbn [andb]; intros Hcb;
      solve [rewrite Hcb; auto | destruct (cb _); auto].
  - destruct ((status response =? 500)%Z && _); auto.
Qed.

(** X22 (FigmaRestApi.ts, [#doRequest]): a run goes through the
    rate-limited responses that the callback accepts to retry and whose
    timer fires, and ends at the first attempt that is not one of them:
    that attempt alone decides the outcome, the callback has been asked
    once for each retry before it, one request was made for each, and
    what would come after is never requested. *)
Theorem doRequest_stops_at_first_unretried cb retried a rest :
  forallb (is_retried cb) retried = true ->
  is_retried cb a = false ->
  let last := doRequest (Some cb) [a] in
  doRequest (Some cb) (retried ++ a :: rest)
  = mkRun (outcome last) (S (length retried))
      (concat (map asks_of retried) ++ asked last).
Proof.
  intros Hretried Ha last; subst last.
  induction retried as [|r retried IH].
  - cbn [app length concat map].
    destruct (unretried_ends_the_run cb a rest Ha) as [-> Hone].
    destruct (doRequest (Some cb) [a]) as [o n q]; cbn in *; congruence.
  - cbn [forallb] in Hretried; apply andb_prop in Hretried as [Hr Hrest].
    specialize (IH Hrest).
    cbn [app length concat map].
    destruct r as [[response|] wait]; cbn [is_retried] in Hr; [|discriminate].
    destruct wait; try discriminate.
    apply andb_prop in Hr as [Hr Hcb]; apply andb_prop in Hr as [Hok H429].
    cbn [doRequest asks_of].
    destruct (ok response); [discriminate|].
    assert (status response = 429) as Hs by (apply Z.eqb_eq; exact H429).
    rewrite Hs; cbn [Z.eqb Pos.eqb].
    destruct (retryAfterHeader response) as [[|p|p]|]; try discriminate;
      rewrite Hcb, IH; reflexivity.
Qed.

Lemma doRequest_stops_at_first_unretried_witness :
  doRequest (Some patient)
    ([rate_limited 1; rate_limited 2] ++ answered :: [rate_limited 3])
  = mkRun (outcome (doRequest (Some patient) [answered])) 3
      (concat (map asks_of [rate_limited 1; rate_limited 2])
       ++ asked (doRequest (Some patient) [answered])).
Proof.
  apply (doRequest_stops_at_first_unretried patient
           [rate_limited 1; rate_limited 2] answered [rate_limited 3]);
    reflexivity.
Defined.

(** X23 (FigmaRestApi.ts, [#doRequest]; figmaError.ts,
    [getFigmaApiErrorType]): without [onRateLimited], a response that is
    not [ok] is answered by one request and no retry, and for every
    status but 403 the error that is thrown is given, by its message,
    the type that belongs to the status: 404, 429, 500 with [Request too
    large] in the body, and any other. [isFigmaTokenIssue] is taken to
    recognise no error but [FigmaTokenIssue]. *)
Theorem failed_response_is_classified isFigmaTokenIssue other response wait rest :
  (forall e, e <> FigmaTokenIssue -> isFigmaTokenIssue e = false) ->
  ok response = false ->
  status response <> 403 ->
  exists e,
    doRequest None ((Some response, wait) :: rest) = mkRun (rejected e) 1 []
    /\ getFigmaApiErrorType isFigmaTokenIssue other e = type_of_status response.
Proof.
  intros Hno Hok H403.
  unfold type_of_status; cbn [doRequest]; rewrite Hok.
  destruct (status response =? 403)%Z eqn:E403;
    [apply Z.eqb_eq in E403; contradiction|].
  destruct (status response =? 404)%Z.
  { eexists; split; reflexivity. }
  destruct (status response =? 429)%Z.
  { destruct (retryAfterHeader response) as [[|p|p]|];
      eexists; split; reflexivity. }
  destruct ((status response =? 500)%Z && _);
    eexists; (split; [reflexivity|]);
    unfold getFigmaApiErrorType; cbn [message String.eqb Ascii.eqb Bool.eqb];
    rewrite Hno by discriminate; reflexivity.
Qed.

Lemma failed_response_is_classified_witness :
  exists e,
    doRequest None [(too_large, timer_fires)] = mkRun (rejected e) 1 []
    /\ getFigmaApiErrorType only_token_issues (fun _ => "") e
       = type_RequestTooLarge.
Proof.
  apply (failed_response_is_classified only_token_issues (fun _ => "")
           (mkResponse false 500 (Some "Request too large") None None None)
           timer_fires []).
  - intros e He; destruct e; try reflexivity; contradiction.
  - reflexivity.
  - cbn; lia.
Defined.

(** X24 (FigmaRestApi.ts, [withOptions], [#get], [getHeaders]): the
    options given to [withOptions] last for one request: that request
    carries the token of the options if they have one, the default token
    if they have none or an [undefined] one, and the request after it
    carries the default token again. *)
Theorem withOptions_lasts_one_request api options attempts attempts' :
  nextOptions api = defaultOptions api ->
  let default := read (token (defaultOptions api)) in
  let '(api1, headers1, _) := get (withOptions options api) attempts in
  let '(_, headers2, _) := get api1 attempts' in
  headers1 = getHeaders default (read (token options))
  /\ headers2 = getHeaders default None.
Proof.
  intros Hfresh default; subst default.
  destruct api as [d n]; cbn in Hfresh; subst n.
  unfold get, withOptions; cbn [nextOptions defaultOptions].
  assert (getHeaders (read (token d)) (read (token (spread (spread d d) options)))
          = getHeaders (read (token d)) (read (token options))) as E1.
  { unfold spread; cbn [token].
    destruct (token options) as [v|]; [reflexivity|].
    destruct (token d) as [[t|]|]; reflexivity. }
  assert (getHeaders (read (token d)) (read (token d))
          = getHeaders (read (token d)) None) as E2.
  { destruct (token d) as [[t|]|]; reflexivity. }
  rewrite E1.
  destruct (getHeaders (read (token d)) (read (token options)));
    cbn [nextOptions defaultOptions]; rewrite E2;
    destruct (getHeaders (read (token d)) None); auto.
Qed.

Lemma withOptions_lasts_one_request_witness :
  (get (withOptions (mkOptions (Some (Some "figu_once")) None) fresh) []).1.2
  = getHeaders (Some "figd_default") (Some "figu_once")
  /\ (get (get (withOptions (mkOptions (Some (Some "figu_once")) None) fresh)
            []).1.1 []).1.2
     = getHeaders (Some "figd_default") None.
Proof.
  pose proof (withOptions_lasts_one_request fresh
                (mkOptions (Some (Some "figu_once")) None) [] [] eq_refl) as H.
  exact H.
Defined.

(** X25 (FigmaRestApi.ts, constructor, [#get], [getHeaders]): an
    instance that the constructor accepted with a token sends that token
    with a request made without other options, in one of the two
    headers, and so does not throw [MissingFigmaToken]. *)
Theorem accepted_token_is_sent defaults api t attempts :
  create defaults = returns api ->
  truthy_token defaults = Some t ->
  exists headers,
    (get api attempts).1.2 = returns headers
    /\ (headers !! "X-FIGMA-TOKEN" = Some t /\ headers !! "Authorization" = None
        \/ headers !! "X-FIGMA-TOKEN" = None
           /\ headers !! "Authorization" = Some ("Bearer " ++ t)%string).
Proof.
  unfold create; intros Hcreate Htoken; rewrite Htoken in Hcreate.
  destruct (ensureValidToken t) eqn:Hvalid; [|discriminate].
  injection Hcreate as <-.
  unfold truthy_token in Htoken.
  destruct (read (token defaults)) as [t'|] eqn:Hread; [|discriminate].
  destruct (String.eqb t' ""); [discriminate|].
  injection Htoken as ->.
  unfold get; cbn [nextOptions defaultOptions]; rewrite Hread.
  unfold getHeaders, ensureValidToken in *.
  destruct (String.prefix "figd_" t) eqn:Hd.
  - eexists; split; [reflexivity|]. left; split; reflexivity.
  - cbn [orb] in Hvalid; rewrite Hvalid.
    eexists; split; [reflexivity|]. right; split; reflexivity.
Qed.

Lemma accepted_token_is_sent_witness :
  exists headers,
    (get fresh []).1.2 = returns headers
    /\ (headers !! "X-FIGMA-TOKEN" = Some "figd_default"
        /\ headers !! "Authorization" = None
        \/ headers !! "X-FIGMA-TOKEN" = None
           /\ headers !! "Authorization"
              = Some ("Bearer " ++ "figd_default")%string).
Proof.
  apply (accepted_token_is_sent
           (mkOptions (Some (Some "figd_default")) None) fresh
           "figd_default" []); reflexivity.
Defined.

Lemma getNodeImages_fold images fetch nodeIds
    (acc : gmap string (option string)) id :
  fold_left
    (fun acc nodeId => <[nodeId := downloadImage images fetch nodeId]> acc)
    nodeIds acc !! id
  = if bool_decide (id ∈ nodeIds) then Some (downloadImage images fetch id)
    else acc !! id.
Proof.
  revert acc; induction nodeIds as [|n nodeIds IH]; intros acc.
  - cbn. rewrite bool_decide_eq_false_2; [reflexivity|]. apply not_elem_of_nil.
  - cbn [fold_left]; rewrite IH.
    destruct (decide (id ∈ nodeIds)) as [Hin|Hout].
    + rewrite !bool_decide_eq_true_2; auto. apply elem_of_cons; auto.
    + rewrite (bool_decide_eq_false_2 _ Hout).
      destruct (decide (id = n)) as [->|Hne].
      * rewrite bool_decide_eq_true_2 by (apply elem_of_cons; auto).
        apply lookup_insert_eq.
      * rewrite bool_decide_eq_false_2.
        -- apply lookup_insert_ne; congruence.
        -- intros [?|?]%elem_of_cons; contradiction.
Qed.

(** X26 (FigmaRestApi.ts, [getNodeImages]): the result has an entry for
    each node that was asked for and for no other; the entry is the
    downloaded image, and [null] when the node has no link, the download
    is rejected, its response is not [ok], or its body cannot be
    read. *)
Theorem getNodeImages_covers_the_nodes images fetch nodeIds id :
  getNodeImages images fetch nodeIds !! id
  = if bool_decide (id ∈ nodeIds) then Some (downloadImage images fetch id)
    else None.
Proof.
  unfold getNodeImages; rewrite getNodeImages_fold.
  destruct (bool_decide _); [reflexivity|apply lookup_empty].
Qed.

End Rest.

(** * The generation stream and its HTTP reply *)

Section Streams.
Import Sdk SdkViews DataStream.

Variable JSON_parse : string -> option Json.
Variable messageType : option MessageType.
Variable describe : Thrown -> string * string.

Lemma function_handler_calls (hasAuth : bool) (fetched : option HttpResponse) :
  forallb passes
    (handled (processGenerationRequest JSON_parse true messageType hasAuth
                fetched)) = true.
Proof.
  set (P := fun l : Loop => forallb passes (calls l) = true).
  assert (Hloop : forall jt reads,
            ends_in P P (readLoop JSON_parse true messageType jt
                           reads "" (mkLoop empty_result []))).
  { intros jt reads. apply readLoop_ends_in; [|reflexivity].
    intros data l Hcalls. unfold P in *.
    destruct data; cbn [onMessage]; repeat case_match; cbn [ends_in];
      unfold call; cbn [calls result on_result];
      rewrite ?forallb_app, ?Hcalls; cbn; auto. }
  unfold processGenerationRequest.
  destruct hasAuth; [|reflexivity]. cbn [negb].
  destruct fetched as [response|]; [|reflexivity].
  destruct (ok response); [|reflexivity]. cbn [negb].
  destruct (body response) as [reads|]; [|reflexivity].
  specialize (Hloop (normalizeJobType (jobTypeHeader response)) reads).
  destruct (readLoop _ _ _ _ reads "" _) as [l|l|e l]; exact Hloop.
Qed.

Lemma on_message_passes (cs : list HandlerCall) (ctl : Controller) :
  forallb passes cs = true ->
  closed ctl = false ->
  fold_left on_message cs ctl
  = mkController (queue ctl ++ map forwarded cs) false (threw ctl).
Proof.
  revert ctl; induction cs as [|c cs IH]; intros ctl Hcs Hopen.
  - cbn. rewrite app_nil_r. destruct ctl; cbn in *; congruence.
  - cbn [forallb] in Hcs; apply andb_prop in Hcs as [Hc Hcs].
    cbn [fold_left map].
    assert (on_message ctl c
            = mkController (queue ctl ++ [forwarded c]) false (threw ctl)) as ->.
    { unfold on_message, passes in *.
      destruct (message_of c) as [data|]; [|discriminate].
      apply andb_prop in Hc as [He Ha].
      apply negb_true_iff in He, Ha. rewrite He, Ha. cbn [orb].
      unfold enqueue. rewrite Hopen. reflexivity. }
    rewrite IH by auto. cbn [queue threw]. now rewrite <- app_assoc.
Qed.

Lemma stream_of_request (hasAuth : bool) (fetched : option HttpResponse) :
  let run := processGenerationRequest JSON_parse true messageType hasAuth
               fetched in
  createGenerationStream describe run
  = mkController
      (map forwarded (handled run) ++ [closing describe (outcome run)])
      true false.
Proof.
  intros run. unfold createGenerationStream.
  rewrite on_message_passes
    by first [apply function_handler_calls | reflexivity].
  reflexivity.
Qed.

(** X27 (dataStream.ts, [createGenerationStream]; anima.ts,
    [#processGenerationRequest]): the stream of a generation request
    carries every message the handler was called with, in order, then
    one closing message ([done] with the token usage and session id of
    the result, or [error] with the payload of what was thrown), and is
    closed once, after it; the handler itself never closes the stream
    and nothing is enqueued after the close. *)
Theorem stream_forwards_then_closes (hasAuth : bool)
    (fetched : option HttpResponse) :
  createGenerationStream describe
    (processGenerationRequest JSON_parse true messageType hasAuth fetched)
  = mkController
      (map forwarded
         (handled (processGenerationRequest JSON_parse true messageType
                     hasAuth fetched))
       ++ [closing describe
             (outcome (processGenerationRequest JSON_parse true messageType
                         hasAuth fetched))])
      true false.
Proof. apply stream_of_request. Qed.

(** X28 (dataStream.ts, [createResponseEventStream] over
    [createGenerationStream]): the reply is a JSON body exactly when the
    request threw, before any message reached the handler, a
    [CodegenError] that has a status other than 0, and the constructor
    of [Response] accepts that status with a body; the reply then has
    that status. The constructor throws a [RangeError] for such a status
    outside 200..599 and a [TypeError] for 204, 205 and 304, so no reply
    is made. In every other case the reply is an event stream with one
    frame for each message of the stream, a late or status-less error
    being its last frame. *)
Theorem reply_is_json_for_an_early_error_with_status (hasAuth : bool)
    (fetched : option HttpResponse) :
  let run := processGenerationRequest JSON_parse true messageType hasAuth
               fetched in
  let stream := queue (createGenerationStream describe run) in
  let early_status (s : Z) :=
    handled run = []
    /\ exists e, outcome run = Rejects (thrown_CodegenError e)
                 /\ CodegenError.status e = Some s /\ s <> 0 in
  match createResponseEventStream stream with
  | json_reply s body =>
      early_status s /\ 200 <= s <= 599 /\ null_body_status s = false
      /\ body = Some (closing describe (outcome run))
  | throws_RangeError => exists s, early_status s /\ ~ 200 <= s <= 599
  | throws_TypeError =>
      exists s, early_status s /\ 200 <= s <= 599
                /\ null_body_status s = true
  | event_stream frames =>
      map snd frames = stream
      /\ length frames = S (length (handled run))
      /\ ~ exists s, early_status s
  end.
Proof.
  intros run stream early_status; subst stream early_status.
  pose proof (stream_of_request hasAuth fetched) as Hstream.
  cbn zeta in Hstream. fold run in Hstream. rewrite Hstream. cbn [queue].
  destruct (handled run) as [|c cs] eqn:Hhandled.
  - cbn [map app]. unfold createResponseEventStream.
    destruct (outcome run) as [r|e] eqn:Houtcome; cbn [closing].
    { cbn. repeat split. intros (s & _ & e & He & _); discriminate. }
    destruct e as [e| | | |]; cbn [payload_of status];
      try (cbn; repeat split;
           intros (s & _ & e' & [= <-] & _); fail).
    destruct (CodegenError.status e) as [s|] eqn:Hs.
    + destruct (s =? 0)%Z eqn:E0.
      * apply Z.eqb_eq in E0; subst s. cbn. repeat split.
        intros (s & _ & e' & [= <-] & Hs' & Hne). congruence.
      * apply Z.eqb_neq in E0.
        destruct ((200 <=? s)%Z && (s <=? 599)%Z) eqn:Er; cbn [negb].
        -- apply andb_prop in Er as [H1 H2].
           apply Z.leb_le in H1, H2.
           destruct (null_body_status s) eqn:Hnull.
           ++ exists s. repeat split; eauto.
           ++ repeat split; eauto.
        -- exists s. split; [repeat split; eauto|].
           intros [H1 H2]. apply Z.leb_le in H1, H2.
           rewrite H1, H2 in Er; discriminate.
    + cbn. repeat split.
      intros (s & _ & e' & [= <-] & Hs' & _). congruence.
  - unfold createResponseEventStream. cbn [map app].
    rewrite map_map; cbn [snd]. rewrite map_id.
    repeat split.
    + cbn [length]. rewrite length_map, !length_app, length_map. cbn; lia.
    + intros (s & Hnil & _); discriminate.
Qed.

(** An [ok] response with status 204 has no body: the request throws
    "Stream Error" with that status, and no reply can be made of it. *)
Lemma no_content_reply_throws :
  createResponseEventStream
    (queue (createGenerationStream describe
              (processGenerationRequest JSON_parse true messageType true
                 (Some (mkHttpResponse true 204 "" body_text None None)))))
  = throws_TypeError.
Proof. reflexivity. Qed.

End Streams.

(** * The provider across calls *)

Section Calls.
Import Job Provider.

Variables f2cUrl l2cUrl p2cUrl : string.
Variable arrayBufferToBase64 : string -> string.
Variable fetch : string -> Job.Download.
Variable typeErrorText : string.
Variable server : string -> option Job.FetchPromise * list Job.StreamEvent.

Local Abbreviation createJob :=
  (Provider.createJob f2cUrl l2cUrl p2cUrl arrayBufferToBase64 fetch
     typeErrorText server).
Local Abbreviation attachJob :=
  (Provider.attachJob f2cUrl l2cUrl p2cUrl typeErrorText server).
Local Abbreviation url_of := (mappingJobTypeToUrl f2cUrl l2cUrl p2cUrl).

Lemma createJob_snapshots params lastFetchResponse evs :
  snapshots (Job.createJob arrayBufferToBase64 fetch params lastFetchResponse
               evs)
  = emitted (subscribeToJobStream lastFetchResponse evs).
Proof.
  unfold Job.createJob. destruct (settled _) as [[? [?|] | ?]|]; reflexivity.
Qed.

Lemma effect_currentJobType (p : State) :
  currentJobType (effect p) = currentJobType p.
Proof. unfold effect. repeat case_match; cbn; congruence. Qed.

Lemma report_currentJobType (cs : list CodegenState) (p : State) :
  currentJobType (report cs p) = currentJobType p.
Proof.
  revert p; induction cs as [|c cs IH]; intros p; [reflexivity|].
  cbn. rewrite IH. now rewrite effect_currentJobType.
Qed.

Lemma report_app (cs cs' : list CodegenState) (p : State) :
  report (cs ++ cs') p = report cs' (report cs p).
Proof. unfold report. apply fold_left_app. Qed.

Lemma effect_ignores_aborted (p : State) :
  status (rawState p) = Status.aborted -> effect p = p.
Proof. unfold effect. intros ->. now destruct (currentJobType p). Qed.

(** After a [pending] snapshot the job is [pending]. *)
Lemma report_pending (cs : list CodegenState) (c : CodegenState) (p : State) :
  currentJobType p <> None ->
  status c = Status.pending ->
  is_pending (job (report (cs ++ [c]) p)) = true.
Proof.
  intros Htype Hc. rewrite report_app. cbn.
  set (q := report cs p).
  assert (currentJobType q <> None) as Hq
    by (subst q; now rewrite report_currentJobType).
  unfold effect. cbn [currentJobType setRawState rawState].
  destruct (currentJobType q); [|contradiction].
  rewrite Hc. reflexivity.
Qed.

(** A stored job type is not lost while snapshots are reported. *)
Lemma report_keeps_type (cs : list CodegenState) (p : State) (k : string)
    (type : JobType) :
  currentJobType p = Some type ->
  localStorage p !! k = Some (JobType_name type) ->
  localStorage (report cs p) !! k = Some (JobType_name type).
Proof.
  revert p; induction cs as [|c cs IH]; intros p Htype Hk; [exact Hk|].
  cbn. apply IH.
  - now rewrite effect_currentJobType.
  - unfold effect. cbn [currentJobType setRawState rawState]. rewrite Htype.
    destruct (status c); cbn; auto.
    destruct (decide (type_key (jobSessionId c) = k)) as [->|Hne].
    + apply lookup_insert_eq.
    + rewrite lookup_insert_ne; auto.
Qed.

Lemma createJob_localStorage type params (p : State) :
  is_pending (job p) = false ->
  localStorage (fst (createJob type params p))
  = localStorage
      (report
         (snapshots (Job.createJob arrayBufferToBase64 fetch params
                       (fst (server (url_of type)))
                       (snd (server (url_of type)))))
         (open (url_of type) (set_currentJobType (Some type) p))).
Proof.
  intros Hfree. unfold Provider.createJob. rewrite Hfree.
  destruct (outcome _) as [[result|] error | e | |]; reflexivity.
Qed.

(** X29 (AnimaSdkProvider.tsx, [createJob] and the effect; job.ts, the
    [aborted] listener): a job that the server aborts leaves the
    provider [pending]: the call returns without touching the job, the
    effect ignores the [aborted] snapshot, and from then on [createJob]
    refuses every new job with "A job is already in progress". *)
Theorem aborted_job_blocks_the_provider (type type' : JobType)
    (params params' : Params) (p : State) lastFetchResponse
    (evs : list StreamEvent) :
  is_pending (job p) = false ->
  server (url_of type) = (lastFetchResponse, evs ++ [Ev_aborted]) ->
  settled (subscribeToJobStream lastFetchResponse evs) = None ->
  let r := createJob type params p in
  snd r = returns
  /\ is_pending (job (fst r)) = true
  /\ createJob type' params' (fst r)
     = (fst r, throws (Error "A job is already in progress")).
Proof.
  intros Hfree Hserver Hopen r.
  destruct (unsettled_is_pending lastFetchResponse evs Hopen)
    as (Hstatus & _ & _ & Hall).
  set (s := subscribeToJobStream lastFetchResponse evs) in *.
  assert (exists cs c, emitted s = cs ++ [c]) as (cs & c & Hcs).
  { destruct (emitted_grow lastFetchResponse evs subscribed) as [more Hm].
    fold (subscribeToJobStream lastFetchResponse evs) in Hm. fold s in Hm.
    cbn [emitted subscribed stateUpdated app] in Hm.
    destruct (exists_last (l := emitted s)) as (cs & c & E);
      [rewrite Hm; discriminate | eauto]. }
  assert (status c = Status.pending) as Hc.
  { rewrite Hcs in Hall. apply Forall_app in Hall as [_ Hall].
    now inversion Hall. }
  assert (snd r = returns /\ is_pending (job (fst r)) = true) as [Hr Hp].
  { subst r. unfold Provider.createJob. rewrite Hfree, Hserver.
    cbn [fst snd]. unfold Job.createJob.
    rewrite subscribe_snoc. fold s.
    destruct s as [st pa ec se cl em] eqn:Es. cbn in Hopen, Hcs; subst se em.
    cbn [dispatch on_aborted on_state stateUpdated settle settled emitted
         state partial errorCount closed snapshots outcome].
    split; [reflexivity|]. cbn [fst].
    rewrite report_app. cbn [report fold_left].
    rewrite effect_ignores_aborted by reflexivity.
    cbn [setRawState job].
    apply report_pending; [discriminate | exact Hc]. }
  repeat split; auto.
  unfold Provider.createJob. rewrite Hp. reflexivity.
Qed.

Lemma JobType_name_round_trip (type : JobType) :
  JobType_of_name (JobType_name type) = Some type
  /\ String.eqb (JobType_name type) "" = false.
Proof. destruct type; split; reflexivity. Qed.

(** X30 (AnimaSdkProvider.tsx, [createJob], the effect and [attachJob];
    job.ts, the [start] listener): once [start] gave a job its session
    id while it was pending, the provider has stored the job's type
    under that id, the rest of the job does not lose it however the job
    ends, and [attachJob] with that id passes its checks and opens the
    event source of the same type's URL followed by the id. *)
Theorem started_job_can_be_attached (type : JobType) (params params' : Params)
    (p : State) lastFetchResponse (before after : list StreamEvent)
    (sid : string) :
  is_pending (job p) = false ->
  server (url_of type) = (lastFetchResponse, before ++ Ev_start sid :: after) ->
  settled (subscribeToJobStream lastFetchResponse before) = None ->
  let p1 := fst (createJob type params p) in
  localStorage p1 !! type_key (Some sid) = Some (JobType_name type)
  /\ opened (fst (attachJob sid params' p1))
     = opened p1 ++ [(url_of type ++ "/" ++ sid)%string].
Proof.
  intros Hfree Hserver Hopen p1.
  destruct (unsettled_is_pending lastFetchResponse before Hopen)
    as (Hstatus & _ & Hresult & _).
  assert (localStorage p1 !! type_key (Some sid) = Some (JobType_name type))
    as Hstored.
  { subst p1. rewrite createJob_localStorage by exact Hfree.
    rewrite Hserver. cbn [fst snd]. rewrite createJob_snapshots.
    unfold subscribeToJobStream. rewrite fold_left_app. cbn [fold_left].
    fold (subscribeToJobStream lastFetchResponse before).
    set (s := subscribeToJobStream lastFetchResponse before) in *.
    destruct (emitted_grow lastFetchResponse after
                (dispatch lastFetchResponse s (Ev_start sid))) as [more ->].
    destruct s as [[? ? ? ? ? ? ?] ? ? ? ? ?]; cbn in Hstatus, Hresult; subst.
    cbn [dispatch on_start on_result on_tasks on_state stateUpdated emitted
         state result tasks partial set_tasks set_jobSessionId].
    rewrite !report_app.
    apply report_keeps_type.
    - now rewrite !report_currentJobType.
    - cbn [report fold_left]. unfold effect at 1.
      cbn [currentJobType setRawState rawState].
      rewrite report_currentJobType.
      cbn [currentJobType open set_currentJobType status jobSessionId
           setJob setItem localStorage].
      apply lookup_insert_eq. }
  split; [exact Hstored|].
  destruct (JobType_name_round_trip type) as [Hname Hfull].
  unfold Provider.attachJob. rewrite Hstored, Hfull, Hname.
  destruct (outcome _) as [[result|] error | e | |]; cbn;
    now rewrite report_opened.
Qed.

End Calls.

Section CallsExamples.
Import Job Provider Props JobViews.

Lemma aborted_job_blocks_the_provider_witness :
  is_pending
    (job (fst (createJob "/f2c" "/l2c" "/p2c" (fun buffer => buffer)
                 unreachable "" aborting f2c None (mounted ∅))))
  = true.
Proof.
  destruct (aborted_job_blocks_the_provider "/f2c" "/l2c" "/p2c"
              (fun buffer => buffer) unreachable "" aborting f2c l2c None
              None (mounted ∅) open_stream [Ev_start "session"]
              eq_refl eq_refl eq_refl) as (_ & H & _).
  exact H.
Defined.

Lemma started_job_can_be_attached_witness :
  localStorage
    (fst (createJob "/f2c" "/l2c" "/p2c" (fun buffer => buffer)
            unreachable "" finishing f2c None (mounted ∅)))
  !! type_key (Some "session")
  = Some (JobType_name f2c).
Proof.
  exact (proj1 (started_job_can_be_attached "/f2c" "/l2c" "/p2c"
                  (fun buffer => buffer) unreachable "" finishing f2c None
                  None (mounted ∅) open_stream [] [Ev_done 10 "session"]
                  "session" eq_refl eq_refl eq_refl)).
Defined.
End CallsExamples.
